(** * SkPy connection layer: challenge hash and session engine

    A shallow embedding of [SkyPy/conn.py]: the keyed challenge hash
    [getMac256Hash] with its three inner helpers, the callable transport
    primitive [SkypeConnection.__call__], the token acquisition steps and the
    [resubscribeOn] retry decorator, followed by the properties the
    specification states about them and by further properties of the same
    code.

    Conventions.  A Python [str] is a [string], its characters having codes
    below 256; [ord c] is the code of the character.  Python integers are
    [Z].  A Python exception is a value of [exn] carried by [Raise]; code
    that cannot raise is a plain function.  Dictionaries ([self.tokens],
    request and response headers) are [gmap]s keyed by strings.

    What lies outside [conn.py] is modelled as follows.  [hashlib.sha256] is
    written out.  A page parsed by [bs4] is the record of the look-ups
    [login] makes on it.  The network is a finite script of answers, each
    with the seconds its exchange takes; the clock advances by those seconds
    and is read in whole seconds.  The local time zone is a component of the
    world: the conversions between timestamps and naive local datetimes are
    what the zone makes them, failures included.  The token file is a list
    of lines. *)

From Stdlib Require Import ZArith Ascii String List Lia DecimalString.
From Stdlib Require DecimalPos.
From stdpp Require Import base option list gmap strings.

(** ** Python exceptions and results *)

(** [requests.Response], reduced to what the connection code reads: the
    status code, the header dictionary, and the lookups the login scraper
    makes on the parsed body (see [Page] below). *)
Record Page := {
  has_recaptcha : bool;            (* find(id="recaptcha_response_field") *)
  pie : option string;             (* find(id="pie").get("value") *)
  etm : option string;             (* find(id="etm").get("value") *)
  errors : list string;            (* select("div.messageBox.message_error span") texts *)
  skypetoken : option string;      (* find("input", {"name": "skypetoken"}).get("value") *)
  expires_in : option Z            (* int(find("input", {"name": "expires_in"}).get("value")) *)
}.

Record Response := {
  status_code : Z;
  resp_headers : gmap string string;
  text : Page
}.

(** The positional arguments of an exception: texts and responses. *)
Inductive exn_arg :=
| ArgStr (s : string)
| ArgResp (r : Response).

Inductive exn :=
| TypeError
| IndexError
| ValueError
| KeyError (key : string)
| AttributeError
| RecursionError
| OverflowError
| OSError
| ConnectionError                      (* requests.exceptions.ConnectionError *)
| SkypeApiException (args : list exn_arg).

Inductive result (A : Type) :=
| Ok (a : A)
| Raise (e : exn).
Arguments Ok {A} a.
Arguments Raise {A} e.

Definition rbind {A B} (r : result A) (k : A -> result B) : result B :=
  match r with
  | Ok a => k a
  | Raise e => Raise e
  end.

Declare Scope py_scope.
Delimit Scope py_scope with py.
Notation "x <- r ;; k" := (rbind r (fun x => k))
  (at level 100, r at next level, right associativity) : py_scope.

(** [for x in xs: s = body(x, s)], stopping at the first exception. *)
Fixpoint for_each {S X} (xs : list X) (body : X -> S -> result S) (s : S)
  : result S :=
  match xs with
  | [] => Ok s
  | x :: xs' =>
      match body x s with
      | Ok s' => for_each xs' body s'
      | Raise e => Raise e
      end
  end.

(** [range(n)] *)
Definition range (n : nat) : list nat := seq 0 n.

(** ** Python strings and lists *)

Definition ord (c : ascii) : Z := Z.of_N (N_of_ascii c).

(** [s[i]] for a non-negative index. *)
Definition str_index (s : string) (i : nat) : result ascii :=
  match String.get i s with
  | Some c => Ok c
  | None => Raise IndexError
  end.

(** [s[k]] for an integer index: a negative index counts from the end. *)
Definition str_index_Z (s : string) (k : Z) : result ascii :=
  let k' := if (k <? 0)%Z then (k + Z.of_nat (String.length s))%Z else k in
  if (k' <? 0)%Z then Raise IndexError else str_index s (Z.to_nat k').

(** [s[a:b]] for [0 <= a <= b]; slicing never raises. *)
Definition str_slice (s : string) (a b : nat) : string :=
  substring a (b - a) s.

(** [c * n] for a one-character string. *)
Fixpoint str_mul (c : ascii) (n : nat) : string :=
  match n with
  | O => EmptyString
  | S n' => String c (str_mul c n')
  end.

(** [l[i]] and [l[i] = v] on a list. *)
Definition list_index {A} (l : list A) (i : nat) : result A :=
  match l !! i with
  | Some x => Ok x
  | None => Raise IndexError
  end.

Definition list_set {A} (l : list A) (i : nat) (v : A) : result (list A) :=
  if (i <? length l)%nat then Ok (<[i:=v]> l) else Raise IndexError.

(** [str.upper()] on the characters a hexadecimal digest contains. *)
Definition upper_char (c : ascii) : ascii :=
  let n := N_of_ascii c in
  if ((97 <=? n) && (n <=? 122))%N then ascii_of_N (n - 32) else c.

Fixpoint upper (s : string) : string :=
  match s with
  | EmptyString => EmptyString
  | String c s' => String (upper_char c) (upper s')
  end.

(** Value of a character as a digit: [0-9], [a-z], [A-Z]. *)
Definition digit_value (c : ascii) : option Z :=
  let n := N_of_ascii c in
  if ((48 <=? n) && (n <=? 57))%N then Some (Z.of_N (n - 48))
  else if ((97 <=? n) && (n <=? 122))%N then Some (Z.of_N (n - 87))
  else if ((65 <=? n) && (n <=? 90))%N then Some (Z.of_N (n - 55))
  else None.

Fixpoint int_digits (base : Z) (acc : Z) (s : string) : result Z :=
  match s with
  | EmptyString => Ok acc
  | String c s' =>
      match digit_value c with
      | Some d =>
          if (d <? base)%Z then int_digits base (acc * base + d)%Z s'
          else Raise ValueError
      | None => Raise ValueError
      end
  end.

(** [int(s, base)] on digit strings.  Python also accepts a sign, surrounding
    white space, a base prefix and underscores; the strings parsed here are
    slices of a hexadecimal digest or strings of ['0'] and ['1'], which
    contain none of them, so those forms raise [ValueError] in the model. *)
Definition int_base (s : string) (base : Z) : result Z :=
  match s with
  | EmptyString => Raise ValueError
  | _ => int_digits base 0 s
  end.

(** [int(s)] on any text, in base 10, as CPython 3 reads it: white space
    around the numeral, an optional sign, then decimal digits with single
    underscores between them (since 3.6); a numeral of more than 4300 digits
    is refused (the default limit, since 3.11).  Of the characters with codes
    below 256 the white space ones are 9 to 13, 32, 133 and 160, and the
    decimal digits are [0-9]. *)
Definition is_space (c : ascii) : bool :=
  let n := N_of_ascii c in
  (((9 <=? n) && (n <=? 13)) || (n =? 32) || (n =? 133) || (n =? 160))%N.

Definition is_decimal (c : ascii) : bool :=
  let n := N_of_ascii c in ((48 <=? n) && (n <=? 57))%N.

Fixpoint lstrip (s : string) : string :=
  match s with
  | EmptyString => EmptyString
  | String c r => if is_space c then lstrip r else s
  end.

(** The numeral after its first digit: the value and the number of digits
    read so far; the result also has the text that follows the numeral.  An
    underscore must be followed by a digit. *)
Fixpoint numeral (acc : Z) (digits : nat) (s : string)
  : option (Z * nat * string) :=
  match s with
  | EmptyString => Some (acc, digits, EmptyString)
  | String c r =>
      if is_decimal c then numeral (acc * 10 + (ord c - 48))%Z (S digits) r
      else if Ascii.eqb c "_" then
        match r with
        | EmptyString => None
        | String c' r' =>
            if is_decimal c'
            then numeral (acc * 10 + (ord c' - 48))%Z (S digits) r'
            else None
        end
      else Some (acc, digits, s)
  end.

Definition max_str_digits : nat := 4300.

Definition int_str (s : string) : result Z :=
  let s := lstrip s in
  let '(sign, s) :=
    match s with
    | String c r =>
        if Ascii.eqb c "-" then ((-1)%Z, r)
        else if Ascii.eqb c "+" then (1%Z, r)
        else (1%Z, s)
    | EmptyString => (1%Z, s)
    end in
  match s with
  | EmptyString => Raise ValueError
  | String c r =>
      if is_decimal c then
        match numeral (ord c - 48) 1 r with
        | Some (v, digits, rest) =>
            match lstrip rest with
            | EmptyString =>
                if (max_str_digits <? digits)%nat then Raise ValueError
                else Ok (sign * v)%Z
            | _ => Raise ValueError
            end
        | None => Raise ValueError
        end
      else Raise ValueError
  end.

(** ["{0:b}".format(n)] *)
Fixpoint bin_pos (p : positive) : string :=
  match p with
  | xH => "1"
  | xO q => bin_pos q +:+ "0"
  | xI q => bin_pos q +:+ "1"
  end.

Definition format_b (n : Z) : string :=
  match n with
  | Z0 => "0"
  | Zpos p => bin_pos p
  | Zneg p => "-" +:+ bin_pos p
  end.

(** [str(n)] for an integer. *)
Definition str_of_int (n : Z) : string := NilZero.string_of_int (Z.to_int n).

(** ** hashlib.sha256

    The digest of the standard library, written out after FIPS 180-4 so that
    the model of [getMac256Hash] runs.  Words are integers below [2^32]. *)
Module SHA256.
Local Open Scope Z_scope.

Definition mask32 : Z := 0xFFFFFFFF.
Definition add32 (x y : Z) : Z := (x + y) mod 2 ^ 32.
Definition rotr (n x : Z) : Z :=
  Z.land (Z.lor (Z.shiftr x n) (Z.shiftl x (32 - n))) mask32.
Definition shr (n x : Z) : Z := Z.shiftr x n.
Definition Ch (x y z : Z) : Z :=
  Z.lxor (Z.land x y) (Z.land (Z.lxor x mask32) z).
Definition Maj (x y z : Z) : Z :=
  Z.lxor (Z.lxor (Z.land x y) (Z.land x z)) (Z.land y z).
Definition Sigma0 x := Z.lxor (Z.lxor (rotr 2 x) (rotr 13 x)) (rotr 22 x).
Definition Sigma1 x := Z.lxor (Z.lxor (rotr 6 x) (rotr 11 x)) (rotr 25 x).
Definition sigma0 x := Z.lxor (Z.lxor (rotr 7 x) (rotr 18 x)) (shr 3 x).
Definition sigma1 x := Z.lxor (Z.lxor (rotr 17 x) (rotr 19 x)) (shr 10 x).

(** The largest [r] below [2^bits] with [r^k <= n], found bit by bit. *)
Fixpoint root_bits (k : Z) (bits : nat) (n r : Z) : Z :=
  match bits with
  | O => r
  | S b =>
      let r' := r + 2 ^ Z.of_nat b in
      root_bits k b n (if r' ^ k <=? n then r' else r)
  end.

Definition is_prime (n : nat) : bool :=
  forallb (fun d => negb (n mod d =? 0)%nat) (seq 2 (n - 2)).

(** The first 64 primes: 2, 3, 5, ..., 311. *)
Definition primes : list Z :=
  map Z.of_nat (filter (fun n => is_prime n = true) (seq 2 310)).

(** The first 32 bits of the fractional part of the [k]-th root of [p]. *)
Definition frac_root (k p : Z) : Z :=
  root_bits k 35 (p * 2 ^ (32 * k)) 0 mod 2 ^ 32.

(** The round constants, from the cube roots of the first 64 primes. *)
Definition K : list Z := map (frac_root 3) primes.

(** The eight chaining words. *)
Record state := State {
  ha : Z; hb : Z; hc : Z; hd : Z; he : Z; hf : Z; hg : Z; hh : Z
}.

(** The initial chaining words, from the square roots of the first 8
    primes. *)
Definition init : state :=
  State (frac_root 2 2) (frac_root 2 3) (frac_root 2 5) (frac_root 2 7)
        (frac_root 2 11) (frac_root 2 13) (frac_root 2 17) (frac_root 2 19).

(** Message padding: a [0x80] byte, zero bytes, the bit length on 8 bytes. *)
Definition be_bytes (n : nat) (x : Z) : list Z :=
  map (fun i => (x / 256 ^ Z.of_nat i) mod 256) (rev (seq 0 n)).

Definition pad (msg : list Z) : list Z :=
  let len := Z.of_nat (length msg) in
  msg ++ [0x80] ++ repeat 0 (Z.to_nat ((55 - len) mod 64))
      ++ be_bytes 8 (8 * len).

Definition be_word (bs : list Z) : Z :=
  fold_left (fun acc b => acc * 256 + b) bs 0.

Fixpoint words (n : nat) (bs : list Z) : list Z :=
  match n with
  | O => []
  | S n' => be_word (take 4 bs) :: words n' (drop 4 bs)
  end.

(** The message schedule, most recent word first. *)
Fixpoint extend (n : nat) (w : list Z) : list Z :=
  match n with
  | O => w
  | S n' =>
      let x := add32 (add32 (sigma1 (nth 1 w 0)) (nth 6 w 0))
                     (add32 (sigma0 (nth 14 w 0)) (nth 15 w 0)) in
      extend n' (x :: w)
  end.

Definition schedule (block : list Z) : list Z :=
  rev (extend 48 (rev (words 16 block))).

Definition round (s : state) (kw : Z * Z) : state :=
  let '(k, w) := kw in
  let t1 := add32 (add32 (add32 (hh s) (Sigma1 (he s)))
                         (add32 (Ch (he s) (hf s) (hg s)) k)) w in
  let t2 := add32 (Sigma0 (ha s)) (Maj (ha s) (hb s) (hc s)) in
  State (add32 t1 t2) (ha s) (hb s) (hc s)
        (add32 (hd s) t1) (he s) (hf s) (hg s).

Definition compress (s : state) (block : list Z) : state :=
  let r := fold_left round (combine K (schedule block)) s in
  State (add32 (ha s) (ha r)) (add32 (hb s) (hb r))
        (add32 (hc s) (hc r)) (add32 (hd s) (hd r))
        (add32 (he s) (he r)) (add32 (hf s) (hf r))
        (add32 (hg s) (hg r)) (add32 (hh s) (hh r)).

Fixpoint blocks (n : nat) (bs : list Z) (s : state) : state :=
  match n with
  | O => s
  | S n' => blocks n' (drop 64 bs) (compress s (take 64 bs))
  end.

Definition digest (msg : list Z) : state :=
  let p := pad msg in blocks (length p / 64) p init.

Definition hex_digit (d : Z) : ascii :=
  match String.get (Z.to_nat (d mod 16)) "0123456789abcdef" with
  | Some c => c
  | None => "0"%char
  end.

(** Eight hexadecimal digits of a word, most significant first. *)
Definition hex_word (w : Z) (rest : string) : string :=
  String (hex_digit (w / 16 ^ 7)) (String (hex_digit (w / 16 ^ 6))
 (String (hex_digit (w / 16 ^ 5)) (String (hex_digit (w / 16 ^ 4))
 (String (hex_digit (w / 16 ^ 3)) (String (hex_digit (w / 16 ^ 2))
 (String (hex_digit (w / 16 ^ 1)) (String (hex_digit w) rest))))))).

(** [hashlib.sha256(msg).hexdigest()] *)
Definition hexdigest (msg : list Z) : string :=
  let s := digest msg in
  hex_word (ha s) (hex_word (hb s) (hex_word (hc s) (hex_word (hd s)
 (hex_word (he s) (hex_word (hf s) (hex_word (hg s) (hex_word (hh s)
  ""))))))).
End SHA256.

(** [s.encode("utf-8")], for characters with codes below 256: one byte below
    128, two bytes from 128 on. *)
Fixpoint encode_utf8 (s : string) : list Z :=
  match s with
  | EmptyString => []
  | String c s' =>
      let n := ord c in
      if (n <? 128)%Z then n :: encode_utf8 s'
      else Z.lor 0xC0 (Z.shiftr n 6) :: Z.lor 0x80 (Z.land n 0x3F)
             :: encode_utf8 s'
  end.

(** ** getMac256Hash and its inner functions *)

Definition hexChars : string := "0123456789abcdef".

(** [hexString += c] *)
Definition str_push (s : string) (c : ascii) : string := s +:+ String c "".

Definition int32ToHexString (n : Z) : result string :=
  for_each (range 4) (fun i hexString =>
    (c1 <- str_index_Z hexChars
             (Z.land (Z.shiftr n (Z.of_nat i * 8 + 4)) 15) ;;
     let hexString := str_push hexString c1 in
     c2 <- str_index_Z hexChars (Z.land (Z.shiftr n (Z.of_nat i * 8)) 15) ;;
     let hexString := str_push hexString c2 in
     Ok hexString)%py) "".

Definition int64Xor (a b : Z) : result Z :=
  let sA := format_b a in
  let sB := format_b b in
  let sC := "" in
  let sD := "" in
  let diff :=
    Z.to_nat (Z.abs (Z.of_nat (String.length sA) - Z.of_nat (String.length sB))) in
  (sD <- for_each (range diff) (fun _ sD => Ok (sD +:+ "0")) sD ;;
   let '(sA, sB) :=
     if (String.length sA <? String.length sB)%nat then (sD +:+ sA, sB)
     else if (String.length sB <? String.length sA)%nat then (sA, sD +:+ sB)
     else (sA, sB) in
   sC <- for_each (range (String.length sA)) (fun i sC =>
           ca <- str_index sA i ;;
           cb <- str_index sB i ;;
           Ok (sC +:+ (if Ascii.eqb ca cb then "0" else "1"))) sC ;;
   int_base sC 2)%py.

(** The loop variables of [cS64]. *)
Record cs64_vars := Cs64 {
  pos : nat;
  qwDatum : Z;
  qwMAC : Z;
  qwSum : Z
}.

Definition MODULUS : Z := 2147483647.
Definition CS64_e : Z := 242854337.

(** One iteration of the loop of [cS64]: two words of [pdwData]. *)
Definition cS64_body (pdwData : list Z) (CS64_a CS64_b CS64_c CS64_d : Z)
  (v : cs64_vars) : result cs64_vars :=
  (d <- list_index pdwData (pos v) ;;
   let qwDatum := d in
   let pos := pos v + 1 in
   let qwDatum := (qwDatum * CS64_e)%Z in
   let qwDatum := (qwDatum mod MODULUS)%Z in
   let qwMAC := (qwMAC v + qwDatum)%Z in
   let qwMAC := (qwMAC * CS64_a)%Z in
   let qwMAC := (qwMAC + CS64_b)%Z in
   let qwMAC := (qwMAC mod MODULUS)%Z in
   let qwSum := (qwSum v + qwMAC)%Z in
   d' <- list_index pdwData pos ;;
   let qwMAC := (qwMAC + d')%Z in
   let pos := pos + 1 in
   let qwMAC := (qwMAC * CS64_c)%Z in
   let qwMAC := (qwMAC + CS64_d)%Z in
   let qwMAC := (qwMAC mod MODULUS)%Z in
   let qwSum := (qwSum + qwMAC)%Z in
   Ok (Cs64 pos qwDatum qwMAC qwSum))%py.

(** [cS64] returns [None] on a sequence that is too short or of odd length,
    and the list [[qwMAC, qwSum]] otherwise. *)
Definition cS64 (pdwData pInHash : list Z) : result (option (list Z)) :=
  if (length pdwData <? 2)%nat
     || (Z.land (Z.of_nat (length pdwData)) 1 =? 1)%Z
  then Ok None
  else
    (h0 <- list_index pInHash 0 ;;
     let CS64_a := Z.land h0 MODULUS in
     h1 <- list_index pInHash 1 ;;
     let CS64_b := Z.land h1 MODULUS in
     h2 <- list_index pInHash 2 ;;
     let CS64_c := Z.land h2 MODULUS in
     h3 <- list_index pInHash 3 ;;
     let CS64_d := Z.land h3 MODULUS in
     v <- for_each (range (length pdwData / 2))
            (fun _ v => cS64_body pdwData CS64_a CS64_b CS64_c CS64_d v)
            (Cs64 0 0 0 0) ;;
     let qwMAC := (qwMAC v + CS64_b)%Z in
     let qwMAC := (qwMAC mod MODULUS)%Z in
     let qwSum := (qwSum v + CS64_d)%Z in
     let qwSum := (qwSum mod MODULUS)%Z in
     Ok (Some [qwMAC; qwSum]))%py.

(** [clearText = challenge + appId; clearText += "0" * (8 - len(clearText) % 8)] *)
Definition clearText_of (challenge appId : string) : string :=
  let clearText := challenge +:+ appId in
  clearText +:+ str_mul "0" (8 - String.length clearText mod 8).

(** The loop that fills [pClearText], the word sequence handed to [cS64]. *)
Definition pClearText_of (clearText : string) : result (list Z) :=
  let cchClearText := String.length clearText / 4 in
  for_each (range cchClearText) (fun i pClearText =>
    let pClearText := (take i pClearText ++ [0%Z] ++ drop i pClearText)%list in
    for_each (range 4) (fun pos pClearText =>
      (x <- list_index pClearText i ;;
       c <- str_index clearText pos ;;
       list_set pClearText i (x + ord c * 256 ^ Z.of_nat pos)%Z)%py)
      pClearText) [].

(** [hashlib.sha256((challenge + key).encode("utf-8")).hexdigest().upper()] *)
Definition hash_of (challenge key : string) : string :=
  upper (SHA256.hexdigest (encode_utf8 (challenge +:+ key))).

(** The loop that fills [sha256Hash] from the digest text. *)
Definition sha256Hash_of (hash : string) : result (list Z) :=
  let sha256Hash := [0; 0; 0; 0]%Z in
  for_each (range (length sha256Hash)) (fun i sha256Hash =>
    (sha256Hash <- list_set sha256Hash i 0%Z ;;
     for_each (range 4) (fun pos sha256Hash =>
       let dpos := pos * 2 in
       x <- list_index sha256Hash i ;;
       v <- int_base (str_slice hash dpos (dpos + 2)) 16 ;;
       list_set sha256Hash i (x + v * 256 ^ Z.of_nat pos)%Z)
       sha256Hash)%py) sha256Hash.

(** [map(f, xs)] consumed in order, stopping at the first exception. *)
Fixpoint map_result {A B} (f : A -> result B) (l : list A) : result (list B) :=
  match l with
  | [] => Ok []
  | x :: l' =>
      (y <- f x ;; ys <- map_result f l' ;; Ok (y :: ys))%py
  end.

(** ["".join(parts)] *)
Definition join (parts : list string) : string :=
  fold_right String.append "" parts.

(** The last three lines of [getMac256Hash]: mix, pair up with the seed
    words, render. *)
Definition mac_of (pClearText sha256Hash : list Z) : result string :=
  (macHash <- cS64 pClearText sha256Hash ;;
   match macHash with
   | None => Raise TypeError   (* macHash[0] on None *)
   | Some macHash =>
       m0 <- list_index macHash 0 ;;
       m1 <- list_index macHash 1 ;;
       let macParts := [m0; m1; m0; m1] in
       parts <- map_result
                  (fun '(h, m) => x <- int64Xor h m ;; int32ToHexString x)
                  (combine sha256Hash macParts) ;;
       Ok (join parts)
   end)%py.

Definition getMac256Hash (challenge appId key : string) : result string :=
  let clearText := clearText_of challenge appId in
  (pClearText <- pClearText_of clearText ;;
   let hash := hash_of challenge key in
   sha256Hash <- sha256Hash_of hash ;;
   mac_of pClearText sha256Hash)%py.

(** ** The connection object and the world around it

    [self] (the [SkypeConnection]), the process-wide default [headers]
    dictionary of [__call__], the clock, the network and the token file are
    the components of one [state].  The network is a script: the answers the
    service gives to the next requests, each with the seconds the exchange
    takes; when the script is used up the network is down and every request
    fails with [ConnectionError].  [history] is a ghost trace: the model
    appends to it and never reads it. *)

#[local] Set Warnings "-register-all".

Inductive json_value :=
| JStr (s : string)
| JNum (n : Z)
| JList (items : list json_value)
| JObj (fields : list (string * json_value)).

Record Request := {
  req_method : string;
  req_url : string;
  req_headers : gmap string string;
  req_params : option (list (string * string));
  req_data : option (list (string * option string));
  req_json : option json_value
}.

(** The local time zone of the process, as far as the code observes it.  A
    naive local [datetime] is its wall-clock reading in whole seconds,
    counted from the reading 1970-01-01 00:00:00, so that naive datetimes
    compare as these numbers do.  [tz_localtime] is the conversion behind
    [datetime.fromtimestamp] and [datetime.now]: the wall-clock reading at a
    timestamp, or the way the conversion fails.  [tz_mktime] is the
    conversion behind [time.mktime] of a [timetuple()]: a timestamp for a
    wall-clock reading, the choice of the platform where a reading occurs
    twice or never.  [tz_descriptor] is [time.timezone] as [login] renders
    it. *)
Inductive time_failure :=
| YearOutOfRange                       (* ValueError: year out of range *)
| TimeOverflow                         (* OverflowError: out of time_t *)
| LocaltimeFailed.                     (* OSError of the C library *)

Definition time_exn (f : time_failure) : exn :=
  match f with
  | YearOutOfRange => ValueError
  | TimeOverflow => OverflowError
  | LocaltimeFailed => OSError
  end.

Record zone := {
  tz_descriptor : string;
  tz_localtime : Z -> time_failure + Z;
  tz_mktime : Z -> option Z
}.

(** [datetime.datetime.fromtimestamp(t)] for an integer [t] *)
Definition fromtimestamp (z : zone) (t : Z) : result Z :=
  match tz_localtime z t with
  | inr wall => Ok wall
  | inl f => Raise (time_exn f)
  end.

(** [int(time.mktime(d.timetuple()))] for a naive [d] *)
Definition mktime (z : zone) (wall : Z) : result Z :=
  match tz_mktime z wall with
  | Some t => Ok t
  | None => Raise OverflowError
  end.

Inductive net_outcome :=
| Responds (r : Response)
| Refused.                             (* DNS, connect or reset failure *)

Inductive method_name :=
| m_login
| m_getRegToken
| m_makeEndpoint
| m_subscribe.

Inductive event :=
| Sent (r : Request)
| Entered (m : method_name) (toks : gmap string string)
    (expiry : gmap string Z) (at_time : Z)
| Invoked.

Record state := mkState {
  tokens : gmap string string;         (* self.tokens *)
  tokenExpiry : gmap string Z;         (* self.tokenExpiry, local datetimes *)
  msgsHost : option string;            (* self.msgsHost, when set *)
  msgsEndpoint : option string;        (* self.msgsEndpoint, when set *)
  default_headers : gmap string string;  (* the shared [headers={}] default *)
  now : Z;                             (* the clock, Unix seconds *)
  net : list (Z * net_outcome);
  fs : gmap string (list string);      (* files, by lines *)
  timezone : zone;                     (* the local time zone *)
  history : list event
}.

Definition with_tokens v (s : state) : state :=
  mkState v (tokenExpiry s) (msgsHost s) (msgsEndpoint s) (default_headers s)
    (now s) (net s) (fs s) (timezone s) (history s).
Definition with_tokenExpiry v (s : state) : state :=
  mkState (tokens s) v (msgsHost s) (msgsEndpoint s) (default_headers s)
    (now s) (net s) (fs s) (timezone s) (history s).
Definition with_msgsHost v (s : state) : state :=
  mkState (tokens s) (tokenExpiry s) v (msgsEndpoint s) (default_headers s)
    (now s) (net s) (fs s) (timezone s) (history s).
Definition with_msgsEndpoint v (s : state) : state :=
  mkState (tokens s) (tokenExpiry s) (msgsHost s) v (default_headers s)
    (now s) (net s) (fs s) (timezone s) (history s).
Definition with_default_headers v (s : state) : state :=
  mkState (tokens s) (tokenExpiry s) (msgsHost s) (msgsEndpoint s) v
    (now s) (net s) (fs s) (timezone s) (history s).
Definition with_now v (s : state) : state :=
  mkState (tokens s) (tokenExpiry s) (msgsHost s) (msgsEndpoint s)
    (default_headers s) v (net s) (fs s) (timezone s) (history s).
Definition with_net v (s : state) : state :=
  mkState (tokens s) (tokenExpiry s) (msgsHost s) (msgsEndpoint s)
    (default_headers s) (now s) v (fs s) (timezone s) (history s).
Definition with_fs v (s : state) : state :=
  mkState (tokens s) (tokenExpiry s) (msgsHost s) (msgsEndpoint s)
    (default_headers s) (now s) (net s) v (timezone s) (history s).
Definition with_history v (s : state) : state :=
  mkState (tokens s) (tokenExpiry s) (msgsHost s) (msgsEndpoint s)
    (default_headers s) (now s) (net s) (fs s) (timezone s) v.

(** Code that reads and changes the state and may raise.  A raised exception
    keeps the changes made before it. *)
Definition action (A : Type) : Type := state -> result A * state.

Definition ret {A} (a : A) : action A := fun s => (Ok a, s).
Definition raise {A} (e : exn) : action A := fun s => (Raise e, s).
Definition lift {A} (r : result A) : action A := fun s => (r, s).
Definition bind {A B} (m : action A) (k : A -> action B) : action B :=
  fun s =>
    match m s with
    | (Ok a, s') => k a s'
    | (Raise e, s') => (Raise e, s')
    end.
Definition try_except {A} (m : action A) (handler : exn -> action A)
  : action A :=
  fun s =>
    match m s with
    | (Ok a, s') => (Ok a, s')
    | (Raise e, s') => handler e s'
    end.
Definition get_state : action state := fun s => (Ok s, s).
Definition modify (f : state -> state) : action unit := fun s => (Ok tt, f s).

Declare Scope action_scope.
Delimit Scope action_scope with action.
Notation "x <- m ;; k" := (bind m (fun x => k))
  (at level 100, m at next level, right associativity) : action_scope.
Notation "m ;;; k" := (bind m (fun _ => k))
  (at level 100, right associativity) : action_scope.

(** Ghost: append an event to the trace. *)
Definition note (e : event) : action unit :=
  modify (fun s => with_history (history s ++ [e]) s).

(** Ghost: a method of the connection is entered. *)
Definition enter (m : method_name) : action unit :=
  fun s => note (Entered m (tokens s) (tokenExpiry s) (now s)) s.

(** [d[k]] on a dictionary, and the read of an attribute that may be unset. *)
Definition dict_get {V} (d : gmap string V) (k : string) : result V :=
  match d !! k with
  | Some v => Ok v
  | None => Raise (KeyError k)
  end.

Definition attr {V} (o : option V) : result V :=
  match o with
  | Some v => Ok v
  | None => Raise AttributeError
  end.

(** [requests.request(...)]: one exchange with the network. *)
Definition requests_request (r : Request) : action Response :=
  fun s =>
    let s := with_history (history s ++ [Sent r]) s in
    match net s with
    | [] => (Raise ConnectionError, s)
    | (dt, o) :: rest =>
        let s := with_net rest (with_now (now s + dt)%Z s) in
        match o with
        | Responds resp => (Ok resp, s)
        | Refused => (Raise ConnectionError, s)
        end
    end.

(** ** SkypeConnection *)

(** [Skype, Reg = range(2)] *)
Definition Auth_Skype : Z := 0.
Definition Auth_Reg : Z := 1.

Definition API_LOGIN : string :=
  "https://login.skype.com/login?client_id=578134&redirect_uri=https%3A%2F%2Fweb.skype.com".
Definition API_MSGSHOST : string :=
  "https://client-s.gateway.messenger.live.com/v1/users/ME".

(** The default of the [codes] parameter. *)
Definition default_codes : list Z := [200; 201; 207]%Z.

(** The [headers] argument: left out (the shared default dictionary) or a
    dictionary of the caller. *)
Inductive headers_arg :=
| HeadersDefault
| Headers (h : gmap string string).

(** The dictionary the [headers] parameter is bound to. *)
Definition headers_dict (headers : headers_arg) (s : state)
  : gmap string string :=
  match headers with
  | HeadersDefault => default_headers s
  | Headers h => h
  end.

(** The two branches on [auth]: [headers[...] = self.tokens[...]]. *)
Definition auth_headers (auth : option Z) (toks h : gmap string string)
  : result (gmap string string) :=
  if decide (auth = Some Auth_Skype) then
    (tok <- dict_get toks "skype" ;; Ok (<["X-SkypeToken" := tok]> h))%py
  else if decide (auth = Some Auth_Reg) then
    (tok <- dict_get toks "reg" ;; Ok (<["RegistrationToken" := tok]> h))%py
  else Ok h.

(** The assignment lands in the shared default when [headers] was left out. *)
Definition keep_headers (headers : headers_arg) (h : gmap string string)
  (s : state) : state :=
  match headers with
  | HeadersDefault => with_default_headers h s
  | Headers _ => s
  end.

Definition api_error_message (resp : Response) (method url : string)
  : string :=
  str_of_int (status_code resp) +:+ " response from " +:+ method +:+ " "
  +:+ url.

Definition __call__ (method url : string) (codes : list Z) (auth : option Z)
  (headers : headers_arg) (params : option (list (string * string)))
  (data : option (list (string * option string))) (json : option json_value)
  : action Response :=
  (s <- get_state ;;
   h <- lift (auth_headers auth (tokens s) (headers_dict headers s)) ;;
   modify (keep_headers headers h) ;;;
   resp <- requests_request
             {| req_method := method; req_url := url; req_headers := h;
                req_params := params; req_data := data; req_json := json |} ;;
   if bool_decide (status_code resp ∈ codes) then ret resp
   else raise (SkypeApiException
                 [ArgStr (api_error_message resp method url);
                  ArgResp resp]))%action.

Definition login (user pwd : option string) : action unit :=
  (enter m_login ;;;
   resp <- __call__ "GET" API_LOGIN default_codes None HeadersDefault
             None None None ;;
   let loginPage := text resp in
   if has_recaptcha loginPage
   then raise (SkypeApiException [ArgStr "Captcha required"])
   else
     pie <- lift (attr (pie loginPage)) ;;
     etm <- lift (attr (etm loginPage)) ;;
     s <- get_state ;;
     let secs := now s in
     loginResp <- __call__ "POST" API_LOGIN default_codes None HeadersDefault
                    None
                    (Some [("username", user); ("password", pwd);
                           ("pie", Some pie); ("etm", Some etm);
                           ("timezone_field",
                            Some (tz_descriptor (timezone s)));
                           ("js_time", Some (str_of_int secs))])
                    None ;;
     let loginRespPage := text loginResp in
     match errors loginRespPage with
     | e :: _ =>
         raise (SkypeApiException
                  [ArgStr "Error message returned"; ArgResp loginResp; ArgStr e])
     | [] =>
         try_except
           (tok <- lift (attr (skypetoken loginRespPage)) ;;
            modify (fun s => with_tokens (<["skype" := tok]> (tokens s)) s) ;;;
            ttl <- lift (attr (expires_in loginRespPage)) ;;
            expiry <- lift (fromtimestamp (timezone s) (secs + ttl)) ;;
            modify (fun s =>
              with_tokenExpiry (<["skype" := expiry]> (tokenExpiry s)) s))
           (fun e =>
              match e with
              | AttributeError =>
                  raise (SkypeApiException
                    [ArgStr "Couldn't retrieve Skype token from login response";
                     ArgResp loginResp])
              | _ => raise e
              end)
     end)%action.

(** [s.rsplit("/", 2)[0]]: [s] without its last two [/]-separated parts. *)
Fixpoint cut_last (s : string) : option string :=
  match s with
  | EmptyString => None
  | String c r =>
      match cut_last r with
      | Some p => Some (String c p)
      | None => if Ascii.eqb c "/" then Some "" else None
      end
  end.

Definition rsplit_head (s : string) : string :=
  match cut_last s with
  | None => s
  | Some p =>
      match cut_last p with
      | None => p
      | Some q => q
      end
  end.

(** The request [getRegToken] sends. *)
Definition regToken_request (host tok : string) (secs : Z) (mac : string)
  : Request :=
  {| req_method := "POST";
     req_url := host +:+ "/endpoints";
     req_headers :=
       <["LockAndKey" :=
           "appId=msmsgs@msnmsgr.com; time=" +:+ str_of_int secs
           +:+ "; lockAndKeyResponse=" +:+ mac]>
         (<["Authentication" := "skypetoken=" +:+ tok]> ∅);
     req_params := None;
     req_data := None;
     req_json := Some (JObj []) |}.

(** The body of [getRegToken]; [self_getRegToken] is the call
    [self.getRegToken()] it makes after a redirect. *)
Definition getRegToken_body (self_getRegToken : action unit) : action unit :=
  (enter m_getRegToken ;;;
   s <- get_state ;;
   let secs := now s in
   host <- lift (attr (msgsHost s)) ;;
   mac <- lift (getMac256Hash (str_of_int secs) "msmsgs@msnmsgr.com"
                  "Q1P7W2E4J9R8U3S5") ;;
   tok <- lift (dict_get (tokens s) "skype") ;;
   let req := regToken_request host tok secs mac in
   endpointResp <-
     __call__ (req_method req) (req_url req) [201; 301]%Z None
       (Headers (req_headers req)) None None (req_json req) ;;
   loc <- lift (dict_get (resp_headers endpointResp) "Location") ;;
   let location := rsplit_head loc in
   regTokenHead <-
     lift (dict_get (resp_headers endpointResp) "Set-RegistrationToken") ;;
   s <- get_state ;;
   host <- lift (attr (msgsHost s)) ;;
   if negb (String.eqb location host) then
     modify (with_msgsHost (Some location)) ;;;
     self_getRegToken
   else
     modify (fun s => with_tokens (<["reg" := regTokenHead]> (tokens s)) s))%action.

(** [getRegToken] calls itself after a redirect.  [depth] bounds the nesting
    of the calls; [getRegToken] starts with a bound that is never reached,
    since every nested call follows an answer taken from the network
    script. *)
Fixpoint getRegToken_rec (depth : nat) : action unit :=
  match depth with
  | O => raise RecursionError
  | S depth' => getRegToken_body (getRegToken_rec depth')
  end.

Definition getRegToken : action unit :=
  fun s => getRegToken_rec (S (length (net s))) s.

Definition makeEndpoint : action unit :=
  (enter m_makeEndpoint ;;;
   s <- get_state ;;
   host <- lift (attr (msgsHost s)) ;;
   endResp <- __call__ "POST" (host +:+ "/endpoints") default_codes
                (Some Auth_Reg) HeadersDefault None None (Some (JObj [])) ;;
   loc <- lift (dict_get (resp_headers endResp) "Location") ;;
   modify (with_msgsEndpoint (Some loc)) ;;;
   _ <- __call__ "PUT" (loc +:+ "/presenceDocs/messagingService")
          default_codes (Some Auth_Reg) HeadersDefault None None
          (Some (JObj
             [("id", JStr "messagingService");
              ("privateInfo", JObj [("epname", JStr "skype")]);
              ("publicInfo",
               JObj [("capabilities", JStr "");
                     ("nodeInfo", JStr "xx");
                     ("skypeNameVersion", JStr "skype.com");
                     ("type", JNum 1)]);
              ("selfLink", JStr "uri");
              ("type", JStr "EndpointPresenceDoc")])) ;;
   ret tt)%action.

Definition subscribe : action unit :=
  (enter m_subscribe ;;;
   s <- get_state ;;
   host <- lift (attr (msgsHost s)) ;;
   _ <- __call__ "POST" (host +:+ "/endpoints/SELF/subscriptions")
          default_codes (Some Auth_Reg) HeadersDefault None None
          (Some (JObj
             [("interestedResources",
               JList [JStr "/v1/threads/ALL";
                      JStr "/v1/users/ME/contacts/ALL";
                      JStr "/v1/users/ME/conversations/ALL/messages";
                      JStr "/v1/users/ME/conversations/ALL/properties"]);
              ("template", JStr "raw");
              ("channelType", JStr "httpLongPoll")])) ;;
   ret tt)%action.

(** [if tokenFile]: a path that is given and not empty. *)
Definition truthy_path (tokenFile : option string) : option string :=
  match tokenFile with
  | Some EmptyString => None
  | other => other
  end.

(** [datetime.datetime.now()], to the second *)
Definition datetime_now (s : state) : result Z :=
  fromtimestamp (timezone s) (now s).

(** [datetime.datetime.fromtimestamp(int(skypeExpiry))] *)
Definition read_expiry (z : zone) (skypeExpiry : string) : result Z :=
  (t <- int_str skypeExpiry ;; fromtimestamp z t)%py.

(** The block [if tokenFile and os.path.isfile(tokenFile)] of [__init__]:
    take the session token from the token file when the local time has not
    reached its expiry. *)
Definition load_cache (tokenFile : option string) : action unit :=
  (s <- get_state ;;
   match truthy_path tokenFile with
   | Some path =>
       match fs s !! path with
       | Some lines =>
           match lines with
           | [skypeToken; skypeExpiry; msgsHost] =>
               skypeExpiry <- lift (read_expiry (timezone s) skypeExpiry) ;;
               now_ <- lift (datetime_now s) ;;
               if (now_ <? skypeExpiry)%Z then
                 modify (fun s =>
                   with_tokens (<["skype" := skypeToken]> (tokens s)) s) ;;;
                 modify (fun s =>
                   with_tokenExpiry
                     (<["skype" := skypeExpiry]> (tokenExpiry s)) s) ;;;
                 modify (with_msgsHost (Some msgsHost))
               else ret tt
           | _ => raise ValueError
           end
       | None => ret tt
       end
   | None => ret tt
   end)%action.

(** [f.write(line + "\n")] on the file opened at [path] *)
Definition write_line (path line : string) : action unit :=
  modify (fun s =>
    with_fs (<[path := default [] (fs s !! path) ++ [line]]> (fs s)) s).

(** The block [if not self.tokens] of [__init__]: log in and write the
    token file.  The file is emptied when it is opened, and what has been
    written stays when a later line raises. *)
Definition login_if_needed (user pwd tokenFile : option string)
  : action unit :=
  (s <- get_state ;;
   if bool_decide (tokens s = ∅) then
     login user pwd ;;;
     modify (with_msgsHost (Some API_MSGSHOST)) ;;;
     match truthy_path tokenFile with
     | Some path =>
         modify (fun s => with_fs (<[path := []]> (fs s)) s) ;;;
         s <- get_state ;;
         tok <- lift (dict_get (tokens s) "skype") ;;
         write_line path tok ;;;
         expiry <- lift (dict_get (tokenExpiry s) "skype") ;;
         t <- lift (mktime (timezone s) expiry) ;;
         write_line path (str_of_int t) ;;;
         host <- lift (attr (msgsHost s)) ;;
         write_line path host
     | None => ret tt
     end
   else ret tt)%action.

(** The constructor works on a new object: no attribute is set yet. *)
Definition new_object (s : state) : state :=
  with_msgsEndpoint None (with_msgsHost None s).

Definition __init__ (user pwd tokenFile : option string) : action unit :=
  (modify new_object ;;;
   modify (with_tokens ∅) ;;;
   modify (with_tokenExpiry ∅) ;;;
   load_cache tokenFile ;;;
   login_if_needed user pwd tokenFile ;;;
   getRegToken ;;;
   makeEndpoint ;;;
   subscribe)%action.

(** ** resubscribeOn *)

(** Ghost: the wrapper calls the wrapped function. *)
Definition invoke {A} (func : action A) : action A :=
  (note Invoked ;;; func)%action.

(** [len(e.args) >= 2 and isinstance(e.args[1], requests.Response) and
    e.args[1].status_code in codes] *)
Definition status_in (codes : list Z) (args : list exn_arg) : bool :=
  match args with
  | _ :: ArgResp r :: _ => bool_decide (status_code r ∈ codes)
  | _ => false
  end.

Definition resubscribeOn {A} (codes : list Z) (func : action A) : action A :=
  try_except (invoke func)
    (fun e =>
       match e with
       | SkypeApiException args =>
           if status_in codes args then
             (getRegToken ;;; subscribe ;;; invoke func)%action
           else raise e
       | ConnectionError =>
           (getRegToken ;;; subscribe ;;; invoke func)%action
       | _ => raise e
       end).

(** The padding as the specification words it: the fewest ['0'] characters
    that bring the length of [challenge + appId] to a multiple of 8. *)
Definition spec_clearText (challenge appId : string) : string :=
  let clearText := challenge +:+ appId in
  clearText +:+ str_mul "0" ((8 - String.length clearText mod 8) mod 8).

(** Every character of a string satisfies a boolean test. *)
Fixpoint str_all (P : ascii -> bool) (s : string) : bool :=
  match s with
  | EmptyString => true
  | String c s' => P c && str_all P s'
  end.

(** Strings of binary digits, as [int64Xor] builds and reads them. *)
Definition is_bit (c : ascii) : bool := Ascii.eqb c "0" || Ascii.eqb c "1".
Definition bit_of (c : ascii) : bool := Ascii.eqb c "1".

(** Character-wise comparison of two strings: ['0'] where they agree. *)
Fixpoint xor_str (sA sB : string) : string :=
  match sA, sB with
  | String a sA', String b sB' =>
      String (if Ascii.eqb a b then "0" else "1")%char (xor_str sA' sB')
  | _, _ => ""
  end.

(** Value of a binary digit string read after the digits of [acc]. *)
Fixpoint bin_val (acc : Z) (s : string) : Z :=
  match s with
  | EmptyString => acc
  | String c s' => bin_val (acc * 2 + Z.b2z (bit_of c)) s'
  end.

(** The two digit strings after the shorter one is padded on the left. *)
Definition xor_operands (a b : Z) : string * string :=
  let sA := format_b a in
  let sB := format_b b in
  let diff :=
    Z.to_nat (Z.abs (Z.of_nat (String.length sA) - Z.of_nat (String.length sB))) in
  if (String.length sA <? String.length sB)%nat
  then (str_mul "0" diff +:+ sA, sB)
  else if (String.length sB <? String.length sA)%nat
  then (sA, str_mul "0" diff +:+ sB)
  else (sA, sB).

(** A lowercase hexadecimal digit: [0-9] or [a-f]. *)
Definition is_lower_hex (c : ascii) : bool :=
  let n := N_of_ascii c in
  ((48 <=? n) && (n <=? 57))%N || ((97 <=? n) && (n <=? 102))%N.

(** The little-endian packing of characters [4i .. 4i+3] of a text, the
    first of them in the least significant byte. *)
Definition le_word (s : string) (i : nat) : result Z :=
  (c0 <- str_index s (4 * i) ;;
   c1 <- str_index s (4 * i + 1) ;;
   c2 <- str_index s (4 * i + 2) ;;
   c3 <- str_index s (4 * i + 3) ;;
   Ok (ord c0 + ord c1 * 256 + ord c2 * 256 ^ 2 + ord c3 * 256 ^ 3)%Z)%py.

(** The little-endian word spelled by the hexadecimal characters
    [8i .. 8i+7] of a digest text, two characters per byte, the first pair
    in the least significant byte. *)
Definition le_hex_word (hash : string) (i : nat) : result Z :=
  (b0 <- int_base (str_slice hash (8 * i) (8 * i + 2)) 16 ;;
   b1 <- int_base (str_slice hash (8 * i + 2) (8 * i + 4)) 16 ;;
   b2 <- int_base (str_slice hash (8 * i + 4) (8 * i + 6)) 16 ;;
   b3 <- int_base (str_slice hash (8 * i + 6) (8 * i + 8)) 16 ;;
   Ok (b0 + b1 * 256 + b2 * 256 ^ 2 + b3 * 256 ^ 3)%Z)%py.

(** The token that [auth] asks for is in [self.tokens]. *)
Definition auth_token_present (auth : option Z) (s : state) : Prop :=
  (auth = Some Auth_Skype -> is_Some (tokens s !! "skype"))
  /\ (auth = Some Auth_Reg -> is_Some (tokens s !! "reg")).

(** The challenge response [getRegToken] puts in its [LockAndKey] header. *)
Definition regToken_mac (secs : Z) : result string :=
  getMac256Hash (str_of_int secs) "msmsgs@msnmsgr.com" "Q1P7W2E4J9R8U3S5".

(** ** Vocabulary of the session properties *)

(** An action keeps a property of the state, whatever it returns. *)
Definition preserves (I : state -> Prop) {A} (m : action A) : Prop :=
  forall s, I s -> I (snd (m s)).

(** A property of the state that sending requests cannot break: it survives
    the trace entries for requests, the passing of time and the use of the
    network, and the assignment to the default headers. *)
Record io_stable (I : state -> Prop) : Prop := {
  stable_sent : forall s r,
    I s -> I (with_history (history s ++ [Sent r]) s);
  stable_world : forall s t n, I s -> I (with_net n (with_now t s));
  stable_default_headers : forall s h, I s -> I (with_default_headers h s)
}.

(** A property that no step of a connected session can break: it also
    survives the trace entries for method entries and the assignments the
    connection makes to its host, its endpoint and its registration token. *)
Record stable (I : state -> Prop) : Prop := {
  stable_io : io_stable I;
  stable_entered : forall s m,
    I s ->
    I (with_history
         (history s ++ [Entered m (tokens s) (tokenExpiry s) (now s)]) s);
  stable_msgsHost : forall s v, I s -> I (with_msgsHost v s);
  stable_msgsEndpoint : forall s v, I s -> I (with_msgsEndpoint v s);
  stable_reg : forall s v,
    I s -> I (with_tokens (<["reg" := v]> (tokens s)) s)
}.

Definition is_Sent (e : event) : Prop :=
  match e with
  | Sent _ => True
  | _ => False
  end.

(** Code of a client of the connection: it leaves the tokens of the
    connection alone, and what it adds to the trace are requests. *)
Definition client_code {A} (func : action A) : Prop :=
  forall s,
    tokens (snd (func s)) = tokens s
    /\ tokenExpiry (snd (func s)) = tokenExpiry s
    /\ exists evs, history (snd (func s)) = history s ++ evs
                   /\ Forall is_Sent evs.

(** The exceptions after which [resubscribeOn] resubscribes. *)
Definition triggers (codes : list Z) (e : exn) : bool :=
  match e with
  | SkypeApiException args => status_in codes args
  | ConnectionError => true
  | _ => false
  end.

(** How often the wrapper has called the wrapped function. *)
Fixpoint count_invoked (h : list event) : nat :=
  match h with
  | [] => 0
  | Invoked :: h' => S (count_invoked h')
  | _ :: h' => count_invoked h'
  end.

(** ** Sample answers and states, for closed instances of the theorems *)

(** The zone UTC as CPython shows it on 64-bit Linux: local time is the
    timestamp, from 0001-01-02 to the end of the year 9999. *)
Definition utc : zone :=
  {| tz_descriptor := "+00|0";
     tz_localtime := fun t =>
       if ((-62135510400 <=? t) && (253402300799 >=? t))%Z then inr t
       else if ((-67768040609740800 <=? t) && (67768036191676799 >=? t))%Z
       then inl YearOutOfRange
       else if ((- 2 ^ 63 <=? t) && (2 ^ 63 >? t))%Z then inl LocaltimeFailed
       else inl TimeOverflow;
     tz_mktime := fun wall =>
       if ((-62135596800 <=? wall) && (253402300799 >=? wall))%Z
       then Some wall else None |}.

Definition blank_page : Page :=
  {| has_recaptcha := false; pie := None; etm := None; errors := [];
     skypetoken := None; expires_in := None |}.

(** An answer with the two headers [getRegToken] reads. *)
Definition answer (status : Z) (location regToken : string) : Response :=
  {| status_code := status;
     resp_headers :=
       <["Location" := location]> (<["Set-RegistrationToken" := regToken]> ∅);
     text := blank_page |}.

(** A connection that holds both tokens, on the default host, at Unix time
    1446654000, facing the given network script. *)
Definition connected (script : list (Z * net_outcome)) : state :=
  {| tokens := <["skype" := "skypetoken-1"]> (<["reg" := "regtoken-1"]> ∅);
     tokenExpiry := <["skype" := 1446740400%Z]> ∅;
     msgsHost := Some API_MSGSHOST;
     msgsEndpoint := None;
     default_headers := ∅;
     now := 1446654000;
     net := script;
     fs := ∅;
     timezone := utc;
     history := [] |}.

(** One redirect hop: the first answer names another host, the second
    answer, from that host, names the same one. *)
Definition redirect_host : string :=
  "https://db3-client-s.gateway.messenger.live.com/v1/users/ME".

Definition redirect_script : list (Z * net_outcome) :=
  [(1, Responds (answer 301 (redirect_host +:+ "/endpoints/ep1")
                   "registrationToken=r0"));
   (1, Responds (answer 201 (redirect_host +:+ "/endpoints/ep1")
                   "registrationToken=r1"))]%Z.

(** A wrapped operation of a client: one [GET] under [Auth.Reg]. *)
Definition get_conversations : action Response :=
  __call__ "GET" (API_MSGSHOST +:+ "/conversations") default_codes
    (Some Auth_Reg) HeadersDefault None None None.

(** ** Runs of a session *)

(** The three steps that need the session token. *)
Definition is_step (m : method_name) : bool :=
  match m with
  | m_login => false
  | _ => true
  end.

(** At the entry of a step the connection holds a session token and its
    expiry. *)
Definition holds_token (e : event) : Prop :=
  match e with
  | Entered m toks expiry _ =>
      is_step m = true ->
      is_Some (toks !! "skype") /\ is_Some (expiry !! "skype")
  | _ => True
  end.

(** At the entry of a step the session token expires strictly later: the
    test the constructor makes on a token file, [datetime.now() < expiry],
    would accept it. *)
Definition token_fresh (z : zone) (e : event) : Prop :=
  match e with
  | Entered m toks expiry t =>
      is_step m = true ->
      is_Some (toks !! "skype")
      /\ exists x wall, expiry !! "skype" = Some x
                        /\ fromtimestamp z t = Ok wall /\ (wall < x)%Z
  | _ => True
  end.

(** A step entered when the local time has reached the recorded expiry. *)
Definition token_stale (z : zone) (e : event) : bool :=
  match e with
  | Entered m toks expiry t =>
      is_step m
      && match expiry !! "skype", fromtimestamp z t with
         | Some x, Ok wall => (x <=? wall)%Z
         | _, _ => false
         end
  | _ => false
  end.

(** A call of a client: an operation wrapped by the decorator
    [resubscribeOn] with the given codes. *)
Inductive client_call :=
| Wrapped (A : Type) (codes : list Z) (func : action A).

Definition client_call_ok (c : client_call) : Prop :=
  match c with
  | Wrapped _ _ func => client_code func
  end.

(** The calls follow one another; the caller goes on after an exception. *)
Fixpoint run_calls (calls : list client_call) (s : state) : state :=
  match calls with
  | [] => s
  | Wrapped _ codes func :: calls' =>
      run_calls calls' (snd (resubscribeOn codes func s))
  end.

(** A session: the connection is constructed, then used for the calls.
    When the constructor raises there is no connection to call. *)
Definition session (user pwd tokenFile : option string)
  (calls : list client_call) (s : state) : state :=
  match __init__ user pwd tokenFile s with
  | (Ok _, s1) => run_calls calls s1
  | (Raise _, s1) => s1
  end.

(** The connection holds a session token and its expiry. *)
Definition has_skype (s : state) : Prop :=
  is_Some (tokens s !! "skype") /\ is_Some (tokenExpiry s !! "skype").

(** Every step in the trace was entered with a session token. *)
Definition steps_hold_token (s : state) : Prop :=
  Forall holds_token (history s).

(** The trace starts with [h0]. *)
Definition extends (h0 : list event) (s : state) : Prop :=
  exists evs, history s = h0 ++ evs.

(** When the action returns, the state satisfies [Q]. *)
Definition ensures (Q : state -> Prop) {A} (m : action A) : Prop :=
  forall s a s', m s = (Ok a, s') -> Q s'.

(** A fresh process with a token file that expires 100 seconds later. *)
Definition cached_start (script : list (Z * net_outcome)) : state :=
  {| tokens := ∅;
     tokenExpiry := ∅;
     msgsHost := None;
     msgsEndpoint := None;
     default_headers := ∅;
     now := 1446654000;
     net := script;
     fs := <["tokens.txt" :=
               ["skypetoken-1"; "1446654100"; API_MSGSHOST]]> ∅;
     timezone := utc;
     history := [] |}.

(** Construction from the token file, then one wrapped call whose first
    answer, a 404, arrives 200 seconds later; the resubscription and the
    second call are answered. *)
Definition late_404_script : list (Z * net_outcome) :=
  [(1, Responds (answer 201 (API_MSGSHOST +:+ "/endpoints/ep1")
                   "registrationToken=r1"));
   (1, Responds (answer 201 (API_MSGSHOST +:+ "/endpoints/ep1") ""));
   (1, Responds (answer 200 "" ""));
   (1, Responds (answer 201 "" ""));
   (200, Responds (answer 404 "" ""));
   (1, Responds (answer 201 (API_MSGSHOST +:+ "/endpoints/ep1")
                   "registrationToken=r2"));
   (1, Responds (answer 201 "" ""));
   (1, Responds (answer 200 "" ""))]%Z.

(** ** Vocabulary and samples of the further properties *)

(** A string without [/]: one part of a path. *)
Definition no_slash (s : string) : Prop :=
  str_all (fun c => negb (Ascii.eqb c "/")) s = true.

(** The login form page, a page that answers the login, and an accepted
    answer that carries a page. *)
Definition form_page : Page :=
  {| has_recaptcha := false; pie := Some "pie-1"; etm := Some "etm-1";
     errors := []; skypetoken := None; expires_in := None |}.

Definition token_page (tok : option string) (ttl : option Z) : Page :=
  {| has_recaptcha := false; pie := None; etm := None; errors := [];
     skypetoken := tok; expires_in := ttl |}.

Definition page_answer (p : Page) : Response :=
  {| status_code := 200; resp_headers := ∅; text := p |}.

(** A fresh process: no connection attribute is set, no file exists. *)
Definition fresh_start (script : list (Z * net_outcome)) : state :=
  {| tokens := ∅;
     tokenExpiry := ∅;
     msgsHost := None;
     msgsEndpoint := None;
     default_headers := ∅;
     now := 1446654000;
     net := script;
     fs := ∅;
     timezone := utc;
     history := [] |}.

(** * Auxiliary lemmas *)

(** ** hashlib.sha256 on known digests *)

Example sha256_round_constants :
  length SHA256.K = 64
  /\ SHA256.K !! 0 = Some 0x428a2f98%Z /\ SHA256.K !! 63 = Some 0xc67178f2%Z
  /\ SHA256.ha SHA256.init = 0x6a09e667%Z
  /\ SHA256.hh SHA256.init = 0x5be0cd19%Z.
Proof. vm_compute. repeat split. Qed.

Example sha256_empty :
  SHA256.hexdigest (encode_utf8 "")
  = "e3b0c44298fc1c149afbf4c8996fb92427ae41e4649b934ca495991b7852b855".
Proof. vm_compute. reflexivity. Qed.

Example sha256_abc :
  SHA256.hexdigest (encode_utf8 "abc")
  = "ba7816bf8f01cfea414140de5dae2223b00361a396177a9cb410ff61f20015ad".
Proof. vm_compute. reflexivity. Qed.

Example sha256_two_blocks :
  SHA256.hexdigest (encode_utf8 (str_mul "a" 120))
  = "2f3d335432c70b580af0e8e1b3674a7c020d683aa5f73aaaedfdc55af904c21c".
Proof. vm_compute. reflexivity. Qed.

Example sha256_utf8 :
  SHA256.hexdigest (encode_utf8 (String (ascii_of_nat 233) ""))
  = "4a99557e4033c3539de2eb65472017cad5f9557f7a0625a09f1c3f6e2ba69c4c".
Proof. vm_compute. reflexivity. Qed.


(** ** Loops *)

Lemma for_each_ext {S X} (xs : list X) (f g : X -> S -> result S) s :
  (forall x s', In x xs -> f x s' = g x s') ->
  for_each xs f s = for_each xs g s.
Proof.
  revert s. induction xs as [|x xs IH]; intros s Hfg; simpl; [reflexivity|].
  rewrite Hfg by (left; reflexivity).
  destruct (g x s); [|reflexivity].
  apply IH. intros y s' Hy. apply Hfg. right. exact Hy.
Qed.

Lemma for_each_seq_shift {S} (body : nat -> S -> result S) k n s :
  for_each (seq (Datatypes.S k) n) body s
  = for_each (seq k n) (fun i => body (Datatypes.S i)) s.
Proof.
  revert k s. induction n as [|n IH]; intros k s; simpl; [reflexivity|].
  destruct (body (Datatypes.S k) s); [apply IH | reflexivity].
Qed.

(** A loop over [range n] whose body preserves an invariant indexed by the
    iteration number runs to the end. *)
Lemma for_range_inv {S} (Inv : nat -> S -> Prop) n
  (body : nat -> S -> result S) s0 :
  Inv 0 s0 ->
  (forall i s, i < n -> Inv i s ->
     exists s', body i s = Ok s' /\ Inv (Datatypes.S i) s') ->
  exists s', for_each (range n) body s0 = Ok s' /\ Inv n s'.
Proof.
  unfold range. intros H0 Hstep.
  assert (G : forall m k s, k + m = n -> Inv k s ->
            exists s', for_each (seq k m) body s = Ok s' /\ Inv n s').
  { induction m as [|m IH]; intros k s Hk Hs; simpl.
    - exists s. split; [reflexivity|]. replace n with k by lia. exact Hs.
    - destruct (Hstep k s) as (s' & Hb & Hs'); [lia | exact Hs |].
      rewrite Hb. apply IH; [lia | exact Hs']. }
  apply (G n 0 s0); [lia | exact H0].
Qed.

(** ** Strings *)

Lemma append_nil (b : string) : "" +:+ b = b.
Proof. reflexivity. Qed.

Lemma append_cons c (a b : string) : String c a +:+ b = String c (a +:+ b).
Proof. reflexivity. Qed.

Lemma length_append (a b : string) :
  String.length (a +:+ b) = String.length a + String.length b.
Proof.
  induction a as [|c a IH]; [reflexivity|].
  rewrite append_cons. simpl. now rewrite IH.
Qed.

Lemma length_str_mul c n : String.length (str_mul c n) = n.
Proof. induction n as [|n IH]; simpl; [reflexivity | now rewrite IH]. Qed.

Lemma append_empty_r (a : string) : a +:+ "" = a.
Proof.
  induction a as [|c a IH]; [reflexivity|].
  rewrite append_cons. now rewrite IH.
Qed.

Lemma append_assoc (a b c : string) : (a +:+ b) +:+ c = a +:+ (b +:+ c).
Proof.
  induction a as [|x a IH]; [reflexivity|].
  rewrite !append_cons. now rewrite IH.
Qed.

Lemma str_all_append P a b :
  str_all P (a +:+ b) = str_all P a && str_all P b.
Proof.
  induction a as [|c a IH]; [reflexivity|].
  rewrite append_cons. simpl. now rewrite IH, andb_assoc.
Qed.

(** ** int64Xor *)

Lemma zero_loop d s k :
  for_each (seq k d) (fun _ sD => Ok (sD +:+ "0")) s
  = Ok (s +:+ str_mul "0" d).
Proof.
  revert s k. induction d as [|d IH]; intros s k; simpl.
  - now rewrite append_empty_r.
  - rewrite IH, append_assoc. reflexivity.
Qed.

Lemma xor_loop sA sB acc :
  String.length sA = String.length sB ->
  for_each (range (String.length sA)) (fun i sC =>
    (ca <- str_index sA i ;;
     cb <- str_index sB i ;;
     Ok (sC +:+ (if Ascii.eqb ca cb then "0" else "1")))%py) acc
  = Ok (acc +:+ xor_str sA sB).
Proof.
  unfold range. revert sB acc.
  induction sA as [|a sA IH]; intros [|b sB] acc Hlen; simpl in Hlen;
    try discriminate.
  - simpl. now rewrite append_empty_r.
  - injection Hlen as Hlen. cbn [String.length seq for_each].
    cbn [str_index String.get rbind].
    rewrite for_each_seq_shift.
    erewrite for_each_ext.
    + rewrite (IH sB _ Hlen). rewrite append_assoc. cbn [xor_str].
      destruct (Ascii.eqb a b); reflexivity.
    + intros i s' _. reflexivity.
Qed.

Lemma is_bit_cases c : is_bit c = true -> c = "0"%char \/ c = "1"%char.
Proof.
  unfold is_bit. intros H. apply orb_true_iff in H.
  destruct H as [H|H]; apply Ascii.eqb_eq in H; auto.
Qed.

Lemma int_digits_bits s acc :
  str_all is_bit s = true -> int_digits 2 acc s = Ok (bin_val acc s).
Proof.
  revert acc. induction s as [|c s IH]; intros acc H; simpl in *.
  - reflexivity.
  - apply andb_true_iff in H. destruct H as [Hc Hs].
    destruct (is_bit_cases c Hc) as [-> | ->].
    + change (digit_value "0") with (Some 0%Z).
      change (0 <? 2)%Z with true. cbv iota. now apply IH.
    + change (digit_value "1") with (Some 1%Z).
      change (1 <? 2)%Z with true. cbv iota. now apply IH.
Qed.

Lemma xor_str_bits sA sB : str_all is_bit (xor_str sA sB) = true.
Proof.
  revert sB. induction sA as [|a sA IH]; intros [|b sB]; simpl; auto.
  rewrite IH. destruct (Ascii.eqb a b); reflexivity.
Qed.

Lemma lxor_double_bit a a' (b b' : bool) :
  Z.lxor (a * 2 + Z.b2z b) (a' * 2 + Z.b2z b')
  = (Z.lxor a a' * 2 + Z.b2z (xorb b b'))%Z.
Proof.
  apply Z.bits_inj'. intros n Hn.
  rewrite Z.lxor_spec.
  rewrite !(Z.mul_comm _ 2).
  destruct (Z.eq_dec n 0%Z) as [->|Hne].
  - rewrite !Z.testbit_0_r. reflexivity.
  - replace n with (Z.succ (n - 1))%Z by lia.
    rewrite !Z.testbit_succ_r by lia. now rewrite Z.lxor_spec.
Qed.

Lemma bit_of_xor a b :
  is_bit a = true -> is_bit b = true ->
  bit_of (if Ascii.eqb a b then "0" else "1")%char = xorb (bit_of a) (bit_of b).
Proof.
  intros Ha Hb.
  destruct (is_bit_cases a Ha) as [-> | ->],
           (is_bit_cases b Hb) as [-> | ->]; reflexivity.
Qed.

Lemma bin_val_xor x y ax ay :
  str_all is_bit x = true -> str_all is_bit y = true ->
  String.length x = String.length y ->
  bin_val (Z.lxor ax ay) (xor_str x y) = Z.lxor (bin_val ax x) (bin_val ay y).
Proof.
  revert y ax ay. induction x as [|a x IH]; intros [|b y] ax ay Hx Hy Hlen;
    simpl in *; try discriminate; [reflexivity|].
  apply andb_true_iff in Hx, Hy. destruct Hx as [Ha Hx], Hy as [Hb Hy].
  rewrite bit_of_xor by assumption.
  rewrite <- lxor_double_bit. apply IH; auto.
Qed.

Lemma bin_val_append acc s t :
  bin_val acc (s +:+ t) = bin_val (bin_val acc s) t.
Proof.
  revert acc. induction s as [|c s IH]; intros acc; [reflexivity|].
  rewrite append_cons. simpl. apply IH.
Qed.

Lemma bin_pos_bits p : str_all is_bit (bin_pos p) = true.
Proof.
  induction p as [p IH|p IH|]; simpl; [| |reflexivity];
    rewrite str_all_append, IH; reflexivity.
Qed.

Lemma bin_pos_val p : bin_val 0 (bin_pos p) = Z.pos p.
Proof.
  induction p as [p IH|p IH|]; simpl; [| |reflexivity];
    rewrite bin_val_append, IH; simpl; unfold bit_of; simpl; lia.
Qed.

Lemma bin_pos_length p : 0 < String.length (bin_pos p).
Proof.
  destruct p; simpl; try rewrite length_append; simpl; lia.
Qed.

Lemma format_b_bits n : (0 <= n)%Z -> str_all is_bit (format_b n) = true.
Proof.
  destruct n as [|p|p]; intros H; [reflexivity | apply bin_pos_bits | lia].
Qed.

Lemma format_b_val n : (0 <= n)%Z -> bin_val 0 (format_b n) = n.
Proof.
  destruct n as [|p|p]; intros H; [reflexivity | apply bin_pos_val | lia].
Qed.

Lemma format_b_length n : 0 < String.length (format_b n).
Proof.
  destruct n as [|p|p]; cbn [format_b];
    [simpl; lia | apply bin_pos_length |].
  rewrite length_append. simpl. lia.
Qed.

Lemma zeros_bits d : str_all is_bit (str_mul "0" d) = true.
Proof. induction d as [|d IH]; simpl; auto. Qed.

Lemma zeros_val d : bin_val 0 (str_mul "0" d) = 0%Z.
Proof. induction d as [|d IH]; simpl; auto. Qed.

Lemma xor_str_length x y :
  String.length x = String.length y ->
  String.length (xor_str x y) = String.length x.
Proof.
  revert y. induction x as [|a x IH]; intros [|b y] H; simpl in *;
    try discriminate; [reflexivity|].
  injection H as H. now rewrite IH.
Qed.

(** The tail of [int64Xor]: once both digit strings have the same length,
    the comparison loop followed by [int(sC, 2)] cannot raise. *)
Lemma xor_tail sA sB :
  String.length sA = String.length sB -> 0 < String.length sA ->
  (sC <- for_each (range (String.length sA)) (fun i sC =>
           ca <- str_index sA i ;;
           cb <- str_index sB i ;;
           Ok (sC +:+ (if Ascii.eqb ca cb then "0" else "1"))) "" ;;
   int_base sC 2)%py = Ok (bin_val 0 (xor_str sA sB)).
Proof.
  intros Hlen Hpos. rewrite xor_loop by exact Hlen.
  rewrite append_nil. cbn [rbind].
  pose proof (xor_str_length sA sB Hlen) as HL.
  unfold int_base. destruct (xor_str sA sB) as [|c r] eqn:E.
  - simpl in HL. lia.
  - rewrite <- E. apply int_digits_bits, xor_str_bits.
Qed.

Lemma xor_operands_length a b :
  String.length (fst (xor_operands a b)) = String.length (snd (xor_operands a b))
  /\ 0 < String.length (fst (xor_operands a b)).
Proof.
  unfold xor_operands.
  pose proof (format_b_length a). pose proof (format_b_length b).
  destruct (Nat.ltb_spec (String.length (format_b a)) (String.length (format_b b)));
    [|destruct (Nat.ltb_spec (String.length (format_b b)) (String.length (format_b a)))];
    cbn [fst snd]; rewrite ?length_append, ?length_str_mul; lia.
Qed.

Lemma int64Xor_unfold a b :
  int64Xor a b
  = Ok (bin_val 0 (xor_str (fst (xor_operands a b)) (snd (xor_operands a b)))).
Proof.
  destruct (xor_operands_length a b) as [Hlen Hpos].
  rewrite <- (xor_tail _ _ Hlen Hpos).
  unfold int64Xor, xor_operands, range. rewrite zero_loop, append_nil.
  cbn [rbind].
  destruct (String.length (format_b a) <? String.length (format_b b))%nat;
    [reflexivity|].
  destruct (String.length (format_b b) <? String.length (format_b a))%nat;
    reflexivity.
Qed.

(** ** int32ToHexString *)

Lemma land_15_range x : (0 <= Z.land x 15 < 16)%Z.
Proof.
  change 15%Z with (Z.ones 4). rewrite Z.land_ones by lia.
  apply Z.mod_pos_bound. lia.
Qed.

Lemma hexChars_index k :
  (0 <= k < 16)%Z ->
  exists c, str_index_Z hexChars k = Ok c /\ is_lower_hex c = true.
Proof.
  intros H.
  assert (E : (k = 0 \/ k = 1 \/ k = 2 \/ k = 3 \/ k = 4 \/ k = 5 \/ k = 6
               \/ k = 7 \/ k = 8 \/ k = 9 \/ k = 10 \/ k = 11 \/ k = 12
               \/ k = 13 \/ k = 14 \/ k = 15)%Z) by lia.
  repeat (destruct E as [-> | E]; [eexists; split; reflexivity|]).
  subst k. eexists; split; reflexivity.
Qed.

Lemma str_push_length s c : String.length (str_push s c) = S (String.length s).
Proof. unfold str_push. rewrite length_append. simpl. lia. Qed.

Lemma str_push_all P s c :
  str_all P s = true -> P c = true -> str_all P (str_push s c) = true.
Proof.
  intros Hs Hc. unfold str_push. rewrite str_all_append, Hs. simpl.
  now rewrite Hc.
Qed.

Lemma int32ToHexString_ok n :
  exists s, int32ToHexString n = Ok s
            /\ String.length s = 8 /\ str_all is_lower_hex s = true.
Proof.
  unfold int32ToHexString.
  destruct (for_range_inv
              (fun i s => String.length s = 2 * i
                          /\ str_all is_lower_hex s = true) 4
              (fun i hexString =>
                 (c1 <- str_index_Z hexChars
                          (Z.land (Z.shiftr n (Z.of_nat i * 8 + 4)) 15) ;;
                  let hexString := str_push hexString c1 in
                  c2 <- str_index_Z hexChars
                          (Z.land (Z.shiftr n (Z.of_nat i * 8)) 15) ;;
                  let hexString := str_push hexString c2 in
                  Ok hexString)%py) "") as (s & Hs & Hlen & Hall).
  - split; reflexivity.
  - intros i s _ [Hl Ha].
    destruct (hexChars_index _ (land_15_range (Z.shiftr n (Z.of_nat i * 8 + 4))))
      as (c1 & -> & H1).
    destruct (hexChars_index _ (land_15_range (Z.shiftr n (Z.of_nat i * 8))))
      as (c2 & -> & H2).
    cbn [rbind]. eexists. split; [reflexivity|]. split.
    + rewrite !str_push_length. lia.
    + auto using str_push_all.
  - exists s. auto.
Qed.

(** ** The word sequence [pClearText] *)

Lemma list_index_snoc {A} (l : list A) x i :
  length l = i -> list_index (l ++ [x]) i = Ok x.
Proof.
  intros <-. unfold list_index. now rewrite list_lookup_middle.
Qed.

Lemma list_set_snoc {A} (l : list A) x i v :
  length l = i -> list_set (l ++ [x]) i v = Ok (l ++ [v]).
Proof.
  intros <-. unfold list_set. rewrite length_app. simpl.
  destruct (Nat.ltb_spec (length l) (length l + 1)); [|lia].
  f_equal. replace (length l) with (length l + 0) at 1 by lia.
  now rewrite insert_app_r.
Qed.

(** What the loop computes: every word is built from [clearText[0..3]]. *)
Lemma pClearText_of_replicate c0 c1 c2 c3 r :
  let s := String c0 (String c1 (String c2 (String c3 r))) in
  pClearText_of s
  = Ok (replicate (String.length s / 4)
          (ord c0 + ord c1 * 256 + ord c2 * 256 ^ 2 + ord c3 * 256 ^ 3)%Z).
Proof.
  intros s. unfold pClearText_of.
  set (w := (ord c0 + ord c1 * 256 + ord c2 * 256 ^ 2 + ord c3 * 256 ^ 3)%Z).
  match goal with
  | |- for_each (range ?n) ?body [] = _ =>
      destruct (for_range_inv (fun i p => p = replicate i w) n body [])
        as (p & Hp & ->); [reflexivity | | exact Hp]
  end.
  intros i p _ ->.
  rewrite take_replicate, drop_replicate, Nat.min_id, Nat.sub_diag.
  change (replicate 0 w) with (@nil Z). rewrite app_nil_r.
  unfold range. cbn [seq for_each].
  assert (L : length (replicate i w) = i) by apply length_replicate.
  rewrite (list_index_snoc _ _ _ L). cbn [rbind s str_index String.get].
  rewrite (list_set_snoc _ _ _ _ L).
  rewrite (list_index_snoc _ _ _ L). cbn [rbind].
  rewrite (list_set_snoc _ _ _ _ L).
  rewrite (list_index_snoc _ _ _ L). cbn [rbind].
  rewrite (list_set_snoc _ _ _ _ L).
  rewrite (list_index_snoc _ _ _ L). cbn [rbind].
  rewrite (list_set_snoc _ _ _ _ L).
  eexists. split; [reflexivity|].
  rewrite replicate_S_end. f_equal. f_equal. unfold w.
  change (Z.of_nat 0) with 0%Z. change (Z.of_nat 1) with 1%Z.
  change (Z.of_nat 2) with 2%Z. change (Z.of_nat 3) with 3%Z. lia.
Qed.

Lemma pClearText_of_short s :
  String.length s < 4 -> pClearText_of s = Ok [].
Proof.
  intros H. unfold pClearText_of. rewrite Nat.div_small by exact H.
  reflexivity.
Qed.

Lemma pClearText_of_length s :
  exists ws, pClearText_of s = Ok ws /\ length ws = String.length s / 4.
Proof.
  destruct s as [|c0 [|c1 [|c2 [|c3 r]]]];
    try (eexists; split; [apply pClearText_of_short; simpl; lia | reflexivity]).
  eexists. split; [apply pClearText_of_replicate|].
  apply length_replicate.
Qed.

(** ** The seed words [sha256Hash] *)

(** What the loop computes: every seed word is read from [hash[0:8]]. *)
Lemma sha256Hash_of_first_group hash b0 b1 b2 b3 :
  int_base (str_slice hash 0 2) 16 = Ok b0 ->
  int_base (str_slice hash 2 4) 16 = Ok b1 ->
  int_base (str_slice hash 4 6) 16 = Ok b2 ->
  int_base (str_slice hash 6 8) 16 = Ok b3 ->
  sha256Hash_of hash
  = Ok (replicate 4 (b0 + b1 * 256 + b2 * 256 ^ 2 + b3 * 256 ^ 3)%Z).
Proof.
  intros H0 H1 H2 H3. unfold sha256Hash_of, range.
  cbn [length seq for_each Nat.mul Nat.add].
  rewrite H0, H1, H2, H3. simpl.
  change (Z.of_nat 0) with 0%Z. change (Z.of_nat 1) with 1%Z.
  change (Z.of_nat 2) with 2%Z. change (Z.of_nat 3) with 3%Z.
  repeat f_equal; lia.
Qed.

Lemma digit_upper_hex x :
  digit_value (upper_char (SHA256.hex_digit x)) = Some (x mod 16)%Z.
Proof.
  unfold SHA256.hex_digit.
  pose proof (Z.mod_pos_bound x 16 ltac:(lia)) as H.
  set (k := (x mod 16)%Z) in *.
  assert (E : (k = 0 \/ k = 1 \/ k = 2 \/ k = 3 \/ k = 4 \/ k = 5 \/ k = 6
               \/ k = 7 \/ k = 8 \/ k = 9 \/ k = 10 \/ k = 11 \/ k = 12
               \/ k = 13 \/ k = 14 \/ k = 15)%Z) by lia.
  clearbody k.
  repeat (destruct E as [-> | E]; [reflexivity|]).
  subst k. reflexivity.
Qed.

Lemma int_base_hex2 c d u v :
  digit_value c = Some u -> digit_value d = Some v ->
  (0 <= u < 16)%Z -> (0 <= v < 16)%Z ->
  int_base (String c (String d "")) 16 = Ok (u * 16 + v)%Z.
Proof.
  intros Hc Hd Hu Hv. unfold int_base. cbn [int_digits]. rewrite Hc.
  destruct (Z.ltb_spec u 16); [|lia]. rewrite Hd.
  destruct (Z.ltb_spec v 16); [|lia]. f_equal.
Qed.

Lemma int_base_digest_pair x y :
  int_base (String (upper_char (SHA256.hex_digit x))
              (String (upper_char (SHA256.hex_digit y)) "")) 16
  = Ok (x mod 16 * 16 + y mod 16)%Z.
Proof.
  apply int_base_hex2; try apply digit_upper_hex;
    apply Z.mod_pos_bound; lia.
Qed.

Lemma sha256Hash_of_digest challenge key :
  exists w, sha256Hash_of (hash_of challenge key) = Ok (replicate 4 w).
Proof.
  eexists. unfold hash_of, SHA256.hexdigest.
  apply sha256Hash_of_first_group; apply int_base_digest_pair.
Qed.

(** ** The mixing routine [cS64] *)

Lemma land_1_odd n : (Z.land (Z.of_nat n) 1 =? 1)%Z = Nat.odd n.
Proof.
  change 1%Z with (Z.ones 1) at 1. rewrite Z.land_ones by lia.
  change (2 ^ 1)%Z with 2%Z.
  destruct (Nat.odd n) eqn:E.
  - apply Nat.odd_spec in E. destruct E as [m ->].
    apply Z.eqb_eq.
    replace (Z.of_nat (2 * m + 1)) with (1 + Z.of_nat m * 2)%Z by lia.
    now rewrite Z_mod_plus_full.
  - apply Z.eqb_neq. intros H.
    assert (O : Nat.odd n = true).
    { apply Nat.odd_spec. exists (n / 2).
      change 2%Z with (Z.of_nat 2) in H. rewrite <- Nat2Z.inj_mod in H.
      pose proof (Nat.div_mod_eq n 2). lia. }
    congruence.
Qed.

Lemma cS64_guard n :
  ((n <? 2)%nat || (Z.land (Z.of_nat n) 1 =? 1)%Z) = true
  <-> n < 2 \/ Nat.odd n = true.
Proof.
  rewrite land_1_odd, orb_true_iff, Nat.ltb_lt. reflexivity.
Qed.

Lemma cS64_none pdwData pInHash :
  length pdwData < 2 \/ Nat.odd (length pdwData) = true ->
  cS64 pdwData pInHash = Ok None.
Proof.
  intros H. apply cS64_guard in H. unfold cS64. now rewrite H.
Qed.

Lemma cS64_some pdwData h0 h1 h2 h3 :
  2 <= length pdwData -> Nat.odd (length pdwData) = false ->
  exists qwMAC qwSum,
    cS64 pdwData [h0; h1; h2; h3] = Ok (Some [qwMAC; qwSum])
    /\ (0 <= qwMAC < MODULUS)%Z /\ (0 <= qwSum < MODULUS)%Z.
Proof.
  intros Hlen Hodd. unfold cS64.
  assert (G : ((length pdwData <? 2)%nat
               || (Z.land (Z.of_nat (length pdwData)) 1 =? 1)%Z) = false).
  { rewrite land_1_odd, Hodd, orb_false_r. apply Nat.ltb_ge. exact Hlen. }
  rewrite G. cbn [list_index lookup list_lookup rbind].
  match goal with
  | |- context [for_each (range ?n) ?body ?v0] =>
      destruct (for_range_inv (fun i v => pos v = 2 * i) n body v0)
        as (v & -> & _)
  end.
  - reflexivity.
  - intros i v Hi Hv. unfold cS64_body, list_index.
    assert (Hdiv : 2 * (length pdwData / 2) <= length pdwData)
      by apply Nat.Div0.mul_div_le.
    destruct (lookup_lt_is_Some_2 pdwData (pos v)) as [d ->]; [lia|].
    cbn [rbind].
    destruct (lookup_lt_is_Some_2 pdwData (pos v + 1)) as [d' ->]; [lia|].
    cbn [rbind]. eexists. split; [reflexivity|]. cbn [pos]. lia.
  - cbn [rbind]. eexists _, _. split; [reflexivity|].
    split; apply Z.mod_pos_bound; reflexivity.
Qed.

Lemma cS64_none_iff pdwData h0 h1 h2 h3 :
  cS64 pdwData [h0; h1; h2; h3] = Ok None
  <-> length pdwData < 2 \/ Nat.odd (length pdwData) = true.
Proof.
  split; [|apply cS64_none].
  intros H.
  destruct (Nat.lt_ge_cases (length pdwData) 2) as [|Hge]; [now left|].
  destruct (Nat.odd (length pdwData)) eqn:E; [now right|].
  destruct (cS64_some pdwData h0 h1 h2 h3 Hge E) as (m & q & Hs & _).
  congruence.
Qed.

(** ** The padded text *)

Lemma clearText_of_length challenge appId :
  exists m, 0 < m /\ String.length (clearText_of challenge appId) = 8 * m.
Proof.
  unfold clearText_of. rewrite length_append, length_str_mul.
  set (n := String.length (challenge +:+ appId)).
  pose proof (Nat.div_mod_eq n 8) as E.
  pose proof (Nat.mod_upper_bound n 8 ltac:(lia)) as B.
  exists (n / 8 + 1). lia.
Qed.

Lemma clearText_words challenge appId :
  exists ws, pClearText_of (clearText_of challenge appId) = Ok ws
             /\ 2 <= length ws /\ Nat.odd (length ws) = false.
Proof.
  destruct (clearText_of_length challenge appId) as (m & Hm & Hlen).
  destruct (pClearText_of_length (clearText_of challenge appId))
    as (ws & Hws & Hl).
  exists ws. split; [exact Hws|].
  assert (E : length ws = 2 * m).
  { rewrite Hl, Hlen. replace (8 * m) with (2 * m * 4) by lia.
    now rewrite Nat.div_mul. }
  split; [lia|].
  rewrite E. rewrite Nat.odd_mul. reflexivity.
Qed.

(** ** getMac256Hash runs to the end *)

Lemma join4_hex s1 s2 s3 s4 :
  (String.length s1 = 8 /\ str_all is_lower_hex s1 = true) ->
  (String.length s2 = 8 /\ str_all is_lower_hex s2 = true) ->
  (String.length s3 = 8 /\ str_all is_lower_hex s3 = true) ->
  (String.length s4 = 8 /\ str_all is_lower_hex s4 = true) ->
  String.length (join [s1; s2; s3; s4]) = 32
  /\ str_all is_lower_hex (join [s1; s2; s3; s4]) = true.
Proof.
  intros [L1 A1] [L2 A2] [L3 A3] [L4 A4]. unfold join. cbn [fold_right].
  rewrite !length_append, !str_all_append, L1, L2, L3, L4, A1, A2, A3, A4.
  split; reflexivity.
Qed.

Lemma mac_of_ok ws w :
  2 <= length ws -> Nat.odd (length ws) = false ->
  exists s, mac_of ws (replicate 4 w) = Ok s
            /\ String.length s = 32 /\ str_all is_lower_hex s = true.
Proof.
  intros Hlen Hodd. unfold mac_of. cbn [replicate].
  destruct (cS64_some ws w w w w Hlen Hodd) as (m0 & m1 & -> & _ & _).
  cbn [rbind list_index lookup list_lookup combine map_result].
  rewrite !int64Xor_unfold. cbn [rbind].
  destruct (int32ToHexString_ok
              (bin_val 0 (xor_str (fst (xor_operands w m0))
                            (snd (xor_operands w m0)))))
    as (s0 & -> & H0).
  destruct (int32ToHexString_ok
              (bin_val 0 (xor_str (fst (xor_operands w m1))
                            (snd (xor_operands w m1)))))
    as (s1 & -> & H1).
  cbn [rbind]. eexists. split; [reflexivity|].
  apply join4_hex; assumption.
Qed.

Lemma getMac256Hash_ok challenge appId key :
  exists s, getMac256Hash challenge appId key = Ok s
            /\ String.length s = 32 /\ str_all is_lower_hex s = true.
Proof.
  unfold getMac256Hash.
  destruct (clearText_words challenge appId) as (ws & -> & Hlen & Hodd).
  destruct (sha256Hash_of_digest challenge key) as (w & ->).
  cbn [rbind]. now apply mac_of_ok.
Qed.

(** The mixing stage fails exactly on a word sequence that is too short or
    of odd length, and then with the [TypeError] of [macHash[0]]. *)
Lemma mac_of_raises_iff ws h0 h1 h2 h3 :
  (exists e, mac_of ws [h0; h1; h2; h3] = Raise e)
  <-> length ws < 2 \/ Nat.odd (length ws) = true.
Proof.
  split.
  - intros [e He].
    destruct (Nat.lt_ge_cases (length ws) 2) as [|Hge]; [now left|].
    destruct (Nat.odd (length ws)) eqn:E; [now right|].
    exfalso. revert He. unfold mac_of.
    destruct (cS64_some ws h0 h1 h2 h3 Hge E) as (m0 & m1 & -> & _ & _).
    cbn [rbind list_index lookup list_lookup combine map_result].
    rewrite !int64Xor_unfold. cbn [rbind].
    repeat match goal with
    | |- context [int32ToHexString ?x] =>
        let s := fresh "s" in
        destruct (int32ToHexString_ok x) as (s & -> & _); cbn [rbind]
    end.
    discriminate.
  - intros H. exists TypeError. unfold mac_of.
    now rewrite (cS64_none _ _ H).
Qed.

Lemma mac_of_raises_TypeError ws h0 h1 h2 h3 e :
  mac_of ws [h0; h1; h2; h3] = Raise e -> e = TypeError.
Proof.
  intros He.
  assert (B : length ws < 2 \/ Nat.odd (length ws) = true)
    by (apply (mac_of_raises_iff ws h0 h1 h2 h3); eauto).
  revert He. unfold mac_of. rewrite (cS64_none _ _ B). cbn [rbind].
  congruence.
Qed.

(** * Properties of the challenge hash *)

(** C10.  For non-negative [a] and [b], the binary-string helper [int64Xor]
    (render both in binary, left-pad the shorter with ['0'], emit ['1'] where
    the characters differ, read the result in base 2) returns the bitwise
    exclusive or of [a] and [b]. *)
Theorem int64Xor_is_lxor (a b : Z) :
  (0 <= a)%Z -> (0 <= b)%Z -> int64Xor a b = Ok (Z.lxor a b).
Proof.
  intros Ha Hb. rewrite int64Xor_unfold. f_equal.
  destruct (xor_operands_length a b) as [Hlen _]. revert Hlen.
  pose proof (format_b_bits a Ha) as Ba. pose proof (format_b_bits b Hb) as Bb.
  pose proof (format_b_val a Ha) as Va. pose proof (format_b_val b Hb) as Vb.
  unfold xor_operands.
  set (d := Z.to_nat _).
  change (bin_val 0) with (bin_val (Z.lxor 0 0)) at 1.
  destruct (String.length (format_b a) <? String.length (format_b b))%nat;
    [|destruct (String.length (format_b b) <? String.length (format_b a))%nat];
    cbn [fst snd]; intros Hlen;
    rewrite bin_val_xor by
      (rewrite ?str_all_append, ?zeros_bits; assumption);
    rewrite ?bin_val_append, ?zeros_val, Va, Vb; reflexivity.
Qed.

Lemma int64Xor_is_lxor_witness :
  (0 <= 2709966850)%Z /\ (0 <= 78001)%Z
  /\ int64Xor 2709966850 78001 = Ok (Z.lxor 2709966850 78001).
Proof.
  split; [lia|]. split; [lia|]. apply (int64Xor_is_lxor 2709966850 78001); lia.
Defined.

(** C3, as stated: the padded text is [challenge + appId] followed by just
    enough ['0'] to reach a multiple of 8, so nothing is appended when the
    length already is one.  On an 8-character text the code appends eight
    ['0']. *)
Lemma clearText_aligned_counterexample :
  String.length ("12345678" +:+ "") mod 8 = 0
  /\ clearText_of "12345678" "" = "1234567800000000"
  /\ clearText_of "12345678" "" <> "12345678" +:+ ""
  /\ clearText_of "12345678" "" <> spec_clearText "12345678" "".
Proof. vm_compute. repeat split; discriminate. Qed.

(** C3, amended: the padded text is [challenge + appId] followed by
    [8 - len % 8] characters ['0'], between one and eight of them; its length
    is a multiple of 8; it is the minimal padding when the length is not a
    multiple of 8, and the minimal padding followed by a full block of eight
    ['0'] when it is. *)
Theorem clearText_of_padding (challenge appId : string) :
  let n := String.length (challenge +:+ appId) in
  clearText_of challenge appId
  = (challenge +:+ appId) +:+ str_mul "0" (8 - n mod 8)
  /\ 1 <= 8 - n mod 8 <= 8
  /\ String.length (clearText_of challenge appId) mod 8 = 0
  /\ clearText_of challenge appId
     = if n mod 8 =? 0
       then spec_clearText challenge appId +:+ "00000000"
       else spec_clearText challenge appId.
Proof.
  intros n.
  pose proof (Nat.mod_upper_bound n 8 ltac:(lia)) as B.
  split; [reflexivity|]. split; [lia|]. split.
  - destruct (clearText_of_length challenge appId) as (m & _ & ->).
    rewrite Nat.mul_comm. apply Nat.Div0.mod_mul.
  - unfold clearText_of, spec_clearText. fold n.
    destruct (Nat.eqb_spec (n mod 8) 0) as [E|E].
    + rewrite E. change ((8 - 0) mod 8) with 0. cbn [str_mul].
      now rewrite append_empty_r.
    + rewrite (Nat.mod_small (8 - n mod 8)) by lia. reflexivity.
Qed.

(** C1: the claim is that word [i] handed to the mixing routine packs
    characters [4i .. 4i+3] of the padded text.  The loop reads
    [clearText[pos]] instead of [clearText[4 * i + pos]]: on the challenge of
    a real request every word is the packing of characters [0 .. 3], and word
    1 differs from the packing of characters [4 .. 7]. *)
Theorem pClearText_repeats_first_word :
  let clearText := clearText_of "1446654000" "msmsgs@msnmsgr.com" in
  clearText = "1446654000msmsgs@msnmsgr.com0000"
  /\ pClearText_of clearText = Ok (replicate 8 909390897%Z)
  /\ le_word clearText 0 = Ok 909390897%Z
  /\ le_word clearText 1 = Ok 808727862%Z
  /\ (ws <- pClearText_of clearText ;; list_index ws 1)%py
     <> le_word clearText 1.
Proof. vm_compute. repeat split; discriminate. Qed.

(** C2: the claim is that seed word [H[i]] is spelled by the hexadecimal
    characters [8i .. 8i+7] of the digest.  The loop slices [hash[dpos:dpos+2]]
    with [dpos = pos * 2], without the offset [8 * i]: all four seed words are
    the word spelled by characters [0 .. 7], and [H[1]] differs from the word
    spelled by characters [8 .. 15]. *)
Theorem sha256Hash_repeats_first_word :
  let hash := hash_of "1446654000" "Q1P7W2E4J9R8U3S5" in
  hash = "B130010002D086A18DD5C9AE70731ACBFF608E4F02F954B5EE689BA1851F2300"
  /\ sha256Hash_of hash = Ok (replicate 4 78001%Z)
  /\ le_hex_word hash 0 = Ok 78001%Z
  /\ le_hex_word hash 1 = Ok 2709966850%Z
  /\ (hs <- sha256Hash_of hash ;; list_index hs 1)%py <> le_hex_word hash 1.
Proof. vm_compute. repeat split; discriminate. Qed.

(** C4.  For every [(challenge, appId, key)] whose padded text gives a
    non-empty word sequence of even length at least 2, [getMac256Hash] is a
    function of its three arguments and returns a string of exactly 32
    characters, each a lowercase hexadecimal digit. *)
Theorem getMac256Hash_32_lower_hex (challenge appId key : string)
  (ws : list Z) :
  pClearText_of (clearText_of challenge appId) = Ok ws ->
  ws <> [] -> 2 <= length ws -> Nat.even (length ws) = true ->
  (forall challenge' appId' key',
      challenge' = challenge -> appId' = appId -> key' = key ->
      getMac256Hash challenge' appId' key'
      = getMac256Hash challenge appId key)
  /\ exists s, getMac256Hash challenge appId key = Ok s
               /\ String.length s = 32 /\ str_all is_lower_hex s = true.
Proof.
  intros Hws Hne Hlen Heven. split.
  - intros c' a' k' -> -> ->. reflexivity.
  - unfold getMac256Hash. rewrite Hws.
    destruct (sha256Hash_of_digest challenge key) as (w & ->).
    cbn [rbind]. apply mac_of_ok; [exact Hlen|].
    rewrite <- Nat.negb_even, Heven. reflexivity.
Qed.

Lemma getMac256Hash_32_lower_hex_witness :
  pClearText_of (clearText_of "1446654000" "msmsgs@msnmsgr.com")
  = Ok (replicate 8 909390897%Z)
  /\ replicate 8 909390897%Z <> []
  /\ 2 <= length (replicate 8 909390897%Z)
  /\ Nat.even (length (replicate 8 909390897%Z)) = true
  /\ exists s,
       getMac256Hash "1446654000" "msmsgs@msnmsgr.com" "Q1P7W2E4J9R8U3S5"
       = Ok s
       /\ String.length s = 32 /\ str_all is_lower_hex s = true.
Proof.
  assert (H1 : pClearText_of (clearText_of "1446654000" "msmsgs@msnmsgr.com")
               = Ok (replicate 8 909390897%Z)) by (vm_compute; reflexivity).
  assert (H2 : replicate 8 909390897%Z <> []) by discriminate.
  assert (H3 : 2 <= length (replicate 8 909390897%Z)) by (simpl; lia).
  assert (H4 : Nat.even (length (replicate 8 909390897%Z)) = true)
    by reflexivity.
  split; [exact H1|]. split; [exact H2|]. split; [exact H3|].
  split; [exact H4|].
  exact (proj2 (getMac256Hash_32_lower_hex "1446654000" "msmsgs@msnmsgr.com"
                  "Q1P7W2E4J9R8U3S5" _ H1 H2 H3 H4)).
Defined.

(** C5.  The mixing stage of [getMac256Hash] fails exactly on a word sequence
    of odd length or of fewer than 2 words (the [None] of [cS64], which
    [macHash[0]] turns into an exception); with the padding of
    [getMac256Hash] such a sequence could only come from an empty
    [challenge] and [appId]; whenever [challenge + appId] is not empty the
    call returns a value. *)
Theorem getMac256Hash_fails_only_on_bad_words :
  (forall ws h0 h1 h2 h3,
      ((exists e, mac_of ws [h0; h1; h2; h3] = Raise e)
       <-> length ws < 2 \/ Nat.odd (length ws) = true)
      /\ (forall e, mac_of ws [h0; h1; h2; h3] = Raise e -> e = TypeError))
  /\ (forall challenge appId key,
       exists ws h,
         pClearText_of (clearText_of challenge appId) = Ok ws
         /\ sha256Hash_of (hash_of challenge key) = Ok [h; h; h; h]
         /\ getMac256Hash challenge appId key = mac_of ws [h; h; h; h]
         /\ (length ws < 2 \/ Nat.odd (length ws) = true ->
             challenge = "" /\ appId = "")
         /\ (challenge +:+ appId <> "" ->
             exists s, getMac256Hash challenge appId key = Ok s)).
Proof.
  split.
  - intros ws h0 h1 h2 h3. split.
    + apply mac_of_raises_iff.
    + intros e. apply mac_of_raises_TypeError.
  - intros challenge appId key.
    destruct (clearText_words challenge appId) as (ws & Hws & Hlen & Hodd).
    destruct (sha256Hash_of_digest challenge key) as (w & Hw).
    exists ws, w. split; [exact Hws|]. split; [exact Hw|]. split.
    + unfold getMac256Hash. rewrite Hws, Hw. reflexivity.
    + split.
      * intros [H|H]; [lia | congruence].
      * intros _. destruct (getMac256Hash_ok challenge appId key) as (s & Hs & _).
        eauto.
Qed.

Lemma getMac256Hash_fails_only_on_bad_words_witness :
  ((exists e, mac_of [1; 2; 3]%Z [1; 2; 3; 4]%Z = Raise e)
   <-> length [1; 2; 3]%Z < 2 \/ Nat.odd (length [1; 2; 3]%Z) = true)
  /\ exists s, getMac256Hash "1446654000" "msmsgs@msnmsgr.com"
                 "Q1P7W2E4J9R8U3S5" = Ok s.
Proof.
  destruct getMac256Hash_fails_only_on_bad_words as [Hmix Hcall].
  split.
  - apply (Hmix [1; 2; 3]%Z 1%Z 2%Z 3%Z 4%Z).
  - destruct (Hcall "1446654000" "msmsgs@msnmsgr.com" "Q1P7W2E4J9R8U3S5")
      as (ws & h & _ & _ & _ & _ & Hok).
    apply Hok. vm_compute. discriminate.
Defined.

(** * The transport primitive *)

Lemma request_eq req s :
  requests_request req s
  = let s0 := with_history (history s ++ [Sent req]) s in
    match net s with
    | [] => (Raise ConnectionError, s0)
    | (dt, o) :: rest =>
        let s1 := with_net rest (with_now (now s + dt)%Z s0) in
        match o with
        | Responds resp => (Ok resp, s1)
        | Refused => (Raise ConnectionError, s1)
        end
    end.
Proof. reflexivity. Qed.

Lemma call_eq method url codes auth headers params data json s h :
  auth_headers auth (tokens s) (headers_dict headers s) = Ok h ->
  __call__ method url codes auth headers params data json s
  = match requests_request
            {| req_method := method; req_url := url; req_headers := h;
               req_params := params; req_data := data; req_json := json |}
            (keep_headers headers h s) with
    | (Ok resp, s1) =>
        if bool_decide (status_code resp ∈ codes) then (Ok resp, s1)
        else (Raise (SkypeApiException
                       [ArgStr (api_error_message resp method url);
                        ArgResp resp]), s1)
    | (Raise e, s1) => (Raise e, s1)
    end.
Proof.
  intros H. unfold __call__, bind, get_state, lift, modify. rewrite H.
  destruct (requests_request _ _) as [[resp|e] s1]; [|reflexivity].
  destruct (bool_decide _); reflexivity.
Qed.

Lemma call_eq_raise method url codes auth headers params data json s e :
  auth_headers auth (tokens s) (headers_dict headers s) = Raise e ->
  __call__ method url codes auth headers params data json s = (Raise e, s).
Proof.
  intros H. unfold __call__, bind, get_state, lift. now rewrite H.
Qed.

Lemma auth_headers_present auth s h0 :
  auth_token_present auth s ->
  exists h, auth_headers auth (tokens s) h0 = Ok h
    /\ (auth = Some Auth_Skype -> h !! "X-SkypeToken" = tokens s !! "skype")
    /\ (auth = Some Auth_Reg -> h !! "RegistrationToken" = tokens s !! "reg").
Proof.
  intros [HS HR]. unfold auth_headers, dict_get.
  destruct (decide (auth = Some Auth_Skype)) as [E|E].
  - destruct (HS E) as [tok Ht]. rewrite Ht. cbn [rbind].
    eexists. split; [reflexivity|]. split.
    + intros _. apply lookup_insert_eq.
    + intros E'. rewrite E in E'. discriminate.
  - destruct (decide (auth = Some Auth_Reg)) as [E'|E'].
    + destruct (HR E') as [tok Ht]. rewrite Ht. cbn [rbind].
      eexists. split; [reflexivity|]. split; [intros; contradiction|].
      intros _. apply lookup_insert_eq.
    + eexists. split; [reflexivity|]. split; intros; contradiction.
Qed.

Lemma keep_headers_history headers h s :
  history (keep_headers headers h s) = history s.
Proof. destruct headers; reflexivity. Qed.

Lemma keep_headers_net headers h s : net (keep_headers headers h s) = net s.
Proof. destruct headers; reflexivity. Qed.

(** C7.  Every call of the connection issues exactly one request; the
    request carries [X-SkypeToken] when [auth] is [Auth.Skype] and
    [RegistrationToken] when it is [Auth.Reg]; once the service has answered,
    the call raises [SkypeApiException] with the status text and the response
    exactly when the status is not in [codes] (by default 200, 201, 207), and
    returns the response otherwise; one exchange is used, nothing is
    retried. *)
Theorem call_issues_one_request method url codes auth headers params data json s :
  auth_token_present auth s ->
  default_codes = [200; 201; 207]%Z
  /\ exists h,
    auth_headers auth (tokens s) (headers_dict headers s) = Ok h
    /\ (auth = Some Auth_Skype -> h !! "X-SkypeToken" = tokens s !! "skype")
    /\ (auth = Some Auth_Reg -> h !! "RegistrationToken" = tokens s !! "reg")
    /\ let req := {| req_method := method; req_url := url; req_headers := h;
                     req_params := params; req_data := data;
                     req_json := json |} in
       let out := __call__ method url codes auth headers params data json s in
       history (snd out) = history s ++ [Sent req]
       /\ net (snd out) = tail (net s)
       /\ match net s with
          | (_, Responds resp) :: _ =>
              ((exists args, fst out = Raise (SkypeApiException args))
               <-> status_code resp ∉ codes)
              /\ (status_code resp ∉ codes ->
                  fst out = Raise (SkypeApiException
                                     [ArgStr (api_error_message resp method url);
                                      ArgResp resp]))
              /\ (status_code resp ∈ codes -> fst out = Ok resp)
          | _ => fst out = Raise ConnectionError
          end.
Proof.
  intros Hp. split; [reflexivity|].
  destruct (auth_headers_present auth s (headers_dict headers s) Hp)
    as (h & Hh & HS & HR).
  exists h. split; [exact Hh|]. split; [exact HS|]. split; [exact HR|].
  cbv zeta. rewrite (call_eq _ _ _ _ _ _ _ _ _ _ Hh), request_eq.
  rewrite keep_headers_history, keep_headers_net.
  destruct (net s) as [|[dt [resp|]] rest] eqn:En.
  - simpl. rewrite keep_headers_net, En. auto.
  - simpl. case_bool_decide as Hc; simpl.
    + split; [reflexivity|]. split; [reflexivity|]. split; [|split].
      * split; [intros [args Ha]; discriminate | intros Hn; contradiction].
      * intros Hn; contradiction.
      * reflexivity.
    + split; [reflexivity|]. split; [reflexivity|]. split; [|split].
      * split; [intros _; exact Hc | intros _; eauto].
      * reflexivity.
      * intros Hn; contradiction.
  - simpl. auto.
Qed.

Lemma call_issues_one_request_witness :
  auth_token_present (Some Auth_Reg)
    (connected [(1%Z, Responds (answer 404 "" ""))])
  /\ exists h,
       h !! "RegistrationToken" = Some "regtoken-1"
       /\ history
            (snd (get_conversations
                    (connected [(1%Z, Responds (answer 404 "" ""))])))
          = [Sent {| req_method := "GET";
                     req_url := API_MSGSHOST +:+ "/conversations";
                     req_headers := h; req_params := None;
                     req_data := None; req_json := None |}]
       /\ fst (get_conversations
                 (connected [(1%Z, Responds (answer 404 "" ""))]))
          = Raise (SkypeApiException
                     [ArgStr (api_error_message (answer 404 "" "") "GET"
                                (API_MSGSHOST +:+ "/conversations"));
                      ArgResp (answer 404 "" "")]).
Proof.
  assert (Hp : auth_token_present (Some Auth_Reg)
                 (connected [(1%Z, Responds (answer 404 "" ""))])).
  { split; [discriminate|]. intros _. eexists. vm_compute. reflexivity. }
  split; [exact Hp|].
  destruct (call_issues_one_request "GET" (API_MSGSHOST +:+ "/conversations")
              default_codes (Some Auth_Reg) HeadersDefault None None None
              (connected [(1%Z, Responds (answer 404 "" ""))]) Hp)
    as (_ & h & _ & _ & HR & Hhist & _ & Hout).
  exists h. split; [rewrite (HR eq_refl); vm_compute; reflexivity|].
  split; [exact Hhist|].
  cbn [net connected] in Hout. destruct Hout as (_ & Hraise & _).
  apply Hraise. apply (bool_decide_unpack _). vm_compute. reflexivity.
Defined.

(** * Acquiring the registration token *)


Lemma request_frame req s :
  let s' := snd (requests_request req s) in
  tokens s' = tokens s /\ tokenExpiry s' = tokenExpiry s
  /\ msgsHost s' = msgsHost s /\ msgsEndpoint s' = msgsEndpoint s
  /\ default_headers s' = default_headers s /\ fs s' = fs s
  /\ timezone s' = timezone s.
Proof.
  rewrite request_eq. destruct (net s) as [|[dt [resp|]] rest]; simpl; auto 10.
Qed.

(** The body of [getRegToken] in first-order form. *)
Lemma getRegToken_body_eq k s :
  getRegToken_body k s
  = let s0 := with_history
                (history s ++ [Entered m_getRegToken (tokens s)
                                 (tokenExpiry s) (now s)]) s in
    match msgsHost s with
    | None => (Raise AttributeError, s0)
    | Some host =>
        match regToken_mac (now s) with
        | Raise e => (Raise e, s0)
        | Ok mac =>
            match tokens s !! "skype" with
            | None => (Raise (KeyError "skype"), s0)
            | Some tok =>
                let req := regToken_request host tok (now s) mac in
                match requests_request req s0 with
                | (Raise e, s1) => (Raise e, s1)
                | (Ok resp, s1) =>
                    if bool_decide (status_code resp ∈ [201; 301]%Z) then
                      match resp_headers resp !! "Location" with
                      | None => (Raise (KeyError "Location"), s1)
                      | Some loc =>
                          match resp_headers resp !! "Set-RegistrationToken" with
                          | None =>
                              (Raise (KeyError "Set-RegistrationToken"), s1)
                          | Some reg =>
                              if negb (String.eqb (rsplit_head loc) host)
                              then k (with_msgsHost (Some (rsplit_head loc)) s1)
                              else (Ok tt,
                                    with_tokens (<["reg" := reg]> (tokens s1)) s1)
                          end
                      end
                    else
                      (Raise (SkypeApiException
                                [ArgStr (api_error_message resp "POST"
                                           (host +:+ "/endpoints"));
                                 ArgResp resp]), s1)
                end
            end
        end
    end.
Proof.
  unfold getRegToken_body, regToken_mac, bind, enter, note, modify, get_state, lift, attr, dict_get.
  cbn [tokens msgsHost now with_history].
  destruct (msgsHost s) as [host|] eqn:Hh; [|reflexivity].
  destruct (getMac256Hash _ _ _) as [mac|e]; [|reflexivity].
  destruct (tokens s !! "skype") as [tok|]; [|reflexivity].
  rewrite (call_eq _ _ _ None _ _ _ _ _ _ eq_refl).
  cbv zeta. unfold regToken_request.
  cbn [keep_headers req_method req_url req_headers req_json headers_dict].
  match goal with
  | |- context [requests_request ?r ?s0] =>
      pose proof (request_frame r s0) as F;
      destruct (requests_request r s0) as [[resp|e] s1]
  end; [|reflexivity].
  cbn [snd msgsHost with_history] in F.
  destruct F as (_ & _ & Hm & _). rewrite Hh in Hm.
  destruct (bool_decide _); [|reflexivity].
  destruct (resp_headers resp !! "Location") as [loc|]; [|reflexivity].
  destruct (resp_headers resp !! "Set-RegistrationToken") as [reg|];
    [|reflexivity].
  rewrite Hm. destruct (negb _); reflexivity.
Qed.

Lemma getRegToken_body_shorter k1 k2 s :
  (forall s', length (net s') < length (net s) -> k1 s' = k2 s') ->
  getRegToken_body k1 s = getRegToken_body k2 s.
Proof.
  intros H. rewrite !getRegToken_body_eq. cbv zeta.
  destruct (msgsHost s) as [host|]; [|reflexivity].
  destruct (regToken_mac (now s)) as [mac|e]; [|reflexivity].
  destruct (tokens s !! "skype") as [tok|]; [|reflexivity].
  rewrite request_eq. cbn [net history with_history].
  destruct (net s) as [|[dt [resp|]] rest]; try reflexivity.
  cbv zeta.
  destruct (bool_decide _); [|reflexivity].
  destruct (resp_headers resp !! "Location") as [loc|]; [|reflexivity].
  destruct (resp_headers resp !! "Set-RegistrationToken") as [reg|];
    [|reflexivity].
  destruct (negb _); [|reflexivity].
  apply H. simpl. lia.
Qed.

Lemma getRegToken_rec_depth d1 d2 s :
  length (net s) < d1 -> length (net s) < d2 ->
  getRegToken_rec d1 s = getRegToken_rec d2 s.
Proof.
  revert d2 s. induction d1 as [|d1 IH]; intros [|d2] s H1 H2; try lia.
  cbn [getRegToken_rec]. apply getRegToken_body_shorter.
  intros s' Hs'. apply IH; lia.
Qed.

(** [getRegToken] satisfies the recursive equation of the source. *)
Lemma getRegToken_unfold s : getRegToken s = getRegToken_body getRegToken s.
Proof.
  unfold getRegToken at 1. cbn [getRegToken_rec].
  apply getRegToken_body_shorter. intros s' Hs'.
  unfold getRegToken. apply getRegToken_rec_depth; lia.
Qed.


Lemma regToken_mac_ok secs : exists mac, regToken_mac secs = Ok mac.
Proof.
  destruct (getMac256Hash_ok (str_of_int secs) "msmsgs@msnmsgr.com"
              "Q1P7W2E4J9R8U3S5") as (mac & H & _).
  exists mac. exact H.
Qed.

(** One answered request of [getRegToken], with both headers present. *)
Lemma getRegToken_step s host tok dt resp rest loc reg :
  msgsHost s = Some host ->
  tokens s !! "skype" = Some tok ->
  net s = (dt, Responds resp) :: rest ->
  status_code resp ∈ [201; 301]%Z ->
  resp_headers resp !! "Location" = Some loc ->
  resp_headers resp !! "Set-RegistrationToken" = Some reg ->
  exists mac,
    regToken_mac (now s) = Ok mac
    /\ let s1 :=
         with_net rest
           (with_now (now s + dt)%Z
              (with_history
                 (history s
                  ++ [Entered m_getRegToken (tokens s) (tokenExpiry s) (now s);
                      Sent (regToken_request host tok (now s) mac)]) s)) in
       (rsplit_head loc <> host ->
        getRegToken s
        = getRegToken (with_msgsHost (Some (rsplit_head loc)) s1))
       /\ (rsplit_head loc = host ->
           getRegToken s
           = (Ok tt, with_tokens (<["reg" := reg]> (tokens s)) s1)).
Proof.
  intros Hh Ht Hn Hc Hl Hr.
  destruct (regToken_mac_ok (now s)) as [mac Hmac].
  exists mac. split; [exact Hmac|]. cbv zeta.
  rewrite getRegToken_unfold, getRegToken_body_eq. cbv zeta.
  rewrite Hh, Hmac, Ht, request_eq. cbn [net history with_history].
  rewrite Hn. cbv zeta. rewrite (bool_decide_eq_true_2 _ Hc), Hl, Hr.
  rewrite <- app_assoc. cbn [app].
  split; intros E.
  - apply String.eqb_neq in E. rewrite E. reflexivity.
  - apply String.eqb_eq in E. rewrite E. reflexivity.
Qed.

Lemma getRegToken_rec_result d s s' :
  getRegToken_rec d s = (Ok tt, s') ->
  exists dt resp loc reg,
    In (dt, Responds resp) (net s)
    /\ resp_headers resp !! "Location" = Some loc
    /\ resp_headers resp !! "Set-RegistrationToken" = Some reg
    /\ msgsHost s' = Some (rsplit_head loc)
    /\ tokens s' !! "reg" = Some reg.
Proof.
  revert s. induction d as [|d IH]; intros s; cbn [getRegToken_rec].
  - discriminate.
  - rewrite getRegToken_body_eq. cbv zeta.
    destruct (msgsHost s) as [host|] eqn:Hh; [|discriminate].
    destruct (regToken_mac (now s)) as [mac|e]; [|discriminate].
    destruct (tokens s !! "skype") as [tok|]; [|discriminate].
    rewrite request_eq. cbn [net history with_history].
    destruct (net s) as [|[dt [resp|]] rest]; try discriminate.
    cbv zeta. destruct (bool_decide _); [|discriminate].
    destruct (resp_headers resp !! "Location") as [loc|] eqn:Hl;
      [|discriminate].
    destruct (resp_headers resp !! "Set-RegistrationToken") as [reg|] eqn:Hr;
      [|discriminate].
    destruct (String.eqb (rsplit_head loc) host) eqn:E; cbn [negb].
    + intros H. injection H as <-. apply String.eqb_eq in E.
      exists dt, resp, loc, reg. split; [now left|].
      split; [exact Hl|]. split; [exact Hr|]. split.
      * simpl. congruence.
      * simpl. apply lookup_insert_eq.
    + intros H. destruct (IH _ H) as (dt' & resp' & loc' & reg' & Hin & R).
      exists dt', resp', loc', reg'. split; [|exact R].
      right. exact Hin.
Qed.

(** C6.  When [getRegToken] gets an accepted answer carrying both headers:
    if the host derived from [Location] differs from the stored host, the
    stored host becomes the derived one and the whole step runs again from
    there, its request going to the stored host; if it is the stored host,
    nothing is retried: the registration token of this answer is stored and
    the call returns after this one request.  Consequently, whenever
    [getRegToken] returns, the registration token it has stored comes from an
    answer whose [Location] host is the stored host. *)
Theorem getRegToken_redirect :
  (forall s host tok dt resp rest loc reg,
      msgsHost s = Some host ->
      tokens s !! "skype" = Some tok ->
      net s = (dt, Responds resp) :: rest ->
      status_code resp ∈ [201; 301]%Z ->
      resp_headers resp !! "Location" = Some loc ->
      resp_headers resp !! "Set-RegistrationToken" = Some reg ->
      exists mac,
        regToken_mac (now s) = Ok mac
        /\ let req := regToken_request host tok (now s) mac in
           let s1 :=
             with_net rest
               (with_now (now s + dt)%Z
                  (with_history
                     (history s
                      ++ [Entered m_getRegToken (tokens s) (tokenExpiry s)
                            (now s);
                          Sent req]) s)) in
           req_url req = host +:+ "/endpoints"
           /\ (rsplit_head loc <> host ->
               getRegToken s
               = getRegToken (with_msgsHost (Some (rsplit_head loc)) s1))
           /\ (rsplit_head loc = host ->
               getRegToken s
               = (Ok tt, with_tokens (<["reg" := reg]> (tokens s)) s1)))
  /\ (forall s s',
        getRegToken s = (Ok tt, s') ->
        exists dt resp loc reg,
          In (dt, Responds resp) (net s)
          /\ resp_headers resp !! "Location" = Some loc
          /\ resp_headers resp !! "Set-RegistrationToken" = Some reg
          /\ msgsHost s' = Some (rsplit_head loc)
          /\ tokens s' !! "reg" = Some reg).
Proof.
  split.
  - intros s host tok dt resp rest loc reg Hh Ht Hn Hc Hl Hr.
    destruct (getRegToken_step s host tok dt resp rest loc reg Hh Ht Hn Hc Hl Hr)
      as (mac & Hmac & H).
    exists mac. split; [exact Hmac|]. cbv zeta. split; [reflexivity|]. exact H.
  - intros s s'. apply getRegToken_rec_result.
Qed.

Lemma getRegToken_redirect_witness :
  status_code (answer 301 (redirect_host +:+ "/endpoints/ep1")
                 "registrationToken=r0") ∈ [201; 301]%Z
  /\ rsplit_head (redirect_host +:+ "/endpoints/ep1") <> API_MSGSHOST
  /\ (exists mac,
        regToken_mac (now (connected redirect_script)) = Ok mac
        /\ getRegToken (connected redirect_script)
           = getRegToken
               (with_msgsHost
                  (Some (rsplit_head (redirect_host +:+ "/endpoints/ep1")))
                  (with_net
                     [(1%Z, Responds
                              (answer 201 (redirect_host +:+ "/endpoints/ep1")
                                 "registrationToken=r1"))]
                     (with_now (now (connected redirect_script) + 1)%Z
                        (with_history
                           [Entered m_getRegToken
                              (tokens (connected redirect_script))
                              (tokenExpiry (connected redirect_script))
                              (now (connected redirect_script));
                            Sent (regToken_request API_MSGSHOST "skypetoken-1"
                                    (now (connected redirect_script)) mac)]
                           (connected redirect_script))))))
  /\ exists dt resp loc reg,
       In (dt, Responds resp) (net (connected redirect_script))
       /\ resp_headers resp !! "Location" = Some loc
       /\ resp_headers resp !! "Set-RegistrationToken" = Some reg
       /\ msgsHost (snd (getRegToken (connected redirect_script)))
          = Some (rsplit_head loc)
       /\ tokens (snd (getRegToken (connected redirect_script))) !! "reg"
          = Some reg.
Proof.
  destruct getRegToken_redirect as [Hstep Hresult].
  assert (Hc : status_code (answer 301 (redirect_host +:+ "/endpoints/ep1")
                              "registrationToken=r0") ∈ [201; 301]%Z)
    by (apply (bool_decide_unpack _); vm_compute; reflexivity).
  assert (Hne : rsplit_head (redirect_host +:+ "/endpoints/ep1")
                <> API_MSGSHOST) by (vm_compute; discriminate).
  split; [exact Hc|]. split; [exact Hne|]. split.
  - destruct (Hstep (connected redirect_script) API_MSGSHOST "skypetoken-1"
                1%Z _ _ (redirect_host +:+ "/endpoints/ep1")
                "registrationToken=r0" eq_refl
                ltac:(vm_compute; reflexivity) eq_refl Hc
                ltac:(vm_compute; reflexivity) ltac:(vm_compute; reflexivity))
      as (mac & Hmac & _ & Hredirect & _).
    exists mac. split; [exact Hmac|]. exact (Hredirect Hne).
  - apply (Hresult _ (snd (getRegToken (connected redirect_script)))).
    vm_compute. reflexivity.
Defined.

(** * Properties kept by the connection code *)

Section Preservation.
Context (I : state -> Prop).

Lemma preserves_ret {A} (a : A) : preserves I (ret a).
Proof. intros s H. exact H. Qed.

Lemma preserves_raise {A} e : preserves I (@raise A e).
Proof. intros s H. exact H. Qed.

Lemma preserves_lift {A} (r : result A) : preserves I (lift r).
Proof. intros s H. exact H. Qed.

Lemma preserves_get_state : preserves I get_state.
Proof. intros s H. exact H. Qed.

Lemma preserves_modify f : (forall s, I s -> I (f s)) -> preserves I (modify f).
Proof. intros Hf s H. apply Hf, H. Qed.

Lemma preserves_bind {A B} (m : action A) (k : A -> action B) :
  preserves I m -> (forall a, preserves I (k a)) -> preserves I (bind m k).
Proof.
  intros Hm Hk s H. unfold bind. specialize (Hm s H).
  destruct (m s) as [[a|e] s1]; cbn [snd] in *; [now apply Hk | exact Hm].
Qed.

Lemma preserves_try_except {A} (m : action A) (h : exn -> action A) :
  preserves I m -> (forall e, preserves I (h e)) ->
  preserves I (try_except m h).
Proof.
  intros Hm Hh s H. unfold try_except. specialize (Hm s H).
  destruct (m s) as [[a|e] s1]; cbn [snd] in *; [exact Hm | now apply Hh].
Qed.

Section Requests.
Context (Io : io_stable I).

Lemma preserves_request r : preserves I (requests_request r).
Proof.
  intros s H. rewrite request_eq.
  pose proof (stable_sent I Io s r H) as H1.
  destruct (net s) as [|[dt [resp|]] rest]; cbn [snd]; try exact H1;
    apply (stable_world I Io _ _ _ H1).
Qed.

Lemma preserves_call method url codes auth headers params data json :
  preserves I (__call__ method url codes auth headers params data json).
Proof.
  unfold __call__.
  apply preserves_bind; [apply preserves_get_state|]. intros s0.
  apply preserves_bind; [apply preserves_lift|]. intros h.
  apply preserves_bind.
  { apply preserves_modify. intros s H. destruct headers; cbn [keep_headers];
      [apply (stable_default_headers I Io), H | exact H]. }
  intros _. apply preserves_bind; [apply preserves_request|]. intros resp.
  destruct (bool_decide _); [apply preserves_ret | apply preserves_raise].
Qed.

End Requests.

Context (St : stable I).

Lemma preserves_enter m : preserves I (enter m).
Proof. intros s H. apply (stable_entered I St), H. Qed.

Lemma preserves_getRegToken_body k :
  preserves I k -> preserves I (getRegToken_body k).
Proof.
  intros Hk. unfold getRegToken_body.
  apply preserves_bind; [apply preserves_enter|]. intros _.
  apply preserves_bind; [apply preserves_get_state|]. intros s0.
  apply preserves_bind; [apply preserves_lift|]. intros host.
  apply preserves_bind; [apply preserves_lift|]. intros mac.
  apply preserves_bind; [apply preserves_lift|]. intros tok.
  apply preserves_bind; [apply (preserves_call (stable_io I St))|]. intros resp.
  apply preserves_bind; [apply preserves_lift|]. intros loc.
  apply preserves_bind; [apply preserves_lift|]. intros reg.
  apply preserves_bind; [apply preserves_get_state|]. intros s1.
  apply preserves_bind; [apply preserves_lift|]. intros host'.
  destruct (negb _).
  - apply preserves_bind; [|intros _; exact Hk].
    apply preserves_modify. intros s. apply (stable_msgsHost I St).
  - apply preserves_modify. intros s. apply (stable_reg I St).
Qed.

Lemma preserves_getRegToken : preserves I getRegToken.
Proof.
  assert (H : forall d, preserves I (getRegToken_rec d)).
  { induction d as [|d IH]; cbn [getRegToken_rec];
      [apply preserves_raise | now apply preserves_getRegToken_body]. }
  intros s. apply H.
Qed.

Lemma preserves_makeEndpoint : preserves I makeEndpoint.
Proof.
  unfold makeEndpoint.
  apply preserves_bind; [apply preserves_enter|]. intros _.
  apply preserves_bind; [apply preserves_get_state|]. intros s0.
  apply preserves_bind; [apply preserves_lift|]. intros host.
  apply preserves_bind; [apply (preserves_call (stable_io I St))|]. intros resp.
  apply preserves_bind; [apply preserves_lift|]. intros loc.
  apply preserves_bind.
  { apply preserves_modify. intros s. apply (stable_msgsEndpoint I St). }
  intros _. apply preserves_bind; [apply (preserves_call (stable_io I St))|]. intros _.
  apply preserves_ret.
Qed.

Lemma preserves_subscribe : preserves I subscribe.
Proof.
  unfold subscribe.
  apply preserves_bind; [apply preserves_enter|]. intros _.
  apply preserves_bind; [apply preserves_get_state|]. intros s0.
  apply preserves_bind; [apply preserves_lift|]. intros host.
  apply preserves_bind; [apply (preserves_call (stable_io I St))|]. intros _.
  apply preserves_ret.
Qed.

Lemma preserves_resubscribe_cycle {A} (func : action A) :
  preserves I func ->
  preserves I (bind getRegToken (fun _ => bind subscribe (fun _ => func))).
Proof.
  intros Hf.
  apply preserves_bind; [apply preserves_getRegToken|]. intros _.
  apply preserves_bind; [apply preserves_subscribe|]. intros _. exact Hf.
Qed.

Lemma preserves_resubscribeOn {A} codes (func : action A) :
  preserves I (invoke func) -> preserves I (resubscribeOn codes func).
Proof.
  intros Hf. unfold resubscribeOn.
  apply preserves_try_except; [exact Hf|]. intros e.
  destruct e; try apply preserves_raise.
  - now apply preserves_resubscribe_cycle.
  - destruct (status_in codes args);
      [now apply preserves_resubscribe_cycle | apply preserves_raise].
Qed.

End Preservation.

(** * The retry decorator *)

Lemma count_invoked_app h1 h2 :
  count_invoked (h1 ++ h2) = count_invoked h1 + count_invoked h2.
Proof.
  induction h1 as [|[] h1 IH]; cbn [app count_invoked]; lia.
Qed.

Lemma count_invoked_sent evs : Forall is_Sent evs -> count_invoked evs = 0.
Proof.
  induction 1 as [|[] evs H _ IH]; cbn [count_invoked]; auto; contradiction.
Qed.

Lemma stable_count_invoked c :
  stable (fun s => count_invoked (history s) = c).
Proof.
  split; [split|..]; intros; cbn [history with_history with_net with_now
    with_default_headers with_msgsHost with_msgsEndpoint with_tokens];
    rewrite ?count_invoked_app; cbn [count_invoked]; lia.
Qed.

Lemma count_invoked_invoke {A} (func : action A) s :
  client_code func ->
  count_invoked (history (snd (invoke func s)))
  = S (count_invoked (history s)).
Proof.
  intros Hc. unfold invoke, bind, note, modify.
  match goal with
  | |- context [func ?s0] =>
      destruct (Hc s0) as (_ & _ & evs & He & Hs);
      destruct (func s0) as [[a|e] s1]
  end; cbn [snd history with_history] in *; rewrite He;
    rewrite !count_invoked_app, (count_invoked_sent _ Hs);
    cbn [count_invoked]; lia.
Qed.

Lemma resubscribeOn_eq {A} codes (func : action A) s :
  resubscribeOn codes func s
  = match invoke func s with
    | (Ok a, s1) => (Ok a, s1)
    | (Raise e, s1) =>
        if triggers codes e then
          match getRegToken s1 with
          | (Raise e', s2) => (Raise e', s2)
          | (Ok _, s2) =>
              match subscribe s2 with
              | (Raise e', s3) => (Raise e', s3)
              | (Ok _, s3) => invoke func s3
              end
          end
        else (Raise e, s1)
    end.
Proof.
  unfold resubscribeOn, try_except.
  destruct (invoke func s) as [[a|e] s1]; [reflexivity|].
  destruct e; cbn [triggers]; try reflexivity.
  destruct (status_in codes args); reflexivity.
Qed.

(** C8, amended.  For a wrapped operation of a client: if its first call
    returns, or raises anything but a [SkypeApiException] whose status is in
    [codes] or a [ConnectionError], that outcome is the outcome of the
    wrapper, with no resubscription and no second call.  Otherwise
    [getRegToken] is called once, then [subscribe] once if [getRegToken]
    returned; if both return, the operation is called a second time and its
    outcome is the outcome of the wrapper, unchanged; if one of them raises,
    that exception is the outcome and the operation is not called again.  In
    every case the operation is called once or twice. *)
Theorem resubscribeOn_retries_once {A} (codes : list Z) (func : action A)
  (s : state) :
  client_code func ->
  let first := invoke func s in
  let out := resubscribeOn codes func s in
  let n := count_invoked (history s) in
  (forall msg r,
      triggers codes (SkypeApiException [ArgStr msg; ArgResp r])
      = bool_decide (status_code r ∈ codes))
  /\ triggers codes ConnectionError = true
  /\ match fst first with
     | Ok _ => out = first /\ count_invoked (history (snd out)) = n + 1
     | Raise e =>
         if triggers codes e then
           match getRegToken (snd first) with
           | (Raise e', s2) =>
               out = (Raise e', s2)
               /\ count_invoked (history (snd out)) = n + 1
           | (Ok _, s2) =>
               match subscribe s2 with
               | (Raise e', s3) =>
                   out = (Raise e', s3)
                   /\ count_invoked (history (snd out)) = n + 1
               | (Ok _, s3) =>
                   out = invoke func s3
                   /\ count_invoked (history (snd out)) = n + 2
               end
           end
         else out = first /\ count_invoked (history (snd out)) = n + 1
     end.
Proof.
  intros Hc. cbv zeta. split; [reflexivity|]. split; [reflexivity|].
  rewrite resubscribeOn_eq.
  pose proof (count_invoked_invoke func s Hc) as H1.
  destruct (invoke func s) as [[a|e] s1]; cbn [fst snd] in *.
  - split; [reflexivity | cbn [snd]; lia].
  - destruct (triggers codes e); [|split; [reflexivity | cbn [snd]; lia]].
    pose proof (preserves_getRegToken _ (stable_count_invoked _) s1 eq_refl)
      as H2.
    destruct (getRegToken s1) as [[[]|e'] s2]; cbn [snd] in *;
      [|split; [reflexivity | cbn [snd]; lia]].
    pose proof (preserves_subscribe _ (stable_count_invoked _) s2 eq_refl)
      as H3.
    destruct (subscribe s2) as [[[]|e''] s3]; cbn [snd] in *;
      [|split; [reflexivity | cbn [snd]; lia]].
    split; [reflexivity|]. rewrite (count_invoked_invoke func s3 Hc). lia.
Qed.

Lemma call_is_client_code method url codes auth headers params data json :
  client_code (__call__ method url codes auth headers params data json).
Proof.
  intros s.
  destruct (auth_headers auth (tokens s) (headers_dict headers s)) as [h|e]
    eqn:Hh.
  - rewrite (call_eq _ _ _ _ _ _ _ _ _ _ Hh), request_eq.
    assert (K : tokens (keep_headers headers h s) = tokens s
                /\ tokenExpiry (keep_headers headers h s) = tokenExpiry s
                /\ history (keep_headers headers h s) = history s)
      by (destruct headers; auto).
    destruct K as (K1 & K2 & K3).
    assert (G : forall (r : result Response) s',
               tokens s' = tokens s -> tokenExpiry s' = tokenExpiry s ->
               (exists evs, history s' = history s ++ evs
                            /\ Forall is_Sent evs) ->
               tokens (snd (r, s')) = tokens s
               /\ tokenExpiry (snd (r, s')) = tokenExpiry s
               /\ exists evs, history (snd (r, s')) = history s ++ evs
                              /\ Forall is_Sent evs) by auto.
    destruct (net (keep_headers headers h s)) as [|[dt [resp|]] rest];
      cbv beta iota zeta;
      try match goal with
          | |- context [@bool_decide ?P ?D] => destruct (@bool_decide P D)
          end;
      apply G; cbn [tokens tokenExpiry history with_history with_net with_now];
      rewrite ?K1, ?K2, ?K3; try reflexivity;
      eexists; (split; [reflexivity|]); repeat constructor.
  - rewrite (call_eq_raise _ _ _ _ _ _ _ _ _ _ Hh). cbn [snd].
    split; [reflexivity|]. split; [reflexivity|].
    exists []. rewrite app_nil_r. split; [reflexivity | constructor].
Qed.


Lemma resubscribeOn_retries_once_witness :
  client_code get_conversations
  /\ count_invoked
       (history
          (snd (resubscribeOn [404]%Z get_conversations
                  (connected
                     [(1%Z, Responds (answer 404 "" ""));
                      (1%Z, Responds
                              (answer 201 (API_MSGSHOST +:+ "/endpoints/ep1")
                                 "registrationToken=r2"));
                      (1%Z, Responds (answer 201 "" ""));
                      (1%Z, Responds (answer 200 "" ""))]))))
     = 2.
Proof.
  split; [apply call_is_client_code|].
  pose proof (resubscribeOn_retries_once [404]%Z get_conversations
                (connected
                   [(1%Z, Responds (answer 404 "" ""));
                    (1%Z, Responds
                            (answer 201 (API_MSGSHOST +:+ "/endpoints/ep1")
                               "registrationToken=r2"));
                    (1%Z, Responds (answer 201 "" ""));
                    (1%Z, Responds (answer 200 "" ""))])
                (call_is_client_code _ _ _ _ _ _ _ _)) as (_ & _ & H).
  revert H. vm_compute. intros [_ H]. exact H.
Defined.

(** C8, as stated: after a first failure that triggers the resubscription,
    the operation is called again exactly once and the outcome of that second
    call is the outcome of the wrapper.  Here the first call raises on a 404
    that is in [codes], the request of [getRegToken] is answered by a 500,
    and that exception is the outcome: the operation was called once. *)
Lemma resubscribeOn_failed_cycle_counterexample :
  let s := connected [(1%Z, Responds (answer 404 "" ""));
                      (1%Z, Responds (answer 500 "" ""))] in
  let out := resubscribeOn [404]%Z get_conversations s in
  match fst (invoke get_conversations s) with
  | Raise e => triggers [404]%Z e = true
  | Ok _ => False
  end
  /\ count_invoked (history (snd out)) = 1
  /\ fst out
     = Raise (SkypeApiException
                [ArgStr (api_error_message (answer 500 "" "") "POST"
                           (API_MSGSHOST +:+ "/endpoints"));
                 ArgResp (answer 500 "" "")]).
Proof. vm_compute. repeat split. Qed.

(** * Sessions *)

(** Solves [preserves I m] for code built from the connection methods. *)
Ltac preserves_tac Io St :=
  repeat first
    [ apply preserves_ret
    | apply preserves_raise
    | apply preserves_lift
    | apply preserves_get_state
    | apply (preserves_call _ Io)
    | apply (preserves_request _ Io)
    | apply (preserves_getRegToken _ St)
    | apply (preserves_makeEndpoint _ St)
    | apply (preserves_subscribe _ St)
    | apply (preserves_enter _ St)
    | apply preserves_bind; [|intros ?]
    | apply preserves_try_except; [|intros ?]
    | match goal with
      | |- preserves _ (if ?b then _ else _) => destruct b
      | |- preserves _ (match ?x with _ => _ end) => destruct x
      end ].

Lemma io_stable_steps : io_stable steps_hold_token.
Proof.
  split; unfold steps_hold_token; intros; cbn [history with_history with_net
    with_now with_default_headers]; auto.
  apply Forall_app. split; [assumption|]. repeat constructor.
Qed.

Lemma stable_token_held :
  stable (fun s => has_skype s /\ steps_hold_token s).
Proof.
  split; [split|..]; unfold has_skype, steps_hold_token; intros;
    match goal with H : (_ /\ _) /\ _ |- _ => destruct H as [[Ht He] Hh] end;
    cbn [history tokens tokenExpiry with_history with_net with_now
         with_default_headers with_msgsHost with_msgsEndpoint with_tokens];
    (split; [split|]); auto.
  - apply Forall_app. split; [assumption|]. repeat constructor.
  - apply Forall_app. split; [assumption|].
    constructor; [intros _; split; assumption | constructor].
  - rewrite lookup_insert_ne by discriminate. assumption.
Qed.

Lemma stable_extends h0 : stable (extends h0).
Proof.
  split; [split|..]; unfold extends; intros;
    match goal with H : exists _, _ |- _ => destruct H as [evs H] end;
    cbn [history with_history with_net with_now with_default_headers
         with_msgsHost with_msgsEndpoint with_tokens];
    rewrite ?H, <- ?app_assoc; eauto.
Qed.

(** *** login *)

Lemma ensures_bind Q {A B} (m : action A) (k : A -> action B) :
  (forall a, ensures Q (k a)) -> ensures Q (bind m k).
Proof.
  intros Hk s b s'. unfold bind.
  destruct (m s) as [[a|e] s1]; [apply Hk | discriminate].
Qed.

Lemma ensures_raise Q {A} e : ensures Q (@raise A e).
Proof. intros s a s'. discriminate. Qed.

Lemma ensures_try_except Q {A} (m : action A) h :
  ensures Q m -> (forall e, ensures Q (h e)) -> ensures Q (try_except m h).
Proof.
  intros Hm Hh s a s'. unfold try_except.
  destruct (m s) as [[a'|e] s1] eqn:E.
  - intros [= <- <-]. exact (Hm _ _ _ E).
  - apply Hh.
Qed.

Lemma login_steps user pwd : preserves steps_hold_token (login user pwd).
Proof.
  unfold login.
  apply preserves_bind.
  { intros s H. unfold steps_hold_token in *. cbn.
    apply Forall_app. split; [assumption|].
    constructor; [|constructor]. cbn. discriminate. }
  intros _.
  repeat first
    [ apply preserves_modify; intros s H; exact H
    | progress preserves_tac io_stable_steps io_stable_steps ].
Qed.

Lemma login_ensures_token user pwd : ensures has_skype (login user pwd).
Proof.
  unfold login.
  apply ensures_bind; intros _. apply ensures_bind; intros resp.
  destruct (has_recaptcha (text resp)); [apply ensures_raise|].
  apply ensures_bind; intros pie. apply ensures_bind; intros etm.
  apply ensures_bind; intros s0. apply ensures_bind; intros loginResp.
  destruct (errors (text loginResp)); [|apply ensures_raise].
  apply ensures_try_except.
  - intros s [] s'. unfold bind, lift, attr, modify.
    destruct (skypetoken (text loginResp)); [|discriminate].
    destruct (expires_in (text loginResp)); [|discriminate].
    destruct (fromtimestamp _ _); [|discriminate].
    intros [= <-]. split; cbn; rewrite lookup_insert_eq; eauto.
  - intros e. destruct e; apply ensures_raise.
Qed.

(** *** The constructor *)

Lemma load_cache_inv tokenFile s :
  let s1 := snd (load_cache tokenFile s) in
  history s1 = history s
  /\ ((tokens s1 = tokens s /\ tokenExpiry s1 = tokenExpiry s)
      \/ has_skype s1).
Proof.
  unfold load_cache, bind, get_state, lift, modify, ret, raise.
  destruct (truthy_path tokenFile) as [path|]; [|cbn; auto].
  destruct (fs s !! path) as [[|a [|b [|c [|d l]]]]|]; cbn; auto.
  destruct (read_expiry (timezone s) b) as [x|e]; cbn; auto.
  destruct (datetime_now s) as [wall|e]; cbn; auto.
  destruct (wall <? x)%Z; cbn; auto.
  split; [reflexivity|]. right. split; cbn; rewrite lookup_insert_eq; eauto.
Qed.

Lemma bind_ok_inv {A B} (m : action A) (k : A -> action B) s b s' :
  bind m k s = (Ok b, s') ->
  exists a s1, m s = (Ok a, s1) /\ k a s1 = (Ok b, s').
Proof.
  unfold bind. destruct (m s) as [[a|e] s1]; [eauto | discriminate].
Qed.

Lemma login_if_needed_steps user pwd tokenFile :
  preserves steps_hold_token (login_if_needed user pwd tokenFile).
Proof.
  unfold login_if_needed.
  apply preserves_bind; [apply preserves_get_state|]. intros s0.
  destruct (bool_decide _); [|apply preserves_ret].
  apply preserves_bind; [apply login_steps|]. intros _.
  repeat first
    [ apply preserves_modify; intros s H; exact H
    | progress preserves_tac io_stable_steps io_stable_steps ].
Qed.

Lemma login_if_needed_token user pwd tokenFile s a s' :
  (tokens s <> ∅ -> has_skype s) ->
  login_if_needed user pwd tokenFile s = (Ok a, s') -> has_skype s'.
Proof.
  intros Ht. unfold login_if_needed. unfold bind at 1, get_state.
  case_bool_decide as E.
  - intros H. apply bind_ok_inv in H as (u & s1 & El & H).
    apply login_ensures_token in El.
    match type of H with
    | ?m s1 = _ =>
        assert (P : preserves has_skype m);
        [|specialize (P s1 El); cbv beta in P; rewrite H in P; exact P]
    end.
    repeat first
      [ apply preserves_modify; intros s2 H2; exact H2
      | apply preserves_ret | apply preserves_lift | apply preserves_get_state
      | apply preserves_bind; [|intros ?]
      | match goal with
        | |- preserves _ (match ?x with _ => _ end) => destruct x
        end ].
  - intros [= _ <-]. apply Ht, E.
Qed.

Lemma bind_eq_ok {A B} (m : action A) (k : A -> action B) s a s1 :
  m s = (Ok a, s1) -> bind m k s = k a s1.
Proof. intros H. unfold bind. now rewrite H. Qed.

Lemma bind_eq_raise {A B} (m : action A) (k : A -> action B) s e s1 :
  m s = (Raise e, s1) -> bind m k s = (Raise e, s1).
Proof. intros H. unfold bind. now rewrite H. Qed.

Lemma init_inv user pwd tokenFile s :
  steps_hold_token s ->
  steps_hold_token (snd (__init__ user pwd tokenFile s))
  /\ (forall a, fst (__init__ user pwd tokenFile s) = Ok a ->
      has_skype (snd (__init__ user pwd tokenFile s))).
Proof.
  intros Hs. unfold __init__.
  rewrite (bind_eq_ok (modify new_object) _ s tt _ eq_refl).
  rewrite (bind_eq_ok (modify (with_tokens ∅)) _ _ tt _ eq_refl).
  rewrite (bind_eq_ok (modify (with_tokenExpiry ∅)) _ _ tt _ eq_refl).
  set (s0 := with_tokenExpiry ∅ (with_tokens ∅ (new_object s))).
  assert (H0 : steps_hold_token s0) by exact Hs.
  destruct (load_cache_inv tokenFile s0) as [Hh Hc].
  destruct (load_cache tokenFile s0) as [[[]|e] s1] eqn:E1; cbn [snd] in *.
  2: { rewrite (bind_eq_raise _ _ _ _ _ E1). cbn [fst snd].
       split; [|discriminate]. unfold steps_hold_token. now rewrite Hh. }
  rewrite (bind_eq_ok _ _ _ _ _ E1).
  assert (H1 : steps_hold_token s1)
    by (unfold steps_hold_token; now rewrite Hh).
  assert (T1 : tokens s1 <> ∅ -> has_skype s1).
  { destruct Hc as [[Hc _]|Hc]; [|auto]. intros N. now rewrite Hc in N. }
  pose proof (login_if_needed_steps user pwd tokenFile s1 H1) as H2.
  pose proof (login_if_needed_token user pwd tokenFile s1) as T2.
  destruct (login_if_needed user pwd tokenFile s1) as [[[]|e] s2] eqn:E2;
    cbn [snd] in *.
  2: { rewrite (bind_eq_raise _ _ _ _ _ E2). cbn [fst snd].
       split; [exact H2 | discriminate]. }
  rewrite (bind_eq_ok _ _ _ _ _ E2).
  specialize (T2 _ _ T1 eq_refl).
  match goal with
  | |- context [snd (?m s2)] =>
      assert (P : preserves (fun s => has_skype s /\ steps_hold_token s) m)
  end.
  { preserves_tac (stable_io _ stable_token_held) stable_token_held. }
  destruct (P s2 (conj T2 H2)) as [P1 P2]. auto.
Qed.

(** *** Calls of a client *)

Lemma invoke_keeps_token {A} (func : action A) :
  client_code func ->
  preserves (fun s => has_skype s /\ steps_hold_token s) (invoke func).
Proof.
  intros Hc s [[Ht He] Hh]. unfold invoke, bind, note, modify.
  match goal with
  | |- context [func ?s0] =>
      destruct (Hc s0) as (Et & Ee & evs & Eh & Hs);
      destruct (func s0) as [[a|e] s1]
  end; cbn [snd tokens tokenExpiry history with_history] in *;
    unfold has_skype, steps_hold_token; rewrite Et, Ee, Eh;
    (split; [split; assumption|]);
    rewrite !Forall_app; (split; [split; [assumption | repeat constructor]|]);
    (eapply Forall_impl; [exact Hs|]); intros []; cbn; tauto.
Qed.

Lemma run_calls_keep_token calls s :
  Forall client_call_ok calls ->
  has_skype s /\ steps_hold_token s ->
  has_skype (run_calls calls s) /\ steps_hold_token (run_calls calls s).
Proof.
  intros Hc. revert s. induction Hc as [|[A codes func] calls Hf _ IH];
    intros s Hs; cbn [run_calls]; [exact Hs|].
  apply IH. apply (preserves_resubscribeOn _ stable_token_held); [|exact Hs].
  now apply invoke_keeps_token.
Qed.

(** *** The token file *)

Lemma load_cache_valid tokenFile path tok e x wall host s :
  truthy_path tokenFile = Some path ->
  fs s !! path = Some [tok; e; host] ->
  read_expiry (timezone s) e = Ok x -> datetime_now s = Ok wall ->
  (wall <? x)%Z = true ->
  load_cache tokenFile s
  = (Ok tt,
     with_msgsHost (Some host)
       (with_tokenExpiry (<["skype" := x]> (tokenExpiry s))
          (with_tokens (<["skype" := tok]> (tokens s)) s))).
Proof.
  intros Hp Hf He Hw Hn. unfold load_cache, bind, get_state, lift, modify.
  rewrite Hp, Hf, He, Hw, Hn. reflexivity.
Qed.

Lemma load_cache_stale tokenFile path tok e x wall host s :
  truthy_path tokenFile = Some path ->
  fs s !! path = Some [tok; e; host] ->
  read_expiry (timezone s) e = Ok x -> datetime_now s = Ok wall ->
  (wall <? x)%Z = false ->
  load_cache tokenFile s = (Ok tt, s).
Proof.
  intros Hp Hf He Hw Hn. unfold load_cache, bind, get_state, lift, modify.
  rewrite Hp, Hf, He, Hw, Hn. reflexivity.
Qed.

(** A time conversion that fails stops the reading of the token file. *)
Lemma load_cache_raise tokenFile path tok e host s :
  truthy_path tokenFile = Some path ->
  fs s !! path = Some [tok; e; host] ->
  match read_expiry (timezone s) e, datetime_now s with
  | Ok _, Ok _ => True
  | Raise err, _ | Ok _, Raise err => load_cache tokenFile s = (Raise err, s)
  end.
Proof.
  intros Hp Hf. unfold load_cache, bind, get_state, lift.
  rewrite Hp, Hf.
  destruct (read_expiry (timezone s) e) as [x|err]; [|reflexivity].
  destruct (datetime_now s) as [wall|err]; [exact Logic.I | reflexivity].
Qed.

(** A method that starts by logging its entry: the entry is the next event
    of the trace. *)
Lemma entered_first m {A} (k : unit -> action A) s :
  (forall h, preserves (extends h) (k tt)) ->
  extends (history s ++ [Entered m (tokens s) (tokenExpiry s) (now s)])
    (snd (bind (enter m) k s)).
Proof.
  intros Hk. unfold bind, enter, note, modify. apply Hk.
  exists []. cbn. now rewrite app_nil_r.
Qed.

Ltac extends_tac h :=
  repeat first
    [ apply preserves_modify; intros ? H; exact H
    | progress preserves_tac (stable_io _ (stable_extends h)) (stable_extends h) ].

Lemma getRegToken_first_event s :
  extends (history s
           ++ [Entered m_getRegToken (tokens s) (tokenExpiry s) (now s)])
    (snd (getRegToken s)).
Proof.
  rewrite getRegToken_unfold. unfold getRegToken_body.
  apply entered_first. intros h. extends_tac h.
Qed.

Lemma login_first_event user pwd s :
  extends (history s ++ [Entered m_login (tokens s) (tokenExpiry s) (now s)])
    (snd (login user pwd s)).
Proof.
  unfold login. apply entered_first. intros h. extends_tac h.
Qed.

Lemma invoke_extends h {A} (func : action A) :
  client_code func -> preserves (extends h) (invoke func).
Proof.
  intros Hc s [evs Hs]. unfold invoke, bind, note, modify.
  match goal with
  | |- context [func ?s0] =>
      destruct (Hc s0) as (_ & _ & evs' & Eh & _);
      destruct (func s0) as [[a|e] s1]
  end; cbn [snd history with_history] in *; unfold extends;
    rewrite Eh, Hs, <- !app_assoc; eauto.
Qed.

Lemma run_calls_extend h calls s :
  Forall client_call_ok calls -> extends h s -> extends h (run_calls calls s).
Proof.
  intros Hc. revert s. induction Hc as [|[A codes func] calls Hf _ IH];
    intros s Hs; cbn [run_calls]; [exact Hs|].
  apply IH. apply (preserves_resubscribeOn _ (stable_extends h)); [|exact Hs].
  now apply invoke_extends.
Qed.

Lemma extends_cons h e s :
  extends (h ++ [e]) s -> exists evs, history s = h ++ e :: evs.
Proof. intros [evs H]. exists evs. now rewrite H, <- app_assoc. Qed.

(** With a readable token file, the session starts with [getRegToken] under
    the cached token when the local time is before the file's expiry, and
    with [login] otherwise. *)
Lemma session_first_event user pwd tokenFile calls s path tok e x wall host :
  Forall client_call_ok calls ->
  truthy_path tokenFile = Some path ->
  fs s !! path = Some [tok; e; host] ->
  read_expiry (timezone s) e = Ok x -> datetime_now s = Ok wall ->
  exists evs,
    history (session user pwd tokenFile calls s)
    = history s
      ++ (if (wall <? x)%Z
          then Entered m_getRegToken (<["skype" := tok]> ∅)
                 (<["skype" := x]> ∅) (now s)
          else Entered m_login ∅ ∅ (now s)) :: evs.
Proof.
  intros Hc Hp Hf He Hw. apply extends_cons.
  set (first := if (wall <? x)%Z then _ else _).
  unfold session.
  assert (G : forall r s1, __init__ user pwd tokenFile s = (r, s1) ->
                           extends (history s ++ [first]) s1).
  { unfold __init__.
    rewrite (bind_eq_ok (modify new_object) _ s tt _ eq_refl).
    rewrite (bind_eq_ok (modify (with_tokens ∅)) _ _ tt _ eq_refl).
    rewrite (bind_eq_ok (modify (with_tokenExpiry ∅)) _ _ tt _ eq_refl).
    set (s0 := with_tokenExpiry ∅ (with_tokens ∅ (new_object s))).
    destruct (wall <? x)%Z eqn:Hn.
    - rewrite (bind_eq_ok _ _ _ _ _
                 (load_cache_valid tokenFile path tok e x wall host s0
                    Hp Hf He Hw Hn)).
      set (s1 := with_msgsHost _ _).
      assert (E : login_if_needed user pwd tokenFile s1 = (Ok tt, s1)).
      { unfold login_if_needed, bind, get_state.
        rewrite bool_decide_eq_false_2; [reflexivity|].
        cbn. apply insert_non_empty. }
      rewrite (bind_eq_ok _ _ _ _ _ E).
      pose proof (getRegToken_first_event s1) as F.
      change (history s1 ++ _) with (history s ++ [first]) in F.
      intros r s2. unfold bind at 1.
      destruct (getRegToken s1) as [[[]|e'] s1']; cbn [snd] in F;
        [|intros [= _ <-]; exact F].
      intros H.
      match type of H with
      | ?m s1' = _ =>
          assert (P : preserves (extends (history s ++ [first])) m)
            by extends_tac (history s ++ [first]);
          specialize (P s1' F); rewrite H in P; exact P
      end.
    - rewrite (bind_eq_ok _ _ _ _ _
                 (load_cache_stale tokenFile path tok e x wall host s0
                    Hp Hf He Hw Hn)).
      intros r s2. unfold bind at 1.
      unfold login_if_needed at 1. unfold bind at 1, get_state.
      rewrite bool_decide_eq_true_2 by reflexivity.
      pose proof (login_first_event user pwd s0) as F.
      change (history s0 ++ _) with (history s ++ [first]) in F.
      unfold bind at 1.
      destruct (login user pwd s0) as [[[]|e'] s1']; cbn [snd] in F;
        [|intros [= _ <-]; exact F].
      intros H.
      match type of H with
      | (let (_, _) := ?m s1' in _) = _ =>
          assert (P : preserves (extends (history s ++ [first])) m)
            by extends_tac (history s ++ [first]);
          specialize (P s1' F);
          destruct (m s1') as [[[]|e''] s1'']; cbn [snd] in P
      end; [|injection H as _ <-; exact P].
      match type of H with
      | ?m s1'' = _ =>
          assert (Q : preserves (extends (history s ++ [first])) m)
            by extends_tac (history s ++ [first]);
          specialize (Q s1'' P); rewrite H in Q; exact Q
      end. }
  destruct (__init__ user pwd tokenFile s) as [[[]|e'] s1] eqn:E.
  - apply run_calls_extend; [exact Hc|]. exact (G _ _ eq_refl).
  - exact (G _ _ eq_refl).
Qed.

Lemma token_stale_not_fresh z e :
  token_stale z e = true -> ~ token_fresh z e.
Proof.
  destruct e as [r|m toks expiry t|]; cbn [token_stale token_fresh];
    try discriminate.
  intros H F. apply andb_true_iff in H as [Hm Hx].
  destruct (F Hm) as (_ & x & wall & E & Ew & Hlt). rewrite E, Ew in Hx.
  apply Z.leb_le in Hx. lia.
Qed.

(** A constructor that fails on the token file enters no method. *)
Lemma session_cache_raise user pwd tokenFile calls s path tok e host :
  truthy_path tokenFile = Some path ->
  fs s !! path = Some [tok; e; host] ->
  match read_expiry (timezone s) e, datetime_now s with
  | Ok _, Ok _ => True
  | _, _ => history (session user pwd tokenFile calls s) = history s
  end.
Proof.
  intros Hp Hf.
  pose proof (load_cache_raise tokenFile path tok e host
                (with_tokenExpiry ∅ (with_tokens ∅ (new_object s))) Hp Hf)
    as L.
  change (timezone (with_tokenExpiry ∅ (with_tokens ∅ (new_object s))))
    with (timezone s) in L.
  change (datetime_now (with_tokenExpiry ∅ (with_tokens ∅ (new_object s))))
    with (datetime_now s) in L.
  assert (G : forall err,
             load_cache tokenFile
               (with_tokenExpiry ∅ (with_tokens ∅ (new_object s)))
             = (Raise err, with_tokenExpiry ∅ (with_tokens ∅ (new_object s)))
             -> history (session user pwd tokenFile calls s) = history s).
  { intros err E. unfold session, __init__.
    rewrite (bind_eq_ok (modify new_object) _ s tt _ eq_refl).
    rewrite (bind_eq_ok (modify (with_tokens ∅)) _ _ tt _ eq_refl).
    rewrite (bind_eq_ok (modify (with_tokenExpiry ∅)) _ _ tt _ eq_refl).
    rewrite (bind_eq_raise _ _ _ _ _ E). reflexivity. }
  destruct (read_expiry (timezone s) e) as [x|err]; [|exact (G _ L)].
  destruct (datetime_now s) as [wall|err]; [exact Logic.I | exact (G _ L)].
Qed.

(** * Properties of sessions *)

(** C9, as stated: in every run of a session, each of [getRegToken],
    [makeEndpoint] and [subscribe] is entered with a session token whose
    expiry is strictly later than the clock.  Here, in the zone UTC, where
    local time is the timestamp, the connection is constructed from a token
    file that expires 100 seconds later, and a wrapped call is answered by a
    404 after 200 seconds: the resubscription enters [getRegToken] and
    [subscribe] after the expiry. *)
Lemma session_stale_token_counterexample :
  let calls := [Wrapped Response [404]%Z get_conversations] in
  let s := cached_start late_404_script in
  Forall client_call_ok calls /\ history s = []
  /\ ~ Forall (token_fresh (timezone s))
        (history (session None None (Some "tokens.txt") calls s)).
Proof.
  cbv zeta. split; [|split; [reflexivity|]].
  - constructor; [apply call_is_client_code | constructor].
  - intros H.
    assert (E : existsb (token_stale utc)
                  (history
                     (session None None (Some "tokens.txt")
                        [Wrapped Response [404]%Z get_conversations]
                        (cached_start late_404_script))) = true)
      by (vm_compute; reflexivity).
    apply existsb_exists in E as (e & Hin & Hst).
    exact (token_stale_not_fresh utc e Hst
             (proj1 (List.Forall_forall _ _) H e Hin)).
Qed.

(** C9, amended.  In every run of a session (construction with or without a
    token file, then any sequence of wrapped calls of a client), each of
    [getRegToken], [makeEndpoint] and [subscribe] is entered with a session
    token and its expiry in [self.tokens] and [self.tokenExpiry].  The expiry
    is compared with the clock once, when the token file is read, and as
    naive local datetimes: when the file's expiry line is read as an integer
    and both that timestamp and the clock convert to local time, the session
    starts with [getRegToken] under the cached token if the local time of
    the clock is strictly before the local time of the expiry (so at that
    first step the constructor's own test accepts the token), and with
    [login] otherwise; when the line is not an integer or a conversion
    fails, the constructor raises and no method is entered. *)
Theorem session_steps_hold_token user pwd tokenFile calls s :
  Forall client_call_ok calls -> history s = [] ->
  Forall holds_token (history (session user pwd tokenFile calls s))
  /\ forall path tok e host,
       truthy_path tokenFile = Some path ->
       fs s !! path = Some [tok; e; host] ->
       match read_expiry (timezone s) e, datetime_now s with
       | Ok x, Ok wall =>
           exists first evs,
             history (session user pwd tokenFile calls s) = first :: evs
             /\ first = (if (wall <? x)%Z
                         then Entered m_getRegToken (<["skype" := tok]> ∅)
                                (<["skype" := x]> ∅) (now s)
                         else Entered m_login ∅ ∅ (now s))
             /\ token_fresh (timezone s) first
       | _, _ => history (session user pwd tokenFile calls s) = []
       end.
Proof.
  intros Hc Hh. split.
  - unfold session.
    assert (H0 : steps_hold_token s)
      by (unfold steps_hold_token; rewrite Hh; constructor).
    destruct (init_inv user pwd tokenFile s H0) as [H1 H2].
    destruct (__init__ user pwd tokenFile s) as [[[]|e] s1];
      cbn [fst snd] in *; [|exact H1].
    apply (run_calls_keep_token calls s1 Hc). split; [|exact H1]. eauto.
  - intros path tok e host Hp Hf.
    pose proof (session_cache_raise user pwd tokenFile calls s path tok e
                  host Hp Hf) as R.
    rewrite Hh in R.
    destruct (read_expiry (timezone s) e) as [x|err] eqn:He; [|exact R].
    destruct (datetime_now s) as [wall|err] eqn:Hw; [|exact R].
    destruct (session_first_event user pwd tokenFile calls s path tok e x
                wall host Hc Hp Hf He Hw) as [evs H].
    rewrite Hh in H. cbn [app] in H.
    eexists _, evs. split; [exact H|]. split; [reflexivity|].
    destruct (Z.ltb_spec wall x) as [Hlt|Hge]; cbn [token_fresh is_step].
    + intros _. split; [rewrite lookup_insert_eq; eauto|].
      exists x, wall. split; [apply lookup_insert_eq|].
      split; [exact Hw | exact Hlt].
    + discriminate.
Qed.

Lemma session_steps_hold_token_witness :
  Forall client_call_ok [Wrapped Response [404]%Z get_conversations]
  /\ history (cached_start late_404_script) = []
  /\ Forall holds_token
       (history
          (session None None (Some "tokens.txt")
             [Wrapped Response [404]%Z get_conversations]
             (cached_start late_404_script))).
Proof.
  assert (Hc : Forall client_call_ok
                 [Wrapped Response [404]%Z get_conversations])
    by (constructor; [apply call_is_client_code | constructor]).
  split; [exact Hc|]. split; [reflexivity|].
  exact (proj1 (session_steps_hold_token None None (Some "tokens.txt")
                  [Wrapped Response [404]%Z get_conversations]
                  (cached_start late_404_script) Hc eq_refl)).
Defined.

(** * More on the challenge hash *)

(** The character [hexChars[x & 15]]. *)
Lemma hexChars_land x :
  str_index_Z hexChars (Z.land x 15) = Ok (SHA256.hex_digit x).
Proof.
  change 15%Z with (Z.ones 4). rewrite Z.land_ones by lia.
  change (2 ^ 4)%Z with 16%Z. unfold SHA256.hex_digit.
  pose proof (Z.mod_pos_bound x 16 ltac:(lia)) as H.
  set (k := (x mod 16)%Z) in *.
  assert (E : (k = 0 \/ k = 1 \/ k = 2 \/ k = 3 \/ k = 4 \/ k = 5 \/ k = 6
               \/ k = 7 \/ k = 8 \/ k = 9 \/ k = 10 \/ k = 11 \/ k = 12
               \/ k = 13 \/ k = 14 \/ k = 15)%Z) by lia.
  clearbody k.
  repeat (destruct E as [-> | E]; [reflexivity|]).
  subst k. reflexivity.
Qed.

Lemma hex_digit_value x :
  digit_value (SHA256.hex_digit x) = Some (x mod 16)%Z
  /\ is_lower_hex (SHA256.hex_digit x) = true.
Proof.
  unfold SHA256.hex_digit.
  pose proof (Z.mod_pos_bound x 16 ltac:(lia)) as H.
  set (k := (x mod 16)%Z) in *.
  assert (E : (k = 0 \/ k = 1 \/ k = 2 \/ k = 3 \/ k = 4 \/ k = 5 \/ k = 6
               \/ k = 7 \/ k = 8 \/ k = 9 \/ k = 10 \/ k = 11 \/ k = 12
               \/ k = 13 \/ k = 14 \/ k = 15)%Z) by lia.
  clearbody k.
  repeat (destruct E as [-> | E]; [split; reflexivity|]).
  subst k. split; reflexivity.
Qed.

(** The eight characters [int32ToHexString] returns. *)
Lemma int32ToHexString_eq n :
  int32ToHexString n
  = Ok (String (SHA256.hex_digit (Z.shiftr n 4))
       (String (SHA256.hex_digit (Z.shiftr n 0))
       (String (SHA256.hex_digit (Z.shiftr n 12))
       (String (SHA256.hex_digit (Z.shiftr n 8))
       (String (SHA256.hex_digit (Z.shiftr n 20))
       (String (SHA256.hex_digit (Z.shiftr n 16))
       (String (SHA256.hex_digit (Z.shiftr n 28))
       (String (SHA256.hex_digit (Z.shiftr n 24)) "")))))))).
Proof.
  unfold int32ToHexString, range. cbn [seq for_each].
  rewrite !hexChars_land. cbn [rbind]. reflexivity.
Qed.

(** Eight hexadecimal digits, paired into bytes, spell [n mod 2^32]. *)
Lemma nibbles_sum n :
  (((n / 16) mod 16 * 16 + n mod 16)
   + ((n / 4096) mod 16 * 16 + (n / 256) mod 16) * 256
   + ((n / 1048576) mod 16 * 16 + (n / 65536) mod 16) * 65536
   + ((n / 268435456) mod 16 * 16 + (n / 16777216) mod 16) * 16777216
   = n mod 4294967296)%Z.
Proof.
  change (n mod 4294967296)%Z with (n mod (268435456 * 16))%Z.
  rewrite (Z.rem_mul_r n 268435456 16) by lia.
  change (n mod 268435456)%Z with (n mod (16777216 * 16))%Z.
  rewrite (Z.rem_mul_r n 16777216 16) by lia.
  change (n mod 16777216)%Z with (n mod (1048576 * 16))%Z.
  rewrite (Z.rem_mul_r n 1048576 16) by lia.
  change (n mod 1048576)%Z with (n mod (65536 * 16))%Z.
  rewrite (Z.rem_mul_r n 65536 16) by lia.
  change (n mod 65536)%Z with (n mod (4096 * 16))%Z.
  rewrite (Z.rem_mul_r n 4096 16) by lia.
  change (n mod 4096)%Z with (n mod (256 * 16))%Z.
  rewrite (Z.rem_mul_r n 256 16) by lia.
  change (n mod 256)%Z with (n mod (16 * 16))%Z.
  rewrite (Z.rem_mul_r n 16 16) by lia.
  lia.
Qed.

(** X1.  For every integer [n], [int32ToHexString] returns eight lowercase
    hexadecimal characters, and reading them back two characters per byte,
    the first pair in the least significant byte (the way [getMac256Hash]
    reads the digest), gives [n mod 2^32]: the rendering is little-endian by
    bytes and drops what lies above 32 bits. *)
Theorem int32ToHexString_spells_little_endian (n : Z) :
  exists s,
    int32ToHexString n = Ok s
    /\ String.length s = 8
    /\ str_all is_lower_hex s = true
    /\ le_hex_word s 0 = Ok (n mod 2 ^ 32)%Z.
Proof.
  eexists. split; [apply int32ToHexString_eq|].
  split; [reflexivity|]. split.
  - cbn [str_all]. rewrite !(proj2 (hex_digit_value _)). reflexivity.
  - unfold le_hex_word, str_slice. cbn [Nat.mul Nat.add Nat.sub substring].
    assert (P : forall x y,
               int_base (String (SHA256.hex_digit x)
                           (String (SHA256.hex_digit y) "")) 16
               = Ok (x mod 16 * 16 + y mod 16)%Z).
    { intros x y. apply int_base_hex2;
        try apply hex_digit_value; apply Z.mod_pos_bound; lia. }
    rewrite !P. cbn [rbind]. f_equal.
    rewrite !Z.shiftr_div_pow2 by lia.
    change (2 ^ 0)%Z with 1%Z. rewrite Z.div_1_r.
    change (2 ^ 4)%Z with 16%Z. change (2 ^ 8)%Z with 256%Z.
    change (2 ^ 12)%Z with 4096%Z. change (2 ^ 16)%Z with 65536%Z.
    change (2 ^ 20)%Z with 1048576%Z. change (2 ^ 24)%Z with 16777216%Z.
    change (2 ^ 28)%Z with 268435456%Z.
    change (256 ^ 2)%Z with 65536%Z. change (256 ^ 3)%Z with 16777216%Z.
    change (2 ^ 32)%Z with 4294967296%Z.
    apply nibbles_sum.
Qed.

Lemma bin_val_nonneg s acc : (0 <= acc)%Z -> (0 <= bin_val acc s)%Z.
Proof.
  revert acc. induction s as [|c s IH]; intros acc H; [exact H|].
  cbn [bin_val]. apply IH. destruct (bit_of c); cbn [Z.b2z]; lia.
Qed.

Lemma xor_str_comm x y : xor_str x y = xor_str y x.
Proof.
  revert y. induction x as [|a x IH]; intros [|b y]; cbn [xor_str];
    try reflexivity.
  rewrite IH, (Ascii.eqb_sym a b). reflexivity.
Qed.

Lemma xor_operands_swap a b :
  xor_operands b a = (snd (xor_operands a b), fst (xor_operands a b)).
Proof.
  unfold xor_operands.
  set (la := String.length (format_b a)).
  set (lb := String.length (format_b b)).
  replace (Z.to_nat (Z.abs (Z.of_nat lb - Z.of_nat la)))
    with (Z.to_nat (Z.abs (Z.of_nat la - Z.of_nat lb))) by lia.
  destruct (la <? lb)%nat eqn:E1; destruct (lb <? la)%nat eqn:E2;
    try reflexivity.
  apply Nat.ltb_lt in E1, E2. lia.
Qed.

(** X2.  [int64Xor] never raises, whatever the two integers: the minus sign
    of a negative operand is compared like any other character.  The result
    is never negative and does not depend on the order of the operands. *)
Theorem int64Xor_any_integers (a b : Z) :
  exists v, int64Xor a b = Ok v /\ (0 <= v)%Z /\ int64Xor b a = Ok v.
Proof.
  rewrite !int64Xor_unfold. eexists. split; [reflexivity|]. split.
  - apply bin_val_nonneg. lia.
  - rewrite xor_operands_swap. cbn [fst snd]. now rewrite xor_str_comm.
Qed.

(** ** cS64 and its seed words *)

Lemma cS64_loop_ok pdwData a b c d :
  exists v,
    for_each (range (length pdwData / 2))
      (fun _ v => cS64_body pdwData a b c d v) (Cs64 0 0 0 0) = Ok v.
Proof.
  match goal with
  | |- context [for_each (range ?n) ?body ?v0] =>
      destruct (for_range_inv (fun i v => pos v = 2 * i) n body v0)
        as (v & E & _)
  end.
  - reflexivity.
  - intros i v Hi Hv. unfold cS64_body, list_index.
    assert (Hdiv : 2 * (length pdwData / 2) <= length pdwData)
      by apply Nat.Div0.mul_div_le.
    destruct (lookup_lt_is_Some_2 pdwData (pos v)) as [x ->]; [lia|].
    cbn [rbind].
    destruct (lookup_lt_is_Some_2 pdwData (pos v + 1)) as [x' ->]; [lia|].
    cbn [rbind]. eexists. split; [reflexivity|]. cbn [pos]. lia.
  - eauto.
Qed.

Lemma land_MODULUS_idem h : Z.land (Z.land h MODULUS) MODULUS = Z.land h MODULUS.
Proof. rewrite <- Z.land_assoc, Z.land_diag. reflexivity. Qed.

(** X3.  On a word sequence that passes its guard (at least two words, an
    even number of them), [cS64] raises [IndexError] when given fewer than
    four seed words.  Given four or more it returns two values in
    [0, MODULUS), ignores the seed words after the fourth, and reads each of
    the four through its low 31 bits only. *)
Theorem cS64_reads_four_masked_seeds (pdwData pInHash : list Z) :
  2 <= length pdwData -> Nat.odd (length pdwData) = false ->
  (length pInHash < 4 -> cS64 pdwData pInHash = Raise IndexError)
  /\ (forall h0 h1 h2 h3 more,
        pInHash = h0 :: h1 :: h2 :: h3 :: more ->
        exists qwMAC qwSum,
          cS64 pdwData pInHash = Ok (Some [qwMAC; qwSum])
          /\ (0 <= qwMAC < MODULUS)%Z /\ (0 <= qwSum < MODULUS)%Z
          /\ cS64 pdwData
               [Z.land h0 MODULUS; Z.land h1 MODULUS;
                Z.land h2 MODULUS; Z.land h3 MODULUS]
             = Ok (Some [qwMAC; qwSum])).
Proof.
  intros Hlen Hodd.
  assert (G : ((length pdwData <? 2)%nat
               || (Z.land (Z.of_nat (length pdwData)) 1 =? 1)%Z) = false).
  { rewrite land_1_odd, Hodd, orb_false_r. apply Nat.ltb_ge. exact Hlen. }
  split.
  - intros Hs. unfold cS64. rewrite G.
    destruct pInHash as [|h0 [|h1 [|h2 [|h3 more]]]];
      cbn [list_index lookup list_lookup rbind]; try reflexivity.
    cbn [length] in Hs. lia.
  - intros h0 h1 h2 h3 more ->. unfold cS64. rewrite G.
    cbn [list_index lookup list_lookup rbind].
    rewrite !land_MODULUS_idem.
    destruct (cS64_loop_ok pdwData (Z.land h0 MODULUS) (Z.land h1 MODULUS)
                (Z.land h2 MODULUS) (Z.land h3 MODULUS)) as [v ->].
    cbn [rbind]. eexists _, _. split; [reflexivity|].
    repeat split; try (apply Z.mod_pos_bound; reflexivity).
Qed.

Lemma cS64_reads_four_masked_seeds_witness :
  2 <= length [1; 2]%Z /\ Nat.odd (length [1; 2]%Z) = false
  /\ cS64 [1; 2]%Z [7; 8; 9]%Z = Raise IndexError.
Proof.
  split; [simpl; lia|]. split; [reflexivity|].
  apply (cS64_reads_four_masked_seeds [1; 2]%Z [7; 8; 9]%Z);
    [simpl; lia | reflexivity | simpl; lia].
Defined.

(** ** The result of getMac256Hash *)

(** X4.  The 32 characters [getMac256Hash] returns are one string of 16
    characters written twice. *)
Theorem getMac256Hash_repeats_half (challenge appId key : string) :
  exists p,
    String.length p = 16
    /\ getMac256Hash challenge appId key = Ok (p +:+ p).
Proof.
  unfold getMac256Hash.
  destruct (clearText_words challenge appId) as (ws & -> & Hlen & Hodd).
  destruct (sha256Hash_of_digest challenge key) as (w & ->).
  cbn [rbind]. unfold mac_of. cbn [replicate].
  destruct (cS64_some ws w w w w Hlen Hodd) as (m0 & m1 & -> & _ & _).
  cbn [rbind list_index lookup list_lookup combine map_result].
  rewrite !int64Xor_unfold. cbn [rbind].
  destruct (int32ToHexString_ok
              (bin_val 0 (xor_str (fst (xor_operands w m0))
                            (snd (xor_operands w m0)))))
    as (s0 & -> & L0 & _).
  destruct (int32ToHexString_ok
              (bin_val 0 (xor_str (fst (xor_operands w m1))
                            (snd (xor_operands w m1)))))
    as (s1 & -> & L1 & _).
  cbn [rbind]. exists (s0 +:+ s1). split.
  - rewrite length_append, L0, L1. reflexivity.
  - unfold join. cbn [fold_right].
    rewrite append_empty_r, !append_assoc. reflexivity.
Qed.

Lemma clearText_of_total_length challenge appId :
  String.length (clearText_of challenge appId)
  = 8 * ((String.length challenge + String.length appId) / 8) + 8.
Proof.
  unfold clearText_of. rewrite !length_append, length_str_mul.
  set (n := String.length challenge + String.length appId).
  pose proof (Nat.div_mod_eq n 8) as E.
  pose proof (Nat.mod_upper_bound n 8 ltac:(lia)) as B.
  lia.
Qed.

(** X5.  For a challenge of at least four characters, [getMac256Hash]
    depends on [appId] through its length only: two application ids that
    give padded texts of the same length give the same result. *)
Theorem getMac256Hash_reads_appId_length_only
  (challenge appId appId' key : string) :
  4 <= String.length challenge ->
  (String.length challenge + String.length appId) / 8
  = (String.length challenge + String.length appId') / 8 ->
  getMac256Hash challenge appId key = getMac256Hash challenge appId' key.
Proof.
  intros H4 Hl.
  destruct challenge as [|c0 [|c1 [|c2 [|c3 r]]]];
    try (cbn [String.length] in H4; lia).
  unfold getMac256Hash.
  assert (P : forall a,
             pClearText_of
               (clearText_of (String c0 (String c1 (String c2 (String c3 r)))) a)
             = Ok (replicate
                     (String.length
                        (clearText_of
                           (String c0 (String c1 (String c2 (String c3 r)))) a)
                      / 4)
                     (ord c0 + ord c1 * 256 + ord c2 * 256 ^ 2
                      + ord c3 * 256 ^ 3)%Z)).
  { intros a. unfold clearText_of. rewrite !append_cons.
    apply pClearText_of_replicate. }
  rewrite !P, !clearText_of_total_length, Hl. reflexivity.
Qed.

Lemma getMac256Hash_reads_appId_length_only_witness :
  4 <= String.length "1446654000"
  /\ (String.length "1446654000" + String.length "msmsgs@msnmsgr.com") / 8
     = (String.length "1446654000" + String.length "PROD0090YUAUV{2B") / 8
  /\ getMac256Hash "1446654000" "msmsgs@msnmsgr.com" "Q1P7W2E4J9R8U3S5"
     = getMac256Hash "1446654000" "PROD0090YUAUV{2B" "Q1P7W2E4J9R8U3S5".
Proof.
  split; [simpl; lia|]. split; [reflexivity|].
  apply (getMac256Hash_reads_appId_length_only "1446654000"
           "msmsgs@msnmsgr.com" "PROD0090YUAUV{2B" "Q1P7W2E4J9R8U3S5");
    [simpl; lia | reflexivity].
Defined.

(** * More on the transport primitive *)

(** X6.  A call whose [auth] asks for a token the connection does not hold
    raises [KeyError] with the name of that token before anything is sent:
    the state, the shared default headers included, is unchanged. *)
Theorem call_missing_token method url codes auth headers params data json s :
  (auth = Some Auth_Skype /\ tokens s !! "skype" = None)
  \/ (auth = Some Auth_Reg /\ tokens s !! "reg" = None) ->
  __call__ method url codes auth headers params data json s
  = (Raise (KeyError (if decide (auth = Some Auth_Skype)
                      then "skype" else "reg")), s).
Proof.
  intros H. apply call_eq_raise. unfold auth_headers, dict_get.
  destruct H as [[-> H] | [-> H]].
  - rewrite decide_True by reflexivity. now rewrite H.
  - rewrite decide_False by discriminate.
    rewrite decide_True by reflexivity. now rewrite H.
Qed.

Lemma call_missing_token_witness :
  let s := with_tokens ∅ (connected [(1%Z, Responds (answer 200 "" ""))]) in
  ((Some Auth_Reg = Some Auth_Skype /\ tokens s !! "skype" = None)
   \/ (Some Auth_Reg = Some Auth_Reg /\ tokens s !! "reg" = None))
  /\ get_conversations s = (Raise (KeyError "reg"), s).
Proof.
  cbv zeta.
  assert (H : (Some Auth_Reg = Some Auth_Skype
               /\ tokens (with_tokens ∅
                   (connected [(1%Z, Responds (answer 200 "" ""))]))
                  !! "skype" = None)
              \/ (Some Auth_Reg = Some Auth_Reg
                  /\ tokens (with_tokens ∅
                       (connected [(1%Z, Responds (answer 200 "" ""))]))
                     !! "reg" = None)).
  { right. split; reflexivity. }
  split; [exact H|].
  exact (call_missing_token "GET" (API_MSGSHOST +:+ "/conversations")
           default_codes (Some Auth_Reg) HeadersDefault None None None _ H).
Defined.

(** What a call that finds its token does to the state. *)
Lemma call_history method url codes auth headers params data json s h :
  auth_headers auth (tokens s) (headers_dict headers s) = Ok h ->
  let s' := snd (__call__ method url codes auth headers params data json s) in
  history s'
  = history s ++ [Sent {| req_method := method; req_url := url;
                           req_headers := h; req_params := params;
                           req_data := data; req_json := json |}]
  /\ default_headers s' = default_headers (keep_headers headers h s)
  /\ tokens s' = tokens s /\ tokenExpiry s' = tokenExpiry s
  /\ msgsHost s' = msgsHost s /\ msgsEndpoint s' = msgsEndpoint s
  /\ fs s' = fs s /\ net s' = tail (net s).
Proof.
  intros Hh. cbv zeta. rewrite (call_eq _ _ _ _ _ _ _ _ _ _ Hh), request_eq.
  rewrite keep_headers_history, keep_headers_net.
  destruct (net s) as [|[dt [resp|]] rest] eqn:En; cbv zeta.
  - destruct headers; cbn; rewrite ?En; repeat split; reflexivity.
  - cbv beta iota. match goal with
    | |- context [@bool_decide ?P ?D] => destruct (@bool_decide P D)
    end; destruct headers; cbn; repeat split; reflexivity.
  - destruct headers; cbn; repeat split; reflexivity.
Qed.



(** * More on getRegToken *)

(** X8.  [getRegToken] on a connection without host raises
    [AttributeError], and on a connection with a host but without session
    token it raises [KeyError] for [skype]; in both cases nothing is sent. *)
Theorem getRegToken_needs_host_and_token (s : state) :
  msgsHost s = None \/ tokens s !! "skype" = None ->
  getRegToken s
  = (Raise (match msgsHost s with
            | None => AttributeError
            | Some _ => KeyError "skype"
            end),
     with_history
       (history s
        ++ [Entered m_getRegToken (tokens s) (tokenExpiry s) (now s)]) s).
Proof.
  intros H. rewrite getRegToken_unfold, getRegToken_body_eq. cbv zeta.
  destruct (msgsHost s) as [host|]; [|reflexivity].
  destruct H as [H|H]; [discriminate|].
  destruct (regToken_mac_ok (now s)) as [mac ->]. now rewrite H.
Qed.

Lemma getRegToken_needs_host_and_token_witness :
  let s := with_tokens ∅ (connected redirect_script) in
  (msgsHost s = None \/ tokens s !! "skype" = None)
  /\ fst (getRegToken s) = Raise (KeyError "skype")
  /\ net (snd (getRegToken s)) = redirect_script.
Proof.
  cbv zeta.
  assert (H : msgsHost (with_tokens ∅ (connected redirect_script)) = None
              \/ tokens (with_tokens ∅ (connected redirect_script))
                 !! "skype" = None) by (right; reflexivity).
  split; [exact H|].
  rewrite (getRegToken_needs_host_and_token _ H). split; reflexivity.
Defined.

(** What a call of [getRegToken] leaves alone. *)
Lemma getRegToken_rec_frame d s :
  let out := getRegToken_rec d s in
  tokenExpiry (snd out) = tokenExpiry s
  /\ msgsEndpoint (snd out) = msgsEndpoint s
  /\ default_headers (snd out) = default_headers s
  /\ fs (snd out) = fs s
  /\ match fst out with
     | Ok _ => exists reg, tokens (snd out) = <["reg" := reg]> (tokens s)
     | Raise _ => tokens (snd out) = tokens s
     end.
Proof.
  cbv zeta. revert s. induction d as [|d IH]; intros s.
  - cbn. repeat split; reflexivity.
  - cbn [getRegToken_rec]. rewrite getRegToken_body_eq. cbv zeta.
    destruct (msgsHost s) as [host|]; [|cbn; repeat split; reflexivity].
    destruct (regToken_mac (now s)) as [mac|e];
      [|cbn; repeat split; reflexivity].
    destruct (tokens s !! "skype") as [tok|];
      [|cbn; repeat split; reflexivity].
    match goal with
    | |- context [requests_request ?r ?s0] =>
        pose proof (request_frame r s0) as F;
        destruct (requests_request r s0) as [[resp|e] s1]
    end; cbv zeta in F; cbn [snd] in F;
      destruct F as (F1 & F2 & F3 & F4 & F5 & F6 & F7);
      cbn [tokens tokenExpiry msgsHost msgsEndpoint default_headers fs
           timezone with_history] in F1, F2, F3, F4, F5, F6, F7;
      [|cbn [fst snd]; repeat split; assumption].
    match goal with
    | |- context [@bool_decide ?P ?D] => destruct (@bool_decide P D)
    end; [|cbn [fst snd]; repeat split; assumption].
    destruct (resp_headers resp !! "Location") as [loc|];
      [|cbn [fst snd]; repeat split; assumption].
    destruct (resp_headers resp !! "Set-RegistrationToken") as [reg|];
      [|cbn [fst snd]; repeat split; assumption].
    destruct (negb _).
    + specialize (IH (with_msgsHost (Some (rsplit_head loc)) s1)).
      cbn [tokens tokenExpiry msgsHost msgsEndpoint default_headers fs
           with_msgsHost] in IH.
      destruct IH as (I1 & I2 & I3 & I4 & I5).
      rewrite I1, I2, I3, I4. repeat split; try assumption.
      destruct (fst (getRegToken_rec d _)).
      * destruct I5 as [r I5]. exists r. now rewrite I5, F1.
      * now rewrite I5.
    + cbn [fst snd tokens tokenExpiry msgsHost msgsEndpoint default_headers
           fs with_tokens].
      repeat split; try assumption. exists reg. now rewrite F1.
Qed.

(** X9.  Whatever the network answers, [getRegToken] leaves the token
    expiries, the endpoint, the shared default headers and the files alone.
    When it raises, the tokens are unchanged; when it returns, the only
    change to the tokens is the registration token. *)
Theorem getRegToken_touches_reg_token_only (s : state) :
  let out := getRegToken s in
  tokenExpiry (snd out) = tokenExpiry s
  /\ msgsEndpoint (snd out) = msgsEndpoint s
  /\ default_headers (snd out) = default_headers s
  /\ fs (snd out) = fs s
  /\ match fst out with
     | Ok _ => exists reg, tokens (snd out) = <["reg" := reg]> (tokens s)
     | Raise _ => tokens (snd out) = tokens s
     end.
Proof. apply getRegToken_rec_frame. Qed.

(** X10.  When the request of [getRegToken] is accepted (201 or 301) but
    the answer lacks [Location] or [Set-RegistrationToken], [getRegToken]
    raises [KeyError]; a redirect is no exception, since both headers are
    read before the location is compared.  One exchange is used; tokens and
    host are unchanged. *)
Theorem getRegToken_missing_header s host tok dt resp rest :
  msgsHost s = Some host ->
  tokens s !! "skype" = Some tok ->
  net s = (dt, Responds resp) :: rest ->
  status_code resp ∈ [201; 301]%Z ->
  resp_headers resp !! "Location" = None
  \/ resp_headers resp !! "Set-RegistrationToken" = None ->
  let out := getRegToken s in
  (exists k, fst out = Raise (KeyError k))
  /\ tokens (snd out) = tokens s
  /\ msgsHost (snd out) = Some host
  /\ net (snd out) = rest
  /\ now (snd out) = (now s + dt)%Z.
Proof.
  intros Hh Ht Hn Hc Hm. cbv zeta.
  rewrite getRegToken_unfold, getRegToken_body_eq. cbv zeta.
  rewrite Hh, Ht. destruct (regToken_mac_ok (now s)) as [mac ->].
  rewrite request_eq. cbn [net with_history]. rewrite Hn. cbv zeta.
  rewrite (bool_decide_eq_true_2 _ Hc).
  destruct (resp_headers resp !! "Location") as [loc|].
  - destruct Hm as [Hm|Hm]; [discriminate|]. rewrite Hm.
    cbn. repeat split; eauto.
  - cbn. repeat split; eauto.
Qed.

Lemma getRegToken_missing_header_witness :
  let resp :=
    {| status_code := 301;
       resp_headers :=
         <["Location" := redirect_host +:+ "/endpoints/ep1"]> ∅;
       text := blank_page |} in
  let s := connected [(1%Z, Responds resp)] in
  (exists k, fst (getRegToken s) = Raise (KeyError k))
  /\ msgsHost (snd (getRegToken s)) = Some API_MSGSHOST.
Proof.
  cbv zeta.
  match goal with
  | |- (exists _, fst (getRegToken (connected [(_, Responds ?r)])) = _)
       /\ _ =>
      destruct (getRegToken_missing_header
                  (connected [(1%Z, Responds r)]) API_MSGSHOST "skypetoken-1"
                  1%Z r [])
        as (H1 & _ & H3 & _)
  end.
  - reflexivity.
  - vm_compute; reflexivity.
  - reflexivity.
  - apply (bool_decide_unpack _). vm_compute. reflexivity.
  - right. vm_compute. reflexivity.
  - split; [exact H1 | exact H3].
Defined.

(** ** The host part of a [Location] *)

Lemma cut_last_no_slash s : no_slash s -> cut_last s = None.
Proof.
  unfold no_slash. induction s as [|c s IH]; [reflexivity|].
  cbn [str_all cut_last]. intros H. apply andb_true_iff in H as [Hc Hs].
  rewrite (IH Hs). destruct (Ascii.eqb c "/"); [discriminate|reflexivity].
Qed.

Lemma cut_last_app a b :
  no_slash b -> cut_last (a +:+ String "/" b) = Some a.
Proof.
  intros Hb. induction a as [|c a IH].
  - rewrite append_nil. cbn [cut_last]. rewrite (cut_last_no_slash _ Hb).
    reflexivity.
  - rewrite append_cons. cbn [cut_last]. now rewrite IH.
Qed.

Lemma rsplit_head_parts (host a b : string) :
  no_slash a -> no_slash b ->
  rsplit_head (host +:+ "/" +:+ a +:+ "/" +:+ b) = host
  /\ rsplit_head (a +:+ "/" +:+ b) = a
  /\ rsplit_head a = a.
Proof.
  intros Ha Hb. unfold rsplit_head. split; [|split].
  - replace (host +:+ "/" +:+ a +:+ "/" +:+ b)
      with ((host +:+ String "/" a) +:+ String "/" b)
      by (rewrite !append_assoc; reflexivity).
    rewrite (cut_last_app _ _ Hb), (cut_last_app _ _ Ha). reflexivity.
  - change (a +:+ "/" +:+ b) with (a +:+ String "/" b).
    rewrite (cut_last_app _ _ Hb), (cut_last_no_slash _ Ha). reflexivity.
  - now rewrite (cut_last_no_slash _ Ha).
Qed.

(** X11.  The host [getRegToken] takes from a [Location], by
    [rsplit] on [/] with at most two splits: the text without its last two
    parts; with a single [/] the text before it; without [/] the whole
    text. *)
Theorem rsplit_head_drops_two_parts (host a b : string) :
  no_slash a -> no_slash b ->
  rsplit_head (host +:+ "/" +:+ a +:+ "/" +:+ b) = host
  /\ rsplit_head (a +:+ "/" +:+ b) = a
  /\ rsplit_head a = a.
Proof. apply rsplit_head_parts. Qed.

Lemma rsplit_head_drops_two_parts_witness :
  no_slash "endpoints" /\ no_slash "ep1"
  /\ rsplit_head (API_MSGSHOST +:+ "/" +:+ "endpoints" +:+ "/" +:+ "ep1")
     = API_MSGSHOST.
Proof.
  split; [reflexivity|]. split; [reflexivity|].
  exact (proj1 (rsplit_head_drops_two_parts API_MSGSHOST "endpoints" "ep1"
                  eq_refl eq_refl)).
Defined.

(** X12.  An accepted answer whose [Location] is [host/endpoints/id], for
    the host the connection is on, ends [getRegToken] after that one
    exchange: the registration token of the answer is stored and the host is
    kept. *)
Theorem getRegToken_same_host s host tok dt resp rest id reg :
  msgsHost s = Some host ->
  tokens s !! "skype" = Some tok ->
  net s = (dt, Responds resp) :: rest ->
  status_code resp ∈ [201; 301]%Z ->
  resp_headers resp !! "Location" = Some (host +:+ "/endpoints/" +:+ id) ->
  no_slash id ->
  resp_headers resp !! "Set-RegistrationToken" = Some reg ->
  let out := getRegToken s in
  fst out = Ok tt
  /\ tokens (snd out) = <["reg" := reg]> (tokens s)
  /\ msgsHost (snd out) = Some host
  /\ net (snd out) = rest
  /\ now (snd out) = (now s + dt)%Z.
Proof.
  intros Hh Ht Hn Hc Hl Hid Hr. cbv zeta.
  destruct (getRegToken_step s host tok dt resp rest _ reg Hh Ht Hn Hc Hl Hr)
    as (mac & _ & _ & Hsame).
  cbv zeta in Hsame. rewrite Hsame.
  - cbn. repeat split. exact Hh.
  - change (host +:+ "/endpoints/" +:+ id)
      with (host +:+ "/" +:+ "endpoints" +:+ "/" +:+ id).
    exact (proj1 (rsplit_head_parts host "endpoints" id eq_refl Hid)).
Qed.

Lemma getRegToken_same_host_witness :
  let resp := answer 201 (API_MSGSHOST +:+ "/endpoints/" +:+ "ep1") "r1" in
  let s := connected [(1%Z, Responds resp)] in
  no_slash "ep1"
  /\ fst (getRegToken s) = Ok tt
  /\ tokens (snd (getRegToken s)) = <["reg" := "r1"]> (tokens s)
  /\ msgsHost (snd (getRegToken s)) = Some API_MSGSHOST.
Proof.
  cbv zeta. split; [reflexivity|].
  destruct (getRegToken_same_host
              (connected [(1%Z, Responds (answer 201
                             (API_MSGSHOST +:+ "/endpoints/" +:+ "ep1") "r1"))])
              API_MSGSHOST "skypetoken-1" 1%Z
              (answer 201 (API_MSGSHOST +:+ "/endpoints/" +:+ "ep1") "r1")
              [] "ep1" "r1")
    as (H1 & H2 & H3 & _).
  - reflexivity.
  - vm_compute; reflexivity.
  - reflexivity.
  - apply (bool_decide_unpack _). vm_compute. reflexivity.
  - vm_compute; reflexivity.
  - reflexivity.
  - vm_compute; reflexivity.
  - split; [exact H1|]. split; [exact H2 | exact H3].
Defined.

(** * makeEndpoint and subscribe *)

(** The headers of a call under [Auth.Reg] that leaves [headers] out. *)
Lemma reg_headers s tok :
  tokens s !! "reg" = Some tok ->
  auth_headers (Some Auth_Reg) (tokens s) (headers_dict HeadersDefault s)
  = Ok (<["RegistrationToken" := tok]> (default_headers s)).
Proof.
  intros Ht. unfold auth_headers, dict_get.
  rewrite decide_False by discriminate.
  rewrite decide_True by reflexivity. now rewrite Ht.
Qed.

(** Projections and updates of a state whose fields are known. *)
Ltac fields :=
  cbn [tokens tokenExpiry msgsHost msgsEndpoint default_headers now net fs
       timezone history with_tokens with_tokenExpiry with_msgsHost
       with_msgsEndpoint with_default_headers with_now with_net with_fs
       with_history keep_headers headers_dict fst snd].

Ltac fields_in H :=
  cbn [tokens tokenExpiry msgsHost msgsEndpoint default_headers now net fs
       timezone history with_tokens with_tokenExpiry with_msgsHost
       with_msgsEndpoint with_default_headers with_now with_net with_fs
       with_history keep_headers headers_dict fst snd] in H.

(** One call under [Auth.Reg], resp. without [auth], run on the script. *)
Ltac reg_call tok Ht :=
  match goal with
  | |- context [__call__ ?m ?u ?c (Some Auth_Reg) HeadersDefault ?p ?d ?j ?s1] =>
      rewrite (call_eq m u c (Some Auth_Reg) HeadersDefault p d j s1 _
                 (reg_headers s1 tok Ht));
      rewrite request_eq; fields; cbv zeta
  end.

(** X13.  Once the [POST] of [makeEndpoint] is accepted with a [Location],
    [msgsEndpoint] is that location whatever happens to the [PUT] that
    follows.  [makeEndpoint] returns exactly when the [PUT] is answered with
    a status in the default codes, and otherwise raises with the endpoint
    already replaced.  Both requests carry the registration token. *)
Theorem makeEndpoint_sets_endpoint_before_put s host tok dt1 r1 rest loc :
  msgsHost s = Some host ->
  tokens s !! "reg" = Some tok ->
  net s = (dt1, Responds r1) :: rest ->
  status_code r1 ∈ default_codes ->
  resp_headers r1 !! "Location" = Some loc ->
  let out := makeEndpoint s in
  msgsEndpoint (snd out) = Some loc
  /\ msgsHost (snd out) = Some host
  /\ tokens (snd out) = tokens s
  /\ net (snd out) = tail rest
  /\ (exists put,
        history (snd out)
        = history s
          ++ [Entered m_makeEndpoint (tokens s) (tokenExpiry s) (now s);
              Sent {| req_method := "POST";
                      req_url := host +:+ "/endpoints";
                      req_headers :=
                        <["RegistrationToken" := tok]> (default_headers s);
                      req_params := None; req_data := None;
                      req_json := Some (JObj []) |};
              Sent put]
        /\ req_method put = "PUT"
        /\ req_url put = loc +:+ "/presenceDocs/messagingService"
        /\ req_headers put !! "RegistrationToken" = Some tok)
  /\ fst out
     = match rest with
       | (_, Responds r2) :: _ =>
           if bool_decide (status_code r2 ∈ default_codes) then Ok tt
           else Raise (SkypeApiException
                         [ArgStr (api_error_message r2 "PUT"
                                    (loc +:+ "/presenceDocs/messagingService"));
                          ArgResp r2])
       | _ => Raise ConnectionError
       end.
Proof.
  destruct s as [tk te mh me dh nw nt f tz hi]. fields.
  intros -> Ht -> Hc Hl. cbv zeta.
  unfold makeEndpoint, bind, enter, note, modify, get_state, lift, attr,
    dict_get, ret.
  fields. reg_call tok Ht.
  rewrite (bool_decide_eq_true_2 _ Hc), Hl.
  fields. reg_call tok Ht.
  assert (L : forall (m : gmap string string),
             <["RegistrationToken" := tok]> m !! "RegistrationToken"
             = Some tok) by (intros; apply lookup_insert_eq).
  destruct rest as [|[dt2 [r2|]] rest'].
  - fields. repeat split; try reflexivity.
    eexists. split; [rewrite <- !app_assoc; reflexivity|].
    repeat split; try reflexivity. apply L.
  - match goal with
    | |- context [@bool_decide ?P ?D] => destruct (@bool_decide P D)
    end; fields; repeat split; try reflexivity;
      (eexists; split; [rewrite <- !app_assoc; reflexivity|];
       repeat split; try reflexivity; apply L).
  - fields. repeat split; try reflexivity.
    eexists. split; [rewrite <- !app_assoc; reflexivity|].
    repeat split; try reflexivity. apply L.
Qed.

Lemma makeEndpoint_sets_endpoint_before_put_witness :
  let loc := API_MSGSHOST +:+ "/endpoints/ep1" in
  let s := connected [(1%Z, Responds (answer 201 loc ""));
                      (1%Z, Responds (answer 404 "" ""))] in
  msgsEndpoint s = None
  /\ msgsEndpoint (snd (makeEndpoint s)) = Some loc
  /\ fst (makeEndpoint s)
     = Raise (SkypeApiException
                [ArgStr (api_error_message (answer 404 "" "") "PUT"
                           (loc +:+ "/presenceDocs/messagingService"));
                 ArgResp (answer 404 "" "")]).
Proof.
  cbv zeta. split; [reflexivity|].
  destruct (makeEndpoint_sets_endpoint_before_put
              (connected [(1%Z, Responds (answer 201
                                    (API_MSGSHOST +:+ "/endpoints/ep1") ""));
                          (1%Z, Responds (answer 404 "" ""))])
              API_MSGSHOST "regtoken-1" 1%Z
              (answer 201 (API_MSGSHOST +:+ "/endpoints/ep1") "")
              [(1%Z, Responds (answer 404 "" ""))]
              (API_MSGSHOST +:+ "/endpoints/ep1"))
    as (H1 & _ & _ & _ & _ & H6).
  - reflexivity.
  - vm_compute; reflexivity.
  - reflexivity.
  - apply (bool_decide_unpack _). vm_compute. reflexivity.
  - vm_compute; reflexivity.
  - split; [exact H1|]. rewrite H6.
    rewrite bool_decide_eq_false_2; [reflexivity|].
    intros H. apply (bool_decide_pack _) in H. vm_compute in H. exact H.
Defined.

(** X14.  When the [POST] of [makeEndpoint] is answered with a status
    outside the default codes, or without [Location], [makeEndpoint] raises
    ([SkypeApiException] with the response in the first case, [KeyError] in
    the second), the [PUT] is not sent and [msgsEndpoint] keeps its value. *)
Theorem makeEndpoint_post_not_usable s host tok dt1 r1 rest :
  msgsHost s = Some host ->
  tokens s !! "reg" = Some tok ->
  net s = (dt1, Responds r1) :: rest ->
  status_code r1 ∉ default_codes \/ resp_headers r1 !! "Location" = None ->
  let out := makeEndpoint s in
  (if bool_decide (status_code r1 ∈ default_codes)
   then exists k, fst out = Raise (KeyError k)
   else fst out
        = Raise (SkypeApiException
                   [ArgStr (api_error_message r1 "POST"
                              (host +:+ "/endpoints"));
                    ArgResp r1]))
  /\ msgsEndpoint (snd out) = msgsEndpoint s
  /\ net (snd out) = rest
  /\ history (snd out)
     = history s
       ++ [Entered m_makeEndpoint (tokens s) (tokenExpiry s) (now s);
           Sent {| req_method := "POST";
                   req_url := host +:+ "/endpoints";
                   req_headers :=
                     <["RegistrationToken" := tok]> (default_headers s);
                   req_params := None; req_data := None;
                   req_json := Some (JObj []) |}].
Proof.
  destruct s as [tk te mh me dh nw nt f tz hi]. fields.
  intros -> Ht -> Hbad. cbv zeta.
  unfold makeEndpoint, bind, enter, note, modify, get_state, lift, attr,
    dict_get, ret.
  fields. reg_call tok Ht.
  case_bool_decide as Hc.
  - destruct Hbad as [Hbad|Hbad]; [contradiction|]. rewrite Hbad. fields.
    rewrite <- !app_assoc. repeat split; eauto.
  - fields. rewrite <- !app_assoc. repeat split; reflexivity.
Qed.

Lemma makeEndpoint_post_not_usable_witness :
  let r1 := {| status_code := 201; resp_headers := ∅; text := blank_page |} in
  let s := connected [(1%Z, Responds r1)] in
  (exists k, fst (makeEndpoint s) = Raise (KeyError k))
  /\ msgsEndpoint (snd (makeEndpoint s)) = None.
Proof.
  cbv zeta.
  match goal with
  | |- (exists _, fst (makeEndpoint ?s) = _) /\ _ =>
      destruct (makeEndpoint_post_not_usable s API_MSGSHOST "regtoken-1" 1%Z
                  {| status_code := 201; resp_headers := ∅;
                     text := blank_page |} [])
        as (H1 & H2 & _)
  end.
  - reflexivity.
  - vm_compute; reflexivity.
  - reflexivity.
  - right. vm_compute. reflexivity.
  - split; [|exact H2].
    rewrite bool_decide_eq_true_2 in H1; [exact H1|].
    apply (bool_decide_unpack _). vm_compute. reflexivity.
Defined.

(** X15.  [makeEndpoint] and [subscribe] on a connection that has a host
    but no registration token raise [KeyError] for [reg] before anything is
    sent. *)
Theorem steps_need_registration_token (s : state) (host : string) :
  msgsHost s = Some host ->
  tokens s !! "reg" = None ->
  makeEndpoint s
  = (Raise (KeyError "reg"),
     with_history
       (history s
        ++ [Entered m_makeEndpoint (tokens s) (tokenExpiry s) (now s)]) s)
  /\ subscribe s
     = (Raise (KeyError "reg"),
        with_history
          (history s
           ++ [Entered m_subscribe (tokens s) (tokenExpiry s) (now s)]) s).
Proof.
  intros Hh Ht.
  assert (E : forall v,
             auth_headers (Some Auth_Reg) (tokens (with_history v s))
               (headers_dict HeadersDefault (with_history v s))
             = Raise (KeyError "reg")).
  { intros v. unfold auth_headers, dict_get.
    rewrite decide_False by discriminate.
    rewrite decide_True by reflexivity. fields. now rewrite Ht. }
  split.
  - unfold makeEndpoint, bind, enter, note, modify, get_state, lift, attr.
    fields. rewrite Hh. now rewrite (call_eq_raise _ _ _ _ _ _ _ _ _ _ (E _)).
  - unfold subscribe, bind, enter, note, modify, get_state, lift, attr.
    fields. rewrite Hh. now rewrite (call_eq_raise _ _ _ _ _ _ _ _ _ _ (E _)).
Qed.

Lemma steps_need_registration_token_witness :
  let s := with_tokens (<["skype" := "skypetoken-1"]> ∅)
             (connected [(1%Z, Responds (answer 200 "" ""))]) in
  msgsHost s = Some API_MSGSHOST /\ tokens s !! "reg" = None
  /\ fst (subscribe s) = Raise (KeyError "reg")
  /\ net (snd (subscribe s)) = net s.
Proof.
  cbv zeta.
  match goal with
  | |- msgsHost ?s = _ /\ _ =>
      assert (H1 : msgsHost s = Some API_MSGSHOST) by reflexivity;
      assert (H2 : tokens s !! "reg" = None) by (vm_compute; reflexivity);
      destruct (steps_need_registration_token s API_MSGSHOST H1 H2) as [_ E]
  end.
  split; [exact H1|]. split; [exact H2|]. rewrite E. split; reflexivity.
Defined.

(** What no call changes. *)
Lemma call_frame method url codes auth headers params data json s :
  let s' := snd (__call__ method url codes auth headers params data json s) in
  tokens s' = tokens s /\ tokenExpiry s' = tokenExpiry s
  /\ msgsHost s' = msgsHost s /\ msgsEndpoint s' = msgsEndpoint s
  /\ fs s' = fs s
  /\ (net s' = net s \/ net s' = tail (net s)).
Proof.
  destruct (auth_headers auth (tokens s) (headers_dict headers s))
    as [h|e] eqn:E.
  - destruct (call_history method url codes auth headers params data json s h E)
      as (_ & _ & H1 & H2 & H3 & H4 & H5 & H6).
    cbv zeta. auto 10.
  - cbv zeta. rewrite (call_eq_raise _ _ _ _ _ _ _ _ _ _ E). cbn [snd].
    auto 10.
Qed.

Lemma subscribe_frame (s : state) :
  let s' := snd (subscribe s) in
  tokens s' = tokens s /\ tokenExpiry s' = tokenExpiry s
  /\ msgsHost s' = msgsHost s /\ msgsEndpoint s' = msgsEndpoint s
  /\ fs s' = fs s
  /\ (net s' = net s \/ net s' = tail (net s)).
Proof.
  cbv zeta.
  unfold subscribe, bind, enter, note, modify, get_state, lift, attr, ret.
  fields.
  destruct (msgsHost s) as [host|] eqn:Hh; fields;
    [|rewrite Hh; auto 10].
  match goal with
  | |- context [__call__ ?m ?u ?c ?a ?h ?p ?d ?j ?s1] =>
      pose proof (call_frame m u c a h p d j s1) as F;
      destruct (__call__ m u c a h p d j s1) as [[resp|e] s2]
  end; cbv zeta in F; fields_in F; rewrite ?Hh in F; exact F.
Qed.

(** X16.  Whatever its outcome, [subscribe] changes no attribute of the
    connection and no file, and uses at most one exchange. *)
Theorem subscribe_changes_no_attribute (s : state) :
  let s' := snd (subscribe s) in
  tokens s' = tokens s /\ tokenExpiry s' = tokenExpiry s
  /\ msgsHost s' = msgsHost s /\ msgsEndpoint s' = msgsEndpoint s
  /\ fs s' = fs s
  /\ (net s' = net s \/ net s' = tail (net s)).
Proof. exact (subscribe_frame s). Qed.

(** What [makeEndpoint] leaves alone, and what it sets when it returns. *)
Lemma makeEndpoint_frame (s : state) :
  let out := makeEndpoint s in
  tokens (snd out) = tokens s /\ tokenExpiry (snd out) = tokenExpiry s
  /\ msgsHost (snd out) = msgsHost s /\ fs (snd out) = fs s
  /\ (forall a, fst out = Ok a -> is_Some (msgsEndpoint (snd out))).
Proof.
  cbv zeta.
  unfold makeEndpoint, bind, enter, note, modify, get_state, lift, attr,
    dict_get, ret.
  fields.
  destruct (msgsHost s) as [host|] eqn:Hh; fields;
    [|rewrite Hh; repeat split; auto; intros a; discriminate].
  match goal with
  | |- context [__call__ ?m ?u ?c ?a ?h ?p ?d ?j ?s1] =>
      pose proof (call_frame m u c a h p d j s1) as F;
      destruct (__call__ m u c a h p d j s1) as [[resp|e] s2]
  end; cbv zeta in F; fields_in F;
    destruct F as (F1 & F2 & F3 & F4 & F5 & _);
    [|fields; rewrite <- Hh; repeat split; auto; intros a; discriminate].
  destruct (resp_headers resp !! "Location") as [loc|];
    [|fields; rewrite <- Hh; repeat split; auto; intros a; discriminate].
  fields.
  match goal with
  | |- context [__call__ ?m ?u ?c ?a ?h ?p ?d ?j ?s1] =>
      pose proof (call_frame m u c a h p d j s1) as G;
      destruct (__call__ m u c a h p d j s1) as [[resp'|e] s3]
  end; cbv zeta in G; fields_in G;
    destruct G as (G1 & G2 & G3 & G4 & G5 & _); fields;
    rewrite G1, G2, G3, G4, G5, <- ?Hh;
    (split; [auto|]); (split; [auto|]); (split; [auto|]); (split; [auto|]);
    intros a; [eauto | discriminate].
Qed.

(** * More on login *)

Ltac plain_call :=
  match goal with
  | |- context [__call__ ?m ?u ?c None ?h ?p ?d ?j ?s1] =>
      rewrite (call_eq m u c None h p d j s1 _ eq_refl);
      rewrite request_eq; fields; cbv zeta
  end.

(** The state [login] leaves when both pages are accepted and complete:
    with the expiry stored when the time conversion succeeds, and with the
    token alone when it fails. *)
Lemma login_pages_eq user pwd s dt1 r1 dt2 r2 rest p e tok ttl :
  net s = (dt1, Responds r1) :: (dt2, Responds r2) :: rest ->
  status_code r1 ∈ default_codes -> status_code r2 ∈ default_codes ->
  has_recaptcha (text r1) = false ->
  pie (text r1) = Some p -> etm (text r1) = Some e ->
  errors (text r2) = [] ->
  skypetoken (text r2) = Some tok -> expires_in (text r2) = Some ttl ->
  let s1 :=
    with_tokens (<["skype" := tok]> (tokens s))
      (with_net rest
         (with_now (now s + dt1 + dt2)%Z
            (with_history
               (history s
                ++ [Entered m_login (tokens s) (tokenExpiry s) (now s);
                    Sent {| req_method := "GET"; req_url := API_LOGIN;
                            req_headers := default_headers s;
                            req_params := None; req_data := None;
                            req_json := None |};
                    Sent {| req_method := "POST"; req_url := API_LOGIN;
                            req_headers := default_headers s;
                            req_params := None;
                            req_data :=
                              Some [("username", user); ("password", pwd);
                                    ("pie", Some p); ("etm", Some e);
                                    ("timezone_field",
                                     Some (tz_descriptor (timezone s)));
                                    ("js_time",
                                     Some (str_of_int (now s + dt1)))];
                            req_json := None |}]) s))) in
  login user pwd s
  = match fromtimestamp (timezone s) (now s + dt1 + ttl) with
    | Ok expiry =>
        (Ok tt,
         with_tokenExpiry (<["skype" := expiry]> (tokenExpiry s)) s1)
    | Raise err => (Raise err, s1)
    end.
Proof.
  destruct s as [tk te mh me dh nw nt f tz hi]. fields.
  intros -> Hc1 Hc2 Hcap Hpie Hetm Herr Htok Httl.
  unfold login, bind, try_except, enter, note, modify, get_state, lift, attr,
    ret, raise.
  fields. plain_call. rewrite (bool_decide_eq_true_2 _ Hc1), Hcap, Hpie, Hetm.
  fields. plain_call. rewrite (bool_decide_eq_true_2 _ Hc2), Herr, Htok, Httl.
  fields. rewrite <- !app_assoc. cbn [app].
  unfold fromtimestamp.
  destruct (tz_localtime tz (nw + dt1 + ttl)) as [[]|expiry]; reflexivity.
Qed.

(** X17.  A login whose form page and answer page are accepted and
    complete stores the session token of the answer page.  The expiry is the
    local time, as [datetime.fromtimestamp] gives it, of the clock read
    between the two requests plus the announced lifetime (the seconds the
    [POST] takes are not counted): when the conversion succeeds [login]
    returns with that expiry stored; when it fails, as it does for a
    lifetime that leads beyond the year 9999, [login] raises the exception
    of the conversion with the token stored and no expiry.  Two requests are
    sent: the [GET] for the form, then the [POST] with the credentials, the
    two hidden fields of the form, the time zone and that clock value. *)
Theorem login_stores_token_and_expiry
  user pwd s dt1 r1 dt2 r2 rest p e tok ttl :
  net s = (dt1, Responds r1) :: (dt2, Responds r2) :: rest ->
  status_code r1 ∈ default_codes -> status_code r2 ∈ default_codes ->
  has_recaptcha (text r1) = false ->
  pie (text r1) = Some p -> etm (text r1) = Some e ->
  errors (text r2) = [] ->
  skypetoken (text r2) = Some tok -> expires_in (text r2) = Some ttl ->
  let out := login user pwd s in
  match fromtimestamp (timezone s) (now s + dt1 + ttl) with
  | Ok expiry =>
      fst out = Ok tt
      /\ tokenExpiry (snd out) = <["skype" := expiry]> (tokenExpiry s)
  | Raise err =>
      fst out = Raise err /\ tokenExpiry (snd out) = tokenExpiry s
  end
  /\ tokens (snd out) = <["skype" := tok]> (tokens s)
  /\ now (snd out) = (now s + dt1 + dt2)%Z
  /\ net (snd out) = rest
  /\ history (snd out)
     = history s
       ++ [Entered m_login (tokens s) (tokenExpiry s) (now s);
           Sent {| req_method := "GET"; req_url := API_LOGIN;
                   req_headers := default_headers s;
                   req_params := None; req_data := None;
                   req_json := None |};
           Sent {| req_method := "POST"; req_url := API_LOGIN;
                   req_headers := default_headers s;
                   req_params := None;
                   req_data :=
                     Some [("username", user); ("password", pwd);
                           ("pie", Some p); ("etm", Some e);
                           ("timezone_field",
                            Some (tz_descriptor (timezone s)));
                           ("js_time", Some (str_of_int (now s + dt1)))];
                   req_json := None |}].
Proof.
  intros Hn Hc1 Hc2 Hcap Hpie Hetm Herr Htok Httl. cbv zeta.
  rewrite (login_pages_eq user pwd s dt1 r1 dt2 r2 rest p e tok ttl)
    by assumption.
  cbv zeta.
  destruct (fromtimestamp (timezone s) (now s + dt1 + ttl));
    repeat split; reflexivity.
Qed.

Lemma login_stores_token_and_expiry_witness :
  let s := fresh_start
             [(2%Z, Responds (page_answer form_page));
              (3%Z, Responds (page_answer
                                (token_page (Some "skypetoken-2")
                                   (Some 86400%Z))))] in
  fst (login (Some "user") (Some "secret") s) = Ok tt
  /\ tokens (snd (login (Some "user") (Some "secret") s))
     = <["skype" := "skypetoken-2"]> ∅
  /\ tokenExpiry (snd (login (Some "user") (Some "secret") s))
     = <["skype" := 1446740402%Z]> ∅
  /\ now (snd (login (Some "user") (Some "secret") s)) = 1446654005%Z.
Proof.
  cbv zeta.
  match goal with
  | |- fst (login ?u ?p ?s) = _ /\ _ =>
      destruct (login_stores_token_and_expiry u p s 2%Z
                  (page_answer form_page) 3%Z
                  (page_answer (token_page (Some "skypetoken-2")
                                  (Some 86400%Z)))
                  [] "pie-1" "etm-1" "skypetoken-2" 86400%Z)
        as ((H1 & H3) & H2 & H4 & _)
  end; try reflexivity;
    try (apply (bool_decide_unpack _); vm_compute; reflexivity).
  split; [exact H1|]. split; [exact H2|]. split; [exact H3 | exact H4].
Defined.

(** X18.  When the login page asks for a captcha, or lacks the [pie] or
    the [etm] field, [login] raises after the [GET] ([SkypeApiException] for
    the captcha, [AttributeError] for a missing field): the credentials are
    not posted, tokens and expiries are unchanged. *)
Theorem login_stops_before_posting user pwd s dt1 r1 rest :
  net s = (dt1, Responds r1) :: rest ->
  status_code r1 ∈ default_codes ->
  has_recaptcha (text r1) = true
  \/ pie (text r1) = None \/ etm (text r1) = None ->
  let out := login user pwd s in
  fst out
  = Raise (if has_recaptcha (text r1)
           then SkypeApiException [ArgStr "Captcha required"]
           else AttributeError)
  /\ tokens (snd out) = tokens s
  /\ tokenExpiry (snd out) = tokenExpiry s
  /\ net (snd out) = rest
  /\ history (snd out)
     = history s
       ++ [Entered m_login (tokens s) (tokenExpiry s) (now s);
           Sent {| req_method := "GET"; req_url := API_LOGIN;
                   req_headers := default_headers s;
                   req_params := None; req_data := None;
                   req_json := None |}].
Proof.
  destruct s as [tk te mh me dh nw nt f tz hi]. fields.
  intros -> Hc1 Hstop. cbv zeta.
  unfold login, bind, try_except, enter, note, modify, get_state, lift, attr,
    ret, raise.
  fields. plain_call. rewrite (bool_decide_eq_true_2 _ Hc1).
  destruct (has_recaptcha (text r1)).
  - fields. rewrite <- !app_assoc. repeat split; reflexivity.
  - destruct Hstop as [Hs|[Hs|Hs]]; [discriminate| |].
    + rewrite Hs. fields. rewrite <- !app_assoc. repeat split; reflexivity.
    + rewrite Hs. destruct (pie (text r1)); fields; rewrite <- !app_assoc;
        repeat split; reflexivity.
Qed.

Lemma login_stops_before_posting_witness :
  let captcha :=
    {| has_recaptcha := true; pie := Some "pie-1"; etm := Some "etm-1";
       errors := []; skypetoken := None; expires_in := None |} in
  let s := fresh_start
             [(2%Z, Responds (page_answer captcha));
              (3%Z, Responds (page_answer
                                (token_page (Some "skypetoken-2")
                                   (Some 86400%Z))))] in
  fst (login (Some "user") (Some "secret") s)
  = Raise (SkypeApiException [ArgStr "Captcha required"])
  /\ length (net (snd (login (Some "user") (Some "secret") s))) = 1.
Proof.
  cbv zeta.
  match goal with
  | |- fst (login ?u ?p ?s) = _ /\ _ =>
      destruct (login_stops_before_posting u p s 2%Z
                  (page_answer
                     {| has_recaptcha := true; pie := Some "pie-1";
                        etm := Some "etm-1"; errors := [];
                        skypetoken := None; expires_in := None |})
                  [(3%Z, Responds (page_answer
                                     (token_page (Some "skypetoken-2")
                                        (Some 86400%Z))))])
        as (H1 & _ & _ & H4 & _)
  end.
  - reflexivity.
  - apply (bool_decide_unpack _); vm_compute; reflexivity.
  - left. reflexivity.
  - split; [exact H1|]. rewrite H4. reflexivity.
Defined.

(** X19.  When the answer to the login [POST] shows error messages,
    [login] raises [SkypeApiException] with the response and the first
    message; when it shows none but lacks the token or its lifetime,
    [SkypeApiException] with the response.  The expiries are unchanged in all
    these cases, and so are the tokens, except when the page has the token
    but not its lifetime: then the session token is stored without an
    expiry. *)
Theorem login_rejected_after_posting user pwd s dt1 r1 dt2 r2 rest p e :
  net s = (dt1, Responds r1) :: (dt2, Responds r2) :: rest ->
  status_code r1 ∈ default_codes -> status_code r2 ∈ default_codes ->
  has_recaptcha (text r1) = false ->
  pie (text r1) = Some p -> etm (text r1) = Some e ->
  errors (text r2) <> [] \/ skypetoken (text r2) = None
  \/ expires_in (text r2) = None ->
  let out := login user pwd s in
  fst out
  = Raise (SkypeApiException
             match errors (text r2) with
             | msg :: _ =>
                 [ArgStr "Error message returned"; ArgResp r2; ArgStr msg]
             | [] =>
                 [ArgStr "Couldn't retrieve Skype token from login response";
                  ArgResp r2]
             end)
  /\ tokenExpiry (snd out) = tokenExpiry s
  /\ tokens (snd out)
     = match errors (text r2), skypetoken (text r2) with
       | [], Some tok => <["skype" := tok]> (tokens s)
       | _, _ => tokens s
       end.
Proof.
  destruct s as [tk te mh me dh nw nt f tz hi]. fields.
  intros -> Hc1 Hc2 Hcap Hpie Hetm Hrej. cbv zeta.
  unfold login, bind, try_except, enter, note, modify, get_state, lift, attr,
    ret, raise.
  fields. plain_call. rewrite (bool_decide_eq_true_2 _ Hc1), Hcap, Hpie, Hetm.
  fields. plain_call. rewrite (bool_decide_eq_true_2 _ Hc2).
  destruct (errors (text r2)) as [|msg more].
  - destruct (skypetoken (text r2)) as [tok|].
    + destruct Hrej as [H|[H|H]]; [contradiction|discriminate|].
      rewrite H. fields. repeat split; reflexivity.
    + fields. repeat split; reflexivity.
  - fields. repeat split; reflexivity.
Qed.

Lemma login_rejected_after_posting_witness :
  let s := fresh_start
             [(2%Z, Responds (page_answer form_page));
              (3%Z, Responds (page_answer
                                (token_page (Some "skypetoken-2") None)))] in
  (exists args, fst (login (Some "user") (Some "secret") s)
                = Raise (SkypeApiException args))
  /\ tokens (snd (login (Some "user") (Some "secret") s))
     = <["skype" := "skypetoken-2"]> ∅
  /\ tokenExpiry (snd (login (Some "user") (Some "secret") s)) = ∅.
Proof.
  cbv zeta.
  match goal with
  | |- (exists _, fst (login ?u ?p ?s) = _) /\ _ =>
      destruct (login_rejected_after_posting u p s 2%Z
                  (page_answer form_page) 3%Z
                  (page_answer (token_page (Some "skypetoken-2") None))
                  [] "pie-1" "etm-1")
        as (H1 & H2 & H3)
  end; try reflexivity;
    try (apply (bool_decide_unpack _); vm_compute; reflexivity).
  split; [eexists; exact H1|]. split; [exact H3 | exact H2].
Defined.

(** * More on the constructor *)

(** X20.  A constructor that returns leaves a complete connection: the
    session token and its expiry, the registration token, the host and the
    endpoint are all set. *)
Theorem init_yields_complete_connection user pwd tokenFile s a s' :
  __init__ user pwd tokenFile s = (Ok a, s') ->
  is_Some (tokens s' !! "skype") /\ is_Some (tokenExpiry s' !! "skype")
  /\ is_Some (tokens s' !! "reg")
  /\ is_Some (msgsHost s') /\ is_Some (msgsEndpoint s').
Proof.
  intros H. unfold __init__ in H.
  apply bind_ok_inv in H as (u1 & s1 & E1 & H).
  apply bind_ok_inv in H as (u2 & s2 & E2 & H).
  apply bind_ok_inv in H as (u3 & s3 & E3 & H).
  apply bind_ok_inv in H as (u4 & s4 & E4 & H).
  apply bind_ok_inv in H as (u5 & s5 & E5 & H).
  apply bind_ok_inv in H as (u6 & s6 & E6 & H).
  apply bind_ok_inv in H as (u7 & s7 & E7 & H).
  unfold modify in E1, E2, E3.
  injection E1 as _ <-. injection E2 as _ <-. injection E3 as _ <-.
  assert (S5 : has_skype s5).
  { apply (login_if_needed_token user pwd tokenFile s4 u5 s5); [|exact E5].
    pose proof (load_cache_inv tokenFile
                  (with_tokenExpiry ∅ (with_tokens ∅ (new_object s)))) as L.
    cbv zeta in L. rewrite E4 in L. cbn [snd] in L.
    destruct L as (_ & [[Lt _]|L]); [|intros _; exact L].
    intros N. exfalso. apply N. rewrite Lt. reflexivity. }
  destruct u6.
  pose proof (getRegToken_rec_frame (S (length (net s5))) s5) as F6.
  pose proof (getRegToken_rec_result _ _ _ E6)
    as (dt & resp & loc & reg & _ & _ & _ & Hhost & Hreg).
  change (getRegToken_rec (S (length (net s5))) s5) with (getRegToken s5) in F6.
  cbv zeta in F6. rewrite E6 in F6. cbn [fst snd] in F6.
  destruct F6 as (F61 & _ & _ & _ & [reg' F65]).
  pose proof (makeEndpoint_frame s6) as F7. cbv zeta in F7.
  rewrite E7 in F7. cbn [fst snd] in F7.
  destruct F7 as (F71 & F72 & F73 & _ & F75).
  pose proof (subscribe_frame s7) as F8. cbv zeta in F8.
  rewrite H in F8. cbn [snd] in F8.
  destruct F8 as (F81 & F82 & F83 & F84 & _).
  destruct S5 as [St Se].
  rewrite F81, F82, F83, F84, F71, F72, F73.
  split; [|split; [|split; [|split]]].
  - rewrite F65, lookup_insert_ne by discriminate. exact St.
  - rewrite F61. exact Se.
  - rewrite Hreg. eauto.
  - rewrite Hhost. eauto.
  - exact (F75 u7 eq_refl).
Qed.

Lemma init_yields_complete_connection_witness :
  let out := __init__ None None (Some "tokens.txt")
               (cached_start late_404_script) in
  fst out = Ok tt
  /\ is_Some (tokens (snd out) !! "reg")
  /\ is_Some (msgsEndpoint (snd out)).
Proof.
  cbv zeta.
  assert (E : fst (__init__ None None (Some "tokens.txt")
                     (cached_start late_404_script)) = Ok tt)
    by (vm_compute; reflexivity).
  split; [exact E|].
  destruct (__init__ None None (Some "tokens.txt")
              (cached_start late_404_script)) as [r s'] eqn:H.
  cbn [fst] in E. subst r.
  destruct (init_yields_complete_connection _ _ _ _ _ _ H)
    as (_ & _ & H3 & _ & H5).
  split; [exact H3 | exact H5].
Defined.

(** ** str and int on decimal numerals *)

Ltac eval_chars :=
  repeat (match goal with
  | |- context [is_space ?c] =>
      let v := eval vm_compute in (is_space c) in
      progress change (is_space c) with v
  | |- context [is_decimal ?c] =>
      let v := eval vm_compute in (is_decimal c) in
      progress change (is_decimal c) with v
  | |- context [Ascii.eqb ?c ?d] =>
      let v := eval vm_compute in (Ascii.eqb c d) in
      progress change (Ascii.eqb c d) with v
  | |- context [(?a * 10 + (ord ?c - 48))%Z] =>
      let v := eval vm_compute in (ord c - 48)%Z in
      progress change (a * 10 + (ord c - 48))%Z with (a * 10 + v)%Z
  | |- context [numeral (ord ?c - 48)%Z] =>
      let v := eval vm_compute in (ord c - 48)%Z in
      progress change (ord c - 48)%Z with v
  end; cbv beta iota).

(** [int] reads a decimal numeral as [Pos.of_uint] does. *)
Lemma numeral_uint_acc d acc n :
  numeral (Zpos acc) n (NilEmpty.string_of_uint d)
  = Some (Zpos (Pos.of_uint_acc d acc),
          n + String.length (NilEmpty.string_of_uint d), "").
Proof.
  revert acc n.
  induction d as [|d IH|d IH|d IH|d IH|d IH|d IH|d IH|d IH|d IH|d IH];
    intros acc n;
    cbn [NilEmpty.string_of_uint numeral Pos.of_uint_acc String.length];
    [now rewrite Nat.add_0_r|..];
    eval_chars;
    match goal with
    | |- numeral ?x _ _ = Some (Zpos (Pos.of_uint_acc _ ?p), _, _) =>
        replace x with (Zpos p) by lia
    end; rewrite IH, Nat.add_succ_r; reflexivity.
Qed.

Lemma numeral_uint d n :
  numeral 0 n (NilEmpty.string_of_uint d)
  = Some (Z.of_N (Pos.of_uint d),
          n + String.length (NilEmpty.string_of_uint d), "").
Proof.
  revert n.
  induction d as [|d IH|d IH|d IH|d IH|d IH|d IH|d IH|d IH|d IH|d IH];
    intros n;
    cbn [NilEmpty.string_of_uint numeral Pos.of_uint String.length];
    [now rewrite Nat.add_0_r|..];
    eval_chars;
    match goal with
    | |- numeral ?x _ _ = _ =>
        let v := eval vm_compute in x in change x with v
    end;
    first [rewrite IH | rewrite numeral_uint_acc];
    rewrite Nat.add_succ_r; reflexivity.
Qed.

Lemma int_str_uint d :
  d <> Decimal.Nil ->
  String.length (NilEmpty.string_of_uint d) <= max_str_digits ->
  int_str (NilEmpty.string_of_uint d) = Ok (Z.of_N (Pos.of_uint d))
  /\ int_str (String "-" (NilEmpty.string_of_uint d))
     = Ok (- Z.of_N (Pos.of_uint d))%Z.
Proof.
  intros Hd Hl. pose proof (numeral_uint d 0) as N. revert N.
  destruct d as [|d|d|d|d|d|d|d|d|d|d]; [contradiction|..];
    unfold int_str;
    cbn [NilEmpty.string_of_uint numeral lstrip String.length] in *;
    eval_chars;
    match goal with
    | |- numeral ?x _ _ = _ -> _ =>
        let v := eval vm_compute in x in change x with v
    end;
    intros ->; cbn [lstrip];
    (rewrite (proj2 (Nat.ltb_ge _ _)) by (cbn [Nat.add]; exact Hl));
    (split; f_equal; lia).
Qed.

(** [int(str(n)) = n], as long as [str(n)] stays within the digit limit. *)
Lemma int_str_of_int (n : Z) :
  String.length (str_of_int n) <= max_str_digits ->
  int_str (str_of_int n) = Ok n.
Proof.
  unfold str_of_int. destruct n as [|p|p];
    cbn [Z.to_int NilZero.string_of_int]; [reflexivity|..];
    unfold NilZero.string_of_uint;
    pose proof (DecimalPos.Unsigned.of_to p) as E;
    pose proof (DecimalPos.Unsigned.to_uint_nonnil p) as U;
    pose proof (int_str_uint (Pos.to_uint p) U) as I;
    rewrite E in I;
    destruct (Pos.to_uint p); try contradiction;
    cbn [String.length]; intros Hl.
  all: first [ apply I; exact Hl | apply I; lia ].
Qed.

(** ** The token file *)

Lemma truthy_path_some path : path <> "" -> truthy_path (Some path) = Some path.
Proof. destruct path; [contradiction | reflexivity]. Qed.

(** X21.  The constructor reads back what [str] wrote.  From a token file
    of three lines whose second line is [str(t)] for an integer [t], of
    either sign and within the digits [int] accepts, it converts [t] and the
    clock to local time: when a conversion fails it raises the exception of
    the conversion, and otherwise it takes the token, the local expiry and
    the host exactly when the local time of the clock is strictly before the
    local time of [t]. *)
Theorem token_file_read_back path tok t host s :
  path <> "" ->
  fs s !! path = Some [tok; str_of_int t; host] ->
  String.length (str_of_int t) <= max_str_digits ->
  load_cache (Some path) s
  = match fromtimestamp (timezone s) t, datetime_now s with
    | Ok expiry, Ok wall =>
        if (wall <? expiry)%Z
        then (Ok tt,
              with_msgsHost (Some host)
                (with_tokenExpiry (<["skype" := expiry]> (tokenExpiry s))
                   (with_tokens (<["skype" := tok]> (tokens s)) s)))
        else (Ok tt, s)
    | Raise err, _ | Ok _, Raise err => (Raise err, s)
    end.
Proof.
  intros Hp Hf Hl. unfold load_cache, bind, get_state, lift, modify.
  rewrite (truthy_path_some _ Hp), Hf. unfold read_expiry.
  rewrite (int_str_of_int t Hl). cbn [rbind].
  destruct (fromtimestamp (timezone s) t) as [expiry|err]; [|reflexivity].
  destruct (datetime_now s) as [wall|err]; [|reflexivity].
  destruct (wall <? expiry)%Z; reflexivity.
Qed.

Lemma token_file_read_back_witness :
  let s := with_fs (<["tokens.txt" :=
                        ["skypetoken-2"; str_of_int 1446740402;
                         API_MSGSHOST]]> ∅)
             (fresh_start []) in
  String.length (str_of_int 1446740402) <= max_str_digits
  /\ tokens (snd (load_cache (Some "tokens.txt") s)) !! "skype"
     = Some "skypetoken-2"
  /\ tokenExpiry (snd (load_cache (Some "tokens.txt") s)) !! "skype"
     = Some 1446740402%Z.
Proof.
  cbv zeta.
  assert (Hl : String.length (str_of_int 1446740402) <= max_str_digits)
    by (apply Nat.leb_le; vm_compute; reflexivity).
  split; [exact Hl|].
  match goal with
  | |- tokens (snd (load_cache _ ?s)) !! _ = _ /\ _ =>
      assert (Hf : fs s !! "tokens.txt"
                   = Some ["skypetoken-2"; str_of_int 1446740402;
                           API_MSGSHOST]) by (vm_compute; reflexivity);
      rewrite (token_file_read_back "tokens.txt" "skypetoken-2" 1446740402%Z
                 API_MSGSHOST s ltac:(discriminate) Hf Hl)
  end.
  split; vm_compute; reflexivity.
Defined.

(** The three registration steps of the constructor write no file. *)
Lemma connect_frame_fs (s : state) :
  fs (snd ((getRegToken ;;; makeEndpoint ;;; subscribe)%action s)) = fs s.
Proof.
  unfold bind.
  pose proof (getRegToken_rec_frame (S (length (net s))) s) as F.
  change (getRegToken_rec (S (length (net s))) s) with (getRegToken s) in F.
  cbv zeta in F. destruct (getRegToken s) as [[u|e] s1]; cbn [fst snd] in F;
    destruct F as (_ & _ & _ & F & _); [|exact F].
  pose proof (makeEndpoint_frame s1) as G. cbv zeta in G.
  destruct (makeEndpoint s1) as [[u'|e] s2]; cbn [fst snd] in G;
    destruct G as (_ & _ & _ & G & _); [|cbn [snd]; congruence].
  pose proof (subscribe_frame s2) as K. cbv zeta in K.
  destruct K as (_ & _ & _ & _ & K & _). congruence.
Qed.




(** X23.  A token file that does not have exactly three lines makes the
    constructor raise [ValueError] before it logs in: nothing is sent. *)
Theorem init_rejects_malformed_token_file user pwd path lines s :
  path <> "" ->
  fs s !! path = Some lines ->
  length lines <> 3 ->
  __init__ user pwd (Some path) s
  = (Raise ValueError, with_tokenExpiry ∅ (with_tokens ∅ (new_object s))).
Proof.
  intros Hp Hf Hl. unfold __init__.
  rewrite (bind_eq_ok (modify new_object) _ s tt _ eq_refl).
  rewrite (bind_eq_ok (modify (with_tokens ∅)) _ _ tt _ eq_refl).
  rewrite (bind_eq_ok (modify (with_tokenExpiry ∅)) _ _ tt _ eq_refl).
  set (s3 := with_tokenExpiry ∅ (with_tokens ∅ (new_object s))).
  apply bind_eq_raise.
  unfold load_cache, bind, get_state. rewrite (truthy_path_some _ Hp).
  change (fs s3) with (fs s). rewrite Hf.
  destruct lines as [|a [|b [|c [|d more]]]]; try reflexivity.
  cbn [length] in Hl. lia.
Qed.

Lemma init_rejects_malformed_token_file_witness :
  let s := with_fs (<["tokens.txt" := ["skypetoken-2"; "1446740402"]]> ∅)
             (fresh_start [(2%Z, Responds (page_answer form_page))]) in
  fst (__init__ (Some "user") (Some "secret") (Some "tokens.txt") s)
  = Raise ValueError
  /\ history (snd (__init__ (Some "user") (Some "secret")
                     (Some "tokens.txt") s)) = [].
Proof.
  cbv zeta.
  match goal with
  | |- fst (__init__ ?u ?p _ ?s) = _ /\ _ =>
      assert (Hf : fs s !! "tokens.txt"
                   = Some ["skypetoken-2"; "1446740402"])
        by (vm_compute; reflexivity);
      rewrite (init_rejects_malformed_token_file u p "tokens.txt" _ s
                 ltac:(discriminate) Hf ltac:(cbn; lia))
  end.
  split; reflexivity.
Defined.

(** X24.  With a token file whose expiry the constructor accepts (the
    line is read as an integer, the conversions to local time succeed, and
    the local time of the clock is strictly before the local time of the
    expiry), the constructor uses neither [user] nor [pwd], and does not
    write any file. *)
Theorem init_from_cache_ignores_credentials
  user pwd user' pwd' path tok e expiry wall host s :
  path <> "" ->
  fs s !! path = Some [tok; e; host] ->
  read_expiry (timezone s) e = Ok expiry -> datetime_now s = Ok wall ->
  (wall < expiry)%Z ->
  __init__ user pwd (Some path) s = __init__ user' pwd' (Some path) s
  /\ fs (snd (__init__ user pwd (Some path) s)) = fs s.
Proof.
  intros Hp Hf He Hw Hlt.
  assert (E : forall u p,
             __init__ u p (Some path) s
             = (getRegToken ;;; makeEndpoint ;;; subscribe)%action
                 (with_msgsHost (Some host)
                    (with_tokenExpiry (<["skype" := expiry]> ∅)
                       (with_tokens (<["skype" := tok]> ∅)
                          (with_tokenExpiry ∅
                             (with_tokens ∅ (new_object s))))))).
  { intros u p. unfold __init__.
    rewrite (bind_eq_ok (modify new_object) _ s tt _ eq_refl).
    rewrite (bind_eq_ok (modify (with_tokens ∅)) _ _ tt _ eq_refl).
    rewrite (bind_eq_ok (modify (with_tokenExpiry ∅)) _ _ tt _ eq_refl).
    set (s3 := with_tokenExpiry ∅ (with_tokens ∅ (new_object s))).
    assert (L : load_cache (Some path) s3 = _)
      by (apply (load_cache_valid (Some path) path tok e expiry wall host s3
                   (truthy_path_some _ Hp) Hf He Hw);
          apply Z.ltb_lt; exact Hlt).
    rewrite (bind_eq_ok _ _ _ _ _ L).
    match goal with
    | |- bind (login_if_needed u p (Some path)) _ ?s4 = _ =>
        assert (W : login_if_needed u p (Some path) s4 = (Ok tt, s4))
    end.
    { unfold login_if_needed, bind, get_state.
      rewrite bool_decide_eq_false_2; [reflexivity|].
      fields. apply insert_non_empty. }
    rewrite (bind_eq_ok _ _ _ _ _ W). reflexivity. }
  split; [now rewrite !E|].
  rewrite E, connect_frame_fs. reflexivity.
Qed.

Lemma init_from_cache_ignores_credentials_witness :
  __init__ (Some "user") (Some "secret") (Some "tokens.txt")
    (cached_start late_404_script)
  = __init__ None None (Some "tokens.txt") (cached_start late_404_script).
Proof.
  refine (proj1 (init_from_cache_ignores_credentials
                   (Some "user") (Some "secret") None None "tokens.txt"
                   "skypetoken-1" "1446654100" 1446654100%Z 1446654000%Z
                   API_MSGSHOST (cached_start late_404_script) _ _ _ _ _)).
  - discriminate.
  - vm_compute; reflexivity.
  - vm_compute; reflexivity.
  - vm_compute; reflexivity.
  - lia.
Defined.

(** * The retry after a resubscription *)

(** X25.  The retry after a resubscription is made with the new
    registration token: when a wrapped call under [Auth.Reg] is refused with
    a status in the codes of [resubscribeOn], and [getRegToken] and
    [subscribe] then succeed on the same host, the second invocation sends
    the token [getRegToken] has just stored, not the one the first
    invocation sent. *)
Theorem resubscribeOn_retries_with_new_token
  codes method url codes' params data json
  s host tok old dt0 r0 dt1 r1 dt2 r2 rest id new :
  msgsHost s = Some host ->
  tokens s !! "skype" = Some tok ->
  tokens s !! "reg" = Some old ->
  net s = (dt0, Responds r0) :: (dt1, Responds r1) :: (dt2, Responds r2)
          :: rest ->
  status_code r0 ∉ codes' -> status_code r0 ∈ codes ->
  status_code r1 ∈ [201; 301]%Z ->
  resp_headers r1 !! "Location" = Some (host +:+ "/endpoints/" +:+ id) ->
  no_slash id ->
  resp_headers r1 !! "Set-RegistrationToken" = Some new ->
  status_code r2 ∈ default_codes ->
  let func := __call__ method url codes' (Some Auth_Reg) HeadersDefault
                params data json in
  let out := resubscribeOn codes func s in
  tokens (snd out) !! "reg" = Some new
  /\ net (snd out) = tail rest
  /\ exists h before,
       h !! "RegistrationToken" = Some new
       /\ history (snd out)
          = before
            ++ [Invoked;
                Sent {| req_method := method; req_url := url;
                        req_headers := h; req_params := params;
                        req_data := data; req_json := json |}].
Proof.
  destruct s as [tk te mh me dh nw nt f tz hi]. fields.
  intros -> Ht Hold -> Hc0' Hc0 Hc1 Hloc Hid Hnew Hc2.
  set (out := resubscribeOn codes _ _).
  assert (N : forall m : gmap string string, <["reg" := new]> m !! "reg"
                                             = Some new)
    by (intros; apply lookup_insert_eq).
  assert (L : forall (m : gmap string string),
             <["RegistrationToken" := new]> m !! "RegistrationToken"
             = Some new) by (intros; apply lookup_insert_eq).
  assert (E : exists o s' h before,
             out = (o, s') /\ tokens s' !! "reg" = Some new
             /\ net s' = tail rest
             /\ h !! "RegistrationToken" = Some new
             /\ history s'
                = before
                  ++ [Invoked;
                      Sent {| req_method := method; req_url := url;
                              req_headers := h; req_params := params;
                              req_data := data; req_json := json |}]).
  { subst out. rewrite resubscribeOn_eq.
    unfold invoke, bind, note, modify. fields.
    reg_call old Hold. rewrite (bool_decide_eq_false_2 _ Hc0').
    cbn [triggers status_in]. rewrite (bool_decide_eq_true_2 _ Hc0).
    match goal with
    | |- context [getRegToken ?s1] =>
        destruct (getRegToken_step s1 host tok dt1 r1
                    ((dt2, Responds r2) :: rest) _ new
                    eq_refl Ht eq_refl Hc1 Hloc Hnew)
          as (mac & _ & _ & Hsame)
    end.
    cbv zeta in Hsame. rewrite Hsame; clear Hsame.
    2:{ change (host +:+ "/endpoints/" +:+ id)
          with (host +:+ "/" +:+ "endpoints" +:+ "/" +:+ id).
        exact (proj1 (rsplit_head_parts host "endpoints" id eq_refl Hid)). }
    fields.
    unfold subscribe, bind, enter, note, modify, get_state, lift, attr, ret.
    fields. reg_call new (N tk).
    rewrite (bool_decide_eq_true_2 _ Hc2). fields. reg_call new (N tk).
    destruct rest as [|[dt3 [r3|]] rest'].
    - eexists _, _, _, _. split; [reflexivity|]. fields.
      split; [apply N|]. split; [reflexivity|]. split; [apply L|].
      rewrite <- app_assoc. reflexivity.
    - match goal with
      | |- context [@bool_decide ?P ?D] => destruct (@bool_decide P D)
      end; eexists _, _, _, _; (split; [reflexivity|]); fields;
        (split; [apply N|]); (split; [reflexivity|]); (split; [apply L|]);
        rewrite <- app_assoc; reflexivity.
    - eexists _, _, _, _. split; [reflexivity|]. fields.
      split; [apply N|]. split; [reflexivity|]. split; [apply L|].
      rewrite <- app_assoc. reflexivity. }
  destruct E as (o & s' & h & before & -> & E1 & E2 & E3 & E4).
  cbn [snd]. eauto 10.
Qed.

Lemma resubscribeOn_retries_with_new_token_witness :
  let s := connected
             [(1%Z, Responds (answer 404 "" ""));
              (1%Z, Responds (answer 201
                                (API_MSGSHOST +:+ "/endpoints/" +:+ "ep1")
                                "registrationToken=r2"));
              (1%Z, Responds (answer 200 "" ""));
              (1%Z, Responds (answer 200 "" ""))] in
  tokens s !! "reg" = Some "regtoken-1"
  /\ tokens (snd (resubscribeOn [404%Z] get_conversations s)) !! "reg"
     = Some "registrationToken=r2"
  /\ exists h before,
       h !! "RegistrationToken" = Some "registrationToken=r2"
       /\ history (snd (resubscribeOn [404%Z] get_conversations s))
          = before
            ++ [Invoked;
                Sent {| req_method := "GET";
                        req_url := API_MSGSHOST +:+ "/conversations";
                        req_headers := h; req_params := None;
                        req_data := None; req_json := None |}].
Proof.
  cbv zeta.
  match goal with
  | |- tokens ?s !! _ = _ /\ _ =>
      destruct (resubscribeOn_retries_with_new_token
                  [404%Z] "GET" (API_MSGSHOST +:+ "/conversations")
                  default_codes None None None
                  s API_MSGSHOST "skypetoken-1" "regtoken-1"
                  1%Z (answer 404 "" "")
                  1%Z (answer 201 (API_MSGSHOST +:+ "/endpoints/" +:+ "ep1")
                         "registrationToken=r2")
                  1%Z (answer 200 "" "")
                  [(1%Z, Responds (answer 200 "" ""))]
                  "ep1" "registrationToken=r2")
        as (H1 & _ & H3)
  end.
  - reflexivity.
  - vm_compute; reflexivity.
  - vm_compute; reflexivity.
  - reflexivity.
  - intros H. apply (bool_decide_pack _) in H. vm_compute in H. exact H.
  - apply (bool_decide_unpack _). vm_compute. reflexivity.
  - apply (bool_decide_unpack _). vm_compute. reflexivity.
  - vm_compute; reflexivity.
  - reflexivity.
  - vm_compute; reflexivity.
  - apply (bool_decide_unpack _). vm_compute. reflexivity.
  - split; [vm_compute; reflexivity|]. split; [exact H1 | exact H3].
Defined.
